(** * Rule engines and session store of the mini-game server (src/main.py)

    Shallow embedding of the checkers and tic-tac-toe rule engines, the
    quiz engine, the shared session store, the room-code generator and the
    request handlers that gate and persist moves or open, join and leave
    rooms.

    Conventions of the embedding:
    - a Python [list] indexed by an [int] is a Rocq [list] indexed by a [Z],
      with Python's rule for negative indexes and [None] for [IndexError];
    - a function that can raise returns [option]; [None] stands for the
      raised exception;
    - a [dict] used as a plain map is a [gmap]; the session store, whose
      iteration order decides eviction, is an association list kept in
      insertion order;
    - random choices and fresh uuids are inputs of the functions that draw
      them. *)

From Stdlib Require Import Ascii.
From stdpp Require Import gmap strings list fin_maps list_numbers.
From stdpp Require Import pretty.

Open Scope Z_scope.

(** ** Python list indexing *)

Section py_list.
Context {A : Type}.

(** [l[i]] resolves [i] in [-len, len); anything else raises. *)
Definition py_index (l : list A) (i : Z) : option nat :=
  let n := Z.of_nat (length l) in
  if bool_decide (0 ≤ i < n) then Some (Z.to_nat i)
  else if bool_decide (- n ≤ i < 0) then Some (Z.to_nat (n + i))
  else None.

Definition py_get (l : list A) (i : Z) : option A :=
  k ← py_index l i; l !! k.

Definition py_set (l : list A) (i : Z) (x : A) : option (list A) :=
  k ← py_index l i; Some (<[k:=x]> l).

(** [enumerate(l)] *)
Definition enumerate (l : list A) : list (Z * A) :=
  imap (λ i x, (Z.of_nat i, x)) l.
End py_list.

(** ** Checkers rule engine *)

Module Checkers.

(** The two sides, ["b"] and ["g"]. *)
Inductive player := Blue | Green.

(** Cell contents: [""], ["b"], ["B"], ["g"], ["G"]. *)
Inductive piece := Empty | BlueMan | BlueKing | GreenMan | GreenKing.

Global Instance player_eq_dec : EqDecision player.
Proof. solve_decision. Defined.
Global Instance piece_eq_dec : EqDecision piece.
Proof. solve_decision. Defined.

Definition other (p : player) : player :=
  match p with Blue => Green | Green => Blue end.

(** A move as listed by the engine: [(target, is_capture)]. *)
Definition move : Type := Z * bool.

Record state := State {
  blue_name : string;
  green_name : string;
  board : list piece;
  turn : player;
  selected : option Z;
  forced_from : option Z;
  finished : bool;
  winner : option player;
  winner_name : string;
  message : string;
  score_blue : Z;
  score_green : Z;
  show_overlay : bool
}.

Definition set_green_name (v : string) (s : state) : state :=
  State (blue_name s) v (board s) (turn s) (selected s) (forced_from s)
    (finished s) (winner s) (winner_name s) (message s)
    (score_blue s) (score_green s) (show_overlay s).
Definition set_board (v : list piece) (s : state) : state :=
  State (blue_name s) (green_name s) v (turn s) (selected s) (forced_from s)
    (finished s) (winner s) (winner_name s) (message s)
    (score_blue s) (score_green s) (show_overlay s).
Definition set_turn (v : player) (s : state) : state :=
  State (blue_name s) (green_name s) (board s) v (selected s) (forced_from s)
    (finished s) (winner s) (winner_name s) (message s)
    (score_blue s) (score_green s) (show_overlay s).
Definition set_selected (v : option Z) (s : state) : state :=
  State (blue_name s) (green_name s) (board s) (turn s) v (forced_from s)
    (finished s) (winner s) (winner_name s) (message s)
    (score_blue s) (score_green s) (show_overlay s).
Definition set_forced_from (v : option Z) (s : state) : state :=
  State (blue_name s) (green_name s) (board s) (turn s) (selected s) v
    (finished s) (winner s) (winner_name s) (message s)
    (score_blue s) (score_green s) (show_overlay s).
Definition set_finished (v : bool) (s : state) : state :=
  State (blue_name s) (green_name s) (board s) (turn s) (selected s)
    (forced_from s) v (winner s) (winner_name s) (message s)
    (score_blue s) (score_green s) (show_overlay s).
Definition set_winner (v : option player) (s : state) : state :=
  State (blue_name s) (green_name s) (board s) (turn s) (selected s)
    (forced_from s) (finished s) v (winner_name s) (message s)
    (score_blue s) (score_green s) (show_overlay s).
Definition set_winner_name (v : string) (s : state) : state :=
  State (blue_name s) (green_name s) (board s) (turn s) (selected s)
    (forced_from s) (finished s) (winner s) v (message s)
    (score_blue s) (score_green s) (show_overlay s).
Definition set_message (v : string) (s : state) : state :=
  State (blue_name s) (green_name s) (board s) (turn s) (selected s)
    (forced_from s) (finished s) (winner s) (winner_name s) v
    (score_blue s) (score_green s) (show_overlay s).
Definition set_score_blue (v : Z) (s : state) : state :=
  State (blue_name s) (green_name s) (board s) (turn s) (selected s)
    (forced_from s) (finished s) (winner s) (winner_name s) (message s)
    v (score_green s) (show_overlay s).
Definition set_score_green (v : Z) (s : state) : state :=
  State (blue_name s) (green_name s) (board s) (turn s) (selected s)
    (forced_from s) (finished s) (winner s) (winner_name s) (message s)
    (score_blue s) v (show_overlay s).
Definition set_show_overlay (v : bool) (s : state) : state :=
  State (blue_name s) (green_name s) (board s) (turn s) (selected s)
    (forced_from s) (finished s) (winner s) (winner_name s) (message s)
    (score_blue s) (score_green s) v.

Definition _ck_piece_owner (p : piece) : option player :=
  match p with
  | BlueMan | BlueKing => Some Blue
  | GreenMan | GreenKing => Some Green
  | Empty => None
  end.

Definition _ck_is_enemy (p : piece) (pl : option player) : bool :=
  let owner := _ck_piece_owner p in
  bool_decide (owner ≠ None) && bool_decide (owner ≠ pl).

Definition _ck_dirs (p : piece) : list (Z * Z) :=
  match p with
  | BlueMan => [(-1, -1); (-1, 1)]
  | GreenMan => [(1, -1); (1, 1)]
  | _ => [(-1, -1); (-1, 1); (1, -1); (1, 1)]
  end.

Definition _ck_in_bounds (r c : Z) : bool :=
  bool_decide (0 ≤ r < 8) && bool_decide (0 ≤ c < 8).

(** One iteration of the direction loop of [_ck_piece_moves]: the moves
    it appends for direction [(dr, dc)]. *)
Definition dir_moves (b : list piece) (r c : Z) (pl : option player)
    (capture_only : bool) (d : Z * Z) : option (list move) :=
  let '(dr, dc) := d in
  let r1 := r + dr in let c1 := c + dc in
  let r2 := r + 2 * dr in let c2 := c + 2 * dc in
  caps ←
    (if _ck_in_bounds r2 c2 && _ck_in_bounds r1 c1 then
       let m1 := r1 * 8 + c1 in
       let m2 := r2 * 8 + c2 in
       p1 ← py_get b m1;
       if _ck_is_enemy p1 pl then
         p2 ← py_get b m2;
         Some (if bool_decide (p2 = Empty) then [(m2, true)] else [])
       else Some []
     else Some []);
  if capture_only then Some caps
  else if _ck_in_bounds r1 c1 then
    let m1 := r1 * 8 + c1 in
    p1 ← py_get b m1;
    Some (caps ++ (if bool_decide (p1 = Empty) then [(m1, false)] else []))
  else Some caps.

Definition _ck_piece_moves (b : list piece) (idx : Z) (capture_only : bool)
    : option (list move) :=
  p ← py_get b idx;
  if bool_decide (p = Empty) then Some []
  else
    let r := idx `div` 8 in
    let c := idx `mod` 8 in
    let pl := _ck_piece_owner p in
    per_dir ← mapM (dir_moves b r c pl capture_only) (_ck_dirs p);
    Some (concat per_dir).

(** The comprehension [[m for m in _ck_piece_moves(board, i, True) if m[1]]]. *)
Definition captures (b : list piece) (i : Z) : option (list move) :=
  ms ← _ck_piece_moves b i true; Some (filter (λ m, m.2 = true) ms).

(** The comprehension [[m for m in _ck_piece_moves(board, i, False) if not m[1]]]. *)
Definition steps (b : list piece) (i : Z) : option (list move) :=
  ms ← _ck_piece_moves b i false; Some (filter (λ m, m.2 = false) ms).

(** The loop [for i in idxs: l = f(i); if l: acc[i] = l]. *)
Fixpoint collect (f : Z → option (list move)) (idxs : list Z)
    (acc : gmap Z (list move)) : option (gmap Z (list move)) :=
  match idxs with
  | [] => Some acc
  | i :: rest =>
      l ← f i;
      collect f rest (match l with [] => acc | _ => <[i:=l]> acc end)
  end.

(** [[i for i, p in enumerate(board) if _ck_piece_owner(p) == turn]] *)
Definition owned_indexes (b : list piece) (t : player) : list Z :=
  (filter (λ ip, _ck_piece_owner ip.2 = Some t) (enumerate b)).*1.

(** The pieces [_ck_legal_moves] looks at. *)
Definition piece_indexes (s : state) : list Z :=
  match forced_from s with
  | Some f => [f]
  | None => owned_indexes (board s) (turn s)
  end.

Definition _ck_legal_moves (s : state) : option (gmap Z (list move)) :=
  let b := board s in
  capture_map ← collect (captures b) (piece_indexes s) ∅;
  if bool_decide (capture_map ≠ ∅) then Some capture_map
  else if bool_decide (forced_from s ≠ None) then Some ∅
  else collect (steps b) (piece_indexes s) ∅.

Definition _ck_current_name (s : state) : string :=
  match turn s with Blue => blue_name s | Green => green_name s end.

(** The five assignments shared by both winning branches of
    [_ck_finalize_turn_if_needed], for winner [w] named [nm]. *)
Definition declare_win (w : player) (nm : string) (s : state) : state :=
  let s := set_finished true s in
  let s := set_winner (Some w) s in
  let s := set_winner_name nm s in
  let s := match w with
           | Blue => set_score_blue (score_blue s + 1) s
           | Green => set_score_green (score_green s + 1) s
           end in
  let s := set_show_overlay true s in
  set_message ("Vitória de " +:+ nm) s.

Definition _ck_finalize_turn_if_needed (s : state) : option state :=
  let opp := other (turn s) in
  let opp_pieces := filter (λ p, _ck_piece_owner p = Some opp) (board s) in
  match opp_pieces with
  | [] => Some (declare_win (turn s) (_ck_current_name s) s)
  | _ =>
      let s := set_turn opp s in
      let s := set_selected None s in
      let s := set_forced_from None s in
      opp_moves ← _ck_legal_moves s;
      if bool_decide (opp_moves = ∅) then
        let w := other opp in
        Some (declare_win w
                (match w with Blue => blue_name s | Green => green_name s end) s)
      else Some (set_message ("Vez de " +:+ _ck_current_name s) s)
  end.

(** The board updates of [_ck_apply_move]: relocation, promotion and, for
    a capture, removal of the jumped piece.  Returns the board and the
    [promoted] flag. *)
Definition move_piece (b : list piece) (from_idx to_idx : Z) (is_capture : bool)
    : option (list piece * bool) :=
  p ← py_get b from_idx;
  b ← py_set b from_idx Empty;
  b ← py_set b to_idx p;
  let tr := to_idx `div` 8 in
  '(b, promoted) ←
    (if bool_decide (p = BlueMan) && bool_decide (tr = 0) then
       b ← py_set b to_idx BlueKing; Some (b, true)
     else if bool_decide (p = GreenMan) && bool_decide (tr = 7) then
       b ← py_set b to_idx GreenKing; Some (b, true)
     else Some (b, false));
  if is_capture then
    let fr := from_idx `div` 8 in let fc := from_idx `mod` 8 in
    let tr := to_idx `div` 8 in let tc := to_idx `mod` 8 in
    let mr := (fr + tr) `div` 2 in let mc := (fc + tc) `div` 2 in
    b ← py_set b (mr * 8 + mc) Empty;
    Some (b, promoted)
  else Some (b, promoted).

Definition _ck_apply_move (s : state) (from_idx to_idx : Z) (is_capture : bool)
    : option state :=
  '(b, promoted) ← move_piece (board s) from_idx to_idx is_capture;
  let s := set_board b s in
  if is_capture && negb promoted then
    next_caps ← captures b to_idx;
    match next_caps with
    | _ :: _ =>
        Some (set_message "Captura obrigatória: continue com a mesma peça."
                (set_selected (Some to_idx) (set_forced_from (Some to_idx) s)))
    | [] => _ck_finalize_turn_if_needed s
    end
  else _ck_finalize_turn_if_needed s.

(** [{to: cap for to, cap in l}]: a later pair overrides an earlier one. *)
Definition targets_of (l : list move) : gmap Z bool :=
  foldl (λ m tc, <[tc.1 := tc.2]> m) ∅ l.

Definition _ck_click_cell (s : state) (idx : Z) : option state :=
  if finished s || bool_decide (idx < 0) || bool_decide (64 ≤ idx) then Some s
  else
    legal ← _ck_legal_moves s;
    let legal : gmap Z (list move) := legal in
    match selected s with
    | None =>
        if bool_decide (is_Some (legal !! idx))
        then Some (set_selected (Some idx) s) else Some s
    | Some sel =>
        let targets := targets_of (default [] (legal !! sel)) in
        match targets !! idx with
        | Some cap => _ck_apply_move s sel idx cap
        | None =>
            if bool_decide (is_Some (legal !! idx))
            then Some (set_selected (Some idx) s)
            else Some (set_selected None s)
        end
    end.

(** [_new_checkers_board()] *)
Definition _new_checkers_board : list piece :=
  (λ i : Z,
     let r := i `div` 8 in let c := i `mod` 8 in
     if bool_decide ((r + c) `mod` 2 = 1) then
       if bool_decide (r ≤ 2) then GreenMan
       else if bool_decide (5 ≤ r) then BlueMan else Empty
     else Empty) <$> seqZ 0 64.

Definition _new_checkers_state (bn gn : string) : state :=
  {| blue_name := if bool_decide (bn = "") then "Time Azul" else bn;
     green_name := if bool_decide (gn = "") then "Time Verde" else gn;
     board := _new_checkers_board;
     turn := Blue; selected := None; forced_from := None;
     finished := false; winner := None; winner_name := "";
     message := "Vez do Time Azul";
     score_blue := 0; score_green := 0; show_overlay := false |}.

(** *** Notions used to state the properties *)

(** Well-formed states: a 64-cell board and an in-range chain cell. *)
Definition wf (s : state) : Prop :=
  length (board s) = 64%nat ∧ ∀ f, forced_from s = Some f → 0 ≤ f < 64.

(** The king a man is promoted to. *)
Definition crown (p : piece) : piece :=
  match p with BlueMan => BlueKing | GreenMan => GreenKing | _ => p end.

(** The [promoted] flag of [_ck_apply_move] for piece [p] landing on [t]. *)
Definition promotes (p : piece) (t : Z) : bool :=
  bool_decide (p = BlueMan) && bool_decide (t `div` 8 = 0)
  || bool_decide (p = GreenMan) && bool_decide (t `div` 8 = 7).

Definition scores_le (s s' : state) : Prop :=
  score_blue s ≤ score_blue s' ∧ score_green s ≤ score_green s'.

(** An otherwise empty board with the given pieces on it. *)
Definition place (l : list (nat * piece)) : list piece :=
  foldl (λ b ip, <[ip.1 := ip.2]> b) (replicate 64 Empty) l.

(** Blue to move; the man on 17 can jump 10 and land on 3, in the back
    row, from where a king could go on to jump 12. *)
Definition crowning_position : state :=
  set_board (place [(17%nat, BlueMan); (10%nat, GreenMan); (12%nat, GreenMan)])
    (_new_checkers_state "Azul" "Verde").

(** Blue to move; the man on 40 can jump 33 and land on 26, from where
    it can go on to jump 19.  The man on 44 has two free steps. *)
Definition chain_position : state :=
  set_board (place [(40%nat, BlueMan); (44%nat, BlueMan);
                    (33%nat, GreenMan); (19%nat, GreenMan)])
    (_new_checkers_state "Azul" "Verde").


End Checkers.

(** ** Tic-tac-toe rule engine *)

Module TicTacToe.

(** The two symbols, ["X"] and ["O"]; an empty cell [""] is [None]. *)
Inductive mark := X | O.

(** A decided game: the winner's symbol or ["draw"]. *)
Inductive outcome := Win (m : mark) | Draw.

Global Instance mark_eq_dec : EqDecision mark.
Proof. solve_decision. Defined.
Global Instance outcome_eq_dec : EqDecision outcome.
Proof. solve_decision. Defined.

Definition flip (m : mark) : mark :=
  match m with X => O | O => X end.

Definition mark_str (m : mark) : string :=
  match m with X => "X" | O => "O" end.

Record state := State {
  mode : string;
  p1_name : string;
  p2_name : string;
  board : list (option mark);
  current : mark;
  finished : bool;
  winner : option outcome;
  winner_name : string;
  message : string;
  score_x : Z;
  score_o : Z;
  score_draw : Z;
  show_overlay : bool
}.

Definition set_mode (v : string) (s : state) : state :=
  State v (p1_name s) (p2_name s) (board s) (current s) (finished s)
    (winner s) (winner_name s) (message s)
    (score_x s) (score_o s) (score_draw s) (show_overlay s).
Definition set_p2_name (v : string) (s : state) : state :=
  State (mode s) (p1_name s) v (board s) (current s) (finished s)
    (winner s) (winner_name s) (message s)
    (score_x s) (score_o s) (score_draw s) (show_overlay s).
Definition set_board (v : list (option mark)) (s : state) : state :=
  State (mode s) (p1_name s) (p2_name s) v (current s) (finished s)
    (winner s) (winner_name s) (message s)
    (score_x s) (score_o s) (score_draw s) (show_overlay s).
Definition set_current (v : mark) (s : state) : state :=
  State (mode s) (p1_name s) (p2_name s) (board s) v (finished s)
    (winner s) (winner_name s) (message s)
    (score_x s) (score_o s) (score_draw s) (show_overlay s).
Definition set_finished (v : bool) (s : state) : state :=
  State (mode s) (p1_name s) (p2_name s) (board s) (current s) v
    (winner s) (winner_name s) (message s)
    (score_x s) (score_o s) (score_draw s) (show_overlay s).
Definition set_winner (v : option outcome) (s : state) : state :=
  State (mode s) (p1_name s) (p2_name s) (board s) (current s) (finished s)
    v (winner_name s) (message s)
    (score_x s) (score_o s) (score_draw s) (show_overlay s).
Definition set_winner_name (v : string) (s : state) : state :=
  State (mode s) (p1_name s) (p2_name s) (board s) (current s) (finished s)
    (winner s) v (message s)
    (score_x s) (score_o s) (score_draw s) (show_overlay s).
Definition set_message (v : string) (s : state) : state :=
  State (mode s) (p1_name s) (p2_name s) (board s) (current s) (finished s)
    (winner s) (winner_name s) v
    (score_x s) (score_o s) (score_draw s) (show_overlay s).
Definition set_score_x (v : Z) (s : state) : state :=
  State (mode s) (p1_name s) (p2_name s) (board s) (current s) (finished s)
    (winner s) (winner_name s) (message s)
    v (score_o s) (score_draw s) (show_overlay s).
Definition set_score_o (v : Z) (s : state) : state :=
  State (mode s) (p1_name s) (p2_name s) (board s) (current s) (finished s)
    (winner s) (winner_name s) (message s)
    (score_x s) v (score_draw s) (show_overlay s).
Definition set_score_draw (v : Z) (s : state) : state :=
  State (mode s) (p1_name s) (p2_name s) (board s) (current s) (finished s)
    (winner s) (winner_name s) (message s)
    (score_x s) (score_o s) v (show_overlay s).
Definition set_show_overlay (v : bool) (s : state) : state :=
  State (mode s) (p1_name s) (p2_name s) (board s) (current s) (finished s)
    (winner s) (winner_name s) (message s)
    (score_x s) (score_o s) (score_draw s) v.

Definition TTT_WIN_LINES : list (Z * Z * Z) :=
  [(0, 1, 2); (3, 4, 5); (6, 7, 8);
   (0, 3, 6); (1, 4, 7); (2, 5, 8);
   (0, 4, 8); (2, 4, 6)].

(** The loop of [_ttt_check_winner] over the lines [lines]: the symbol
    of the first line that holds three equal non-empty cells. *)
Fixpoint check_lines (b : list (option mark)) (lines : list (Z * Z * Z))
    : option (option mark) :=
  match lines with
  | [] => Some None
  | (ia, ib, ic) :: rest =>
      va ← py_get b ia;
      match va with
      | None => check_lines b rest
      | Some m =>
          vb ← py_get b ib;
          if bool_decide (va = vb) then
            vc ← py_get b ic;
            if bool_decide (vb = vc) then Some (Some m)
            else check_lines b rest
          else check_lines b rest
      end
  end.

Definition _ttt_check_winner (b : list (option mark)) : option (option mark) :=
  check_lines b TTT_WIN_LINES.

Definition _ttt_name_for_symbol (s : state) (m : mark) : string :=
  match m with X => p1_name s | O => p2_name s end.

Definition _ttt_finalize (s : state) : option state :=
  let b := board s in
  w ← _ttt_check_winner b;
  match w with
  | Some w =>
      let s := set_finished true s in
      let s := set_winner (Some (Win w)) s in
      let s := set_winner_name (_ttt_name_for_symbol s w) s in
      let s := set_show_overlay true s in
      let s := match w with
               | X => set_score_x (score_x s + 1) s
               | O => set_score_o (score_o s + 1) s
               end in
      Some (set_message
              ("Vitória de " +:+ winner_name s +:+ " (" +:+ mark_str w +:+ ")") s)
  | None =>
      if forallb (λ c, bool_decide (c ≠ None)) b then
        let s := set_finished true s in
        let s := set_winner (Some Draw) s in
        let s := set_winner_name "Empate" s in
        let s := set_score_draw (score_draw s + 1) s in
        let s := set_show_overlay true s in
        Some (set_message "Empate!" s)
      else
        let s := set_finished false s in
        let s := set_winner None s in
        let s := set_winner_name "" s in
        let s := set_show_overlay false s in
        Some (set_message
                ("Vez de " +:+ _ttt_name_for_symbol s (current s)
                 +:+ " (" +:+ mark_str (current s) +:+ ")") s)
  end.

Definition _ttt_do_move (s : state) (pos : Z) : option state :=
  if finished s then Some s
  else if bool_decide (pos < 0) || bool_decide (9 ≤ pos) then Some s
  else
    c ← py_get (board s) pos;
    match c with
    | Some _ => Some s
    | None =>
        b ← py_set (board s) pos (Some (current s));
        s ← _ttt_finalize (set_board b s);
        if finished s then Some s
        else _ttt_finalize (set_current (flip (current s)) s)
    end.

(** [_ttt_bot_turn]; [k] is the entropy consumed by [random.choice],
    which picks [empty[k mod len(empty)]]. *)
Definition _ttt_bot_turn (s : state) (k : nat) : option state :=
  if bool_decide (mode s ≠ "solo") || finished s || bool_decide (current s ≠ O)
  then Some s
  else
    let empty := (filter (λ ic, ic.2 = None) (enumerate (board s))).*1 in
    match empty with
    | [] => Some s
    | _ => pos ← empty !! (k `mod` length empty)%nat; _ttt_do_move s pos
    end.

Definition _new_ttt_state (md p1 p2 : string) : state :=
  {| mode := md;
     p1_name := if bool_decide (p1 = "") then "Jogador 1" else p1;
     p2_name := if bool_decide (p2 = "") then
                  (if bool_decide (md = "solo") then "Computador" else "Jogador 2")
                else p2;
     board := replicate 9 None;
     current := X; finished := false; winner := None; winner_name := "";
     message := "Vez de X";
     score_x := 0; score_o := 0; score_draw := 0; show_overlay := false |}.

(** A run of [_ttt_do_move] calls. *)
Fixpoint play (s : state) (moves : list Z) : option state :=
  match moves with
  | [] => Some s
  | pos :: rest => s ← _ttt_do_move s pos; play s rest
  end.

(** States reachable from an initial state by [_ttt_do_move] calls. *)
Inductive reachable : state → Prop :=
| reach_new md p1 p2 : reachable (_new_ttt_state md p1 p2)
| reach_move s pos s' :
    reachable s → _ttt_do_move s pos = Some s' → reachable s'.

(** Line [ln] holds three cells marked [m]. *)
Definition line_holds (b : list (option mark)) (ln : Z * Z * Z) (m : mark) : Prop :=
  py_get b ln.1.1 = Some (Some m) ∧
  py_get b ln.1.2 = Some (Some m) ∧
  py_get b ln.2 = Some (Some m).

(** *** Notions used to state the properties *)

Definition line_in_range (ln : Z * Z * Z) : Prop :=
  0 ≤ ln.1.1 < 9 ∧ 0 ≤ ln.1.2 < 9 ∧ 0 ≤ ln.2 < 9.

(** Some winning line holds three equal non-empty symbols. *)
Definition has_line (b : list (option mark)) : Prop :=
  ∃ ln m, ln ∈ TTT_WIN_LINES ∧ line_holds b ln m.

(** All cells are filled. *)
Definition full (b : list (option mark)) : Prop := Forall (λ c, c ≠ None) b.

(** No two winning lines hold at once. *)
Definition single_line (b : list (option mark)) : Prop :=
  ∀ l1 l2 m1 m2, l1 ∈ TTT_WIN_LINES → l2 ∈ TTT_WIN_LINES →
    line_holds b l1 m1 → line_holds b l2 m2 → l1 = l2.

(** The invariant of play: an open game has no line, and every line of
    a won game carries the winner's symbol. *)
Definition play_inv (s : state) : Prop :=
  length (board s) = 9%nat ∧
  (finished s = false → ¬ has_line (board s)) ∧
  (finished s = true → ∀ m, winner s = Some (Win m) →
     has_line (board s) ∧
     ∀ ln m', ln ∈ TTT_WIN_LINES → line_holds (board s) ln m' → m' = m).

Definition scores_le (s s' : state) : Prop :=
  score_x s ≤ score_x s' ∧ score_o s ≤ score_o s' ∧ score_draw s ≤ score_draw s'.

(** X has taken 1, 2, 3 and 6 and O has taken 4, 5, 7 and 8; X then
    takes the corner 0. *)
Definition double_line_moves : list Z := [1; 4; 2; 5; 3; 7; 6; 8; 0].

Definition double_line_state : state :=
  {| mode := "versus"; p1_name := "Ana"; p2_name := "Bia";
     board := [Some X; Some X; Some X; Some X; Some O; Some O;
               Some X; Some O; Some O];
     current := X; finished := true; winner := Some (Win X);
     winner_name := "Ana"; message := "Vitória de Ana (X)";
     score_x := 1; score_o := 0; score_draw := 0; show_overlay := true |}.

(** X to move with 0 and 1 taken: the third X on 2 completes the top row. *)
Definition two_in_a_row : state :=
  set_board [Some X; Some X; None; Some O; Some O; None; None; None; None]
    (_new_ttt_state "versus" "Ana" "Bia").

End TicTacToe.

(** ** The session store: an insertion-ordered dictionary *)

Section store.
Context {K V : Type} `{EqDecision K}.

(** [d.get(k)] *)
Fixpoint store_get (k : K) (st : list (K * V)) : option V :=
  match st with
  | [] => None
  | (k', v') :: rest => if decide (k' = k) then Some v' else store_get k rest
  end.

(** [d[k] = v]: an existing key keeps its place, a new key goes last. *)
Fixpoint store_set (k : K) (v : V) (st : list (K * V)) : list (K * V) :=
  match st with
  | [] => [(k, v)]
  | (k', v') :: rest =>
      if decide (k' = k) then (k, v) :: rest else (k', v') :: store_set k v rest
  end.

(** [d.pop(k, None)] *)
Definition store_pop (k : K) (st : list (K * V)) : list (K * V) :=
  filter (λ kv, kv.1 ≠ k) st.

(** The tail shared by the three save functions:
    [if len(GAME_STORE) > 500: GAME_STORE.pop(next(iter(GAME_STORE)), None)]. *)
Definition evict_oldest (st : list (K * V)) : list (K * V) :=
  if bool_decide (500 < Z.of_nat (length st)) then
    match st with
    | (oldest, _) :: _ => store_pop oldest st
    | [] => st
    end
  else st.

(** [GAME_STORE[k] = v] followed by the eviction check. *)
Definition save_entry (k : K) (v : V) (st : list (K * V)) : list (K * V) :=
  evict_oldest (store_set k v st).

(** A run of saves, oldest first. *)
Definition run_saves (ops : list (K * V)) (st : list (K * V)) : list (K * V) :=
  foldl (λ st kv, save_entry kv.1 kv.2 st) st ops.

(** A run of [_start_new_*_state] insertions, which do not evict. *)
Definition run_starts (ops : list (K * V)) (st : list (K * V)) : list (K * V) :=
  foldl (λ st kv, store_set kv.1 kv.2 st) st ops.

(** Position in the history [hist] of the last write to key [k]. *)
Fixpoint last_touch_from (n : nat) (hist : list K) (k : K) (acc : option nat)
    : option nat :=
  match hist with
  | [] => acc
  | k' :: rest =>
      last_touch_from (S n) rest k (if decide (k' = k) then Some n else acc)
  end.

Definition last_touch (hist : list K) (k : K) : option nat :=
  last_touch_from 0 hist k None.
End store.

(** ** Sessions, rooms and the shared stores *)

(** The fields of a quiz record that the room layer reads. *)
Record quiz_state := QuizState {
  quiz_mode : string;
  current_player : Z;
  score_p1 : Z;
  score_p2 : Z
}.

(** A record of [GAME_STORE]: the three kinds share one store. *)
Inductive game :=
| QuizGame (q : quiz_state)
| TttGame (t : TicTacToe.state)
| CkGame (c : Checkers.state).

(** A room entry: [{"<kind>_id": id, "<second>_joined": flag}]. *)
Record room := Room {
  room_game : string;
  joined : bool
}.

Record world := World {
  GAME_STORE : list (string * game);
  ROOM_STORE : gmap string room;
  CHECKERS_ROOM_STORE : gmap string room;
  TTT_ROOM_STORE : gmap string room
}.

(** The client's signed cookie: a missing key is [None]. *)
Record session := Session {
  game_id : option string;
  ttt_id : option string;
  ttt_room_code : option string;
  ttt_room_role : option string;
  checkers_id : option string;
  ck_room_code : option string;
  ck_room_role : option string;
  flashes : list string
}.

Definition set_GAME_STORE (v : list (string * game)) (w : world) : world :=
  World v (ROOM_STORE w) (CHECKERS_ROOM_STORE w) (TTT_ROOM_STORE w).
Definition set_CHECKERS_ROOM_STORE (v : gmap string room) (w : world) : world :=
  World (GAME_STORE w) (ROOM_STORE w) v (TTT_ROOM_STORE w).
Definition set_TTT_ROOM_STORE (v : gmap string room) (w : world) : world :=
  World (GAME_STORE w) (ROOM_STORE w) (CHECKERS_ROOM_STORE w) v.

Definition set_game_id (v : option string) (ss : session) : session :=
  Session v (ttt_id ss) (ttt_room_code ss) (ttt_room_role ss)
    (checkers_id ss) (ck_room_code ss) (ck_room_role ss) (flashes ss).
Definition set_ttt_id (v : option string) (ss : session) : session :=
  Session (game_id ss) v (ttt_room_code ss) (ttt_room_role ss)
    (checkers_id ss) (ck_room_code ss) (ck_room_role ss) (flashes ss).
Definition set_ttt_room_code (v : option string) (ss : session) : session :=
  Session (game_id ss) (ttt_id ss) v (ttt_room_role ss)
    (checkers_id ss) (ck_room_code ss) (ck_room_role ss) (flashes ss).
Definition set_ttt_room_role (v : option string) (ss : session) : session :=
  Session (game_id ss) (ttt_id ss) (ttt_room_code ss) v
    (checkers_id ss) (ck_room_code ss) (ck_room_role ss) (flashes ss).
Definition set_checkers_id (v : option string) (ss : session) : session :=
  Session (game_id ss) (ttt_id ss) (ttt_room_code ss) (ttt_room_role ss)
    v (ck_room_code ss) (ck_room_role ss) (flashes ss).
Definition set_ck_room_code (v : option string) (ss : session) : session :=
  Session (game_id ss) (ttt_id ss) (ttt_room_code ss) (ttt_room_role ss)
    (checkers_id ss) v (ck_room_role ss) (flashes ss).
Definition set_ck_room_role (v : option string) (ss : session) : session :=
  Session (game_id ss) (ttt_id ss) (ttt_room_code ss) (ttt_room_role ss)
    (checkers_id ss) (ck_room_code ss) v (flashes ss).

(** [flash(msg)] *)
Definition flash (msg : string) (ss : session) : session :=
  Session (game_id ss) (ttt_id ss) (ttt_room_code ss) (ttt_room_role ss)
    (checkers_id ss) (ck_room_code ss) (ck_room_role ss) (flashes ss ++ [msg]).

(** Truthiness of [session.get(key)]: a missing key and [""] are both falsy. *)
Definition truthy (o : option string) : option string :=
  match o with
  | Some s => if bool_decide (s = "") then None else Some s
  | None => None
  end.

(** *** Saving and starting *)

(** The id a save function writes under: the session's, else a fresh uuid. *)
Definition save_id (slot : option string) (uuid : string) : string :=
  default uuid (truthy slot).

Definition _save_state (w : world) (ss : session) (uuid : string) (q : quiz_state)
    : world * session :=
  let gid := save_id (game_id ss) uuid in
  (set_GAME_STORE (save_entry gid (QuizGame q) (GAME_STORE w)) w,
   set_game_id (Some gid) ss).

Definition _save_ttt_state (w : world) (ss : session) (uuid : string)
    (t : TicTacToe.state) : world * session :=
  let tid := save_id (ttt_id ss) uuid in
  (set_GAME_STORE (save_entry tid (TttGame t) (GAME_STORE w)) w,
   set_ttt_id (Some tid) ss).

Definition _save_checkers_state (w : world) (ss : session) (uuid : string)
    (c : Checkers.state) : world * session :=
  let cid := save_id (checkers_id ss) uuid in
  (set_GAME_STORE (save_entry cid (CkGame c) (GAME_STORE w)) w,
   set_checkers_id (Some cid) ss).

Definition _start_new_state (w : world) (ss : session) (uuid : string)
    (q : quiz_state) : world * session :=
  (set_GAME_STORE (store_set uuid (QuizGame q) (GAME_STORE w)) w,
   set_game_id (Some uuid) ss).

Definition _start_new_ttt_state (w : world) (ss : session) (uuid : string)
    (t : TicTacToe.state) : world * session :=
  (set_GAME_STORE (store_set uuid (TttGame t) (GAME_STORE w)) w,
   set_ttt_id (Some uuid) ss).

Definition _start_new_checkers_state (w : world) (ss : session) (uuid : string)
    (c : Checkers.state) : world * session :=
  (set_GAME_STORE (store_set uuid (CkGame c) (GAME_STORE w)) w,
   set_checkers_id (Some uuid) ss).

(** *** Room codes *)

(** [string.ascii_uppercase + string.digits] *)
Definition alphabet : list ascii :=
  String.list_ascii_of_string "ABCDEFGHIJKLMNOPQRSTUVWXYZ0123456789".

(** [random.choice(alphabet)] on the raw random value [r]; the alphabet is
    not empty, so the choice never raises. *)
Definition random_choice (r : nat) : ascii :=
  nth (r `mod` length alphabet)%nat alphabet "A"%char.

(** The code drawn at attempt [j], from the random values [rnd (6j) ..
    rnd (6j+5)]: [''.join(random.choice(alphabet) for _ in range(6))]. *)
Definition draw_code (rnd : nat → nat) (j : nat) : string :=
  String.string_of_list_ascii ((λ i, random_choice (rnd (6 * j + i)%nat)) <$> seq 0 6).

Definition code_in_use (w : world) (code : string) : bool :=
  negb (bool_decide (ROOM_STORE w !! code = None)
        && bool_decide (CHECKERS_ROOM_STORE w !! code = None)
        && bool_decide (TTT_ROOM_STORE w !! code = None)).

(** The retry loop, [n] attempts from attempt number [j]. *)
Fixpoint try_codes (w : world) (rnd : nat → nat) (j n : nat) : option string :=
  match n with
  | O => None
  | S n =>
      let code := draw_code rnd j in
      if code_in_use w code then try_codes w rnd (S j) n else Some code
  end.

(** [str.upper] on ASCII text. *)
Definition upper_ascii (c : ascii) : ascii :=
  let n := nat_of_ascii c in
  if bool_decide (97 ≤ n ≤ 122)%nat then ascii_of_nat (n - 32) else c.

Fixpoint upper (s : string) : string :=
  match s with
  | EmptyString => EmptyString
  | String c rest => String (upper_ascii c) (upper rest)
  end.

(** [_new_room_code()]; [rnd] is the stream [random] delivers and [uuid_hex]
    the value of [uuid.uuid4().hex] should the fallback ask for it. *)
Definition _new_room_code (w : world) (rnd : nat → nat) (uuid_hex : string) : string :=
  match try_codes w rnd 0 200 with
  | Some code => code
  | None => upper (String.substring 0 6 uuid_hex)
  end.

(** *** The checkers handlers *)

Definition player_str (p : Checkers.player) : string :=
  match p with Checkers.Blue => "b" | Checkers.Green => "g" end.

Definition _get_checkers_state (w : world) (ss : session) : option game :=
  cid ← truthy (checkers_id ss); store_get cid (GAME_STORE w).

(** Returns the room and the session, which loses its room keys when the
    room is gone. *)
Definition _get_checkers_room (w : world) (ss : session) : option room * session :=
  match truthy (ck_room_code ss) with
  | None => (None, ss)
  | Some code =>
      match CHECKERS_ROOM_STORE w !! code with
      | None => (None, set_ck_room_role None (set_ck_room_code None ss))
      | Some r => (Some r, ss)
      end
  end.

Definition _checkers_room_ready (r : room) : bool := joined r.

Definition _checkers_room_can_play (c : Checkers.state) (r : option room)
    (ss : session) : bool :=
  match r with
  | None => true
  | Some r =>
      if negb (_checkers_room_ready r) then false
      else
        match ck_room_role ss with
        | Some role =>
            if negb (bool_decide (role = "b" ∨ role = "g")) then false
            else bool_decide (player_str (Checkers.turn c) = role)
        | None => false
        end
  end.

(** The record under a session slot is of the slot's kind: ids are fresh
    uuids, one slot per kind.  A record of another kind is outside the
    model and yields [None]. *)
Definition as_checkers (g : game) : option Checkers.state :=
  match g with CkGame c => Some c | _ => None end.

Definition as_ttt (g : game) : option TicTacToe.state :=
  match g with TttGame t => Some t | _ => None end.

(** [POST /checkers/click/<idx>] *)
Definition checkers_click (w : world) (ss : session) (uuid : string) (idx : Z)
    : option (world * session) :=
  match _get_checkers_state w ss with
  | None => Some (w, ss)
  | Some g =>
      c ← as_checkers g;
      let '(r, ss) := _get_checkers_room w ss in
      if bool_decide (r ≠ None) && negb (_checkers_room_can_play c r ss) then
        Some (w, flash "Aguarde seu turno." ss)
      else
        c ← Checkers._ck_click_cell c idx;
        Some (_save_checkers_state w ss uuid c)
  end.

(** The assignments of [checkers_next] to the state record. *)
Definition checkers_next_round (c : Checkers.state) : Checkers.state :=
  let c := Checkers.set_board Checkers._new_checkers_board c in
  let c := Checkers.set_turn Checkers.Blue c in
  let c := Checkers.set_selected None c in
  let c := Checkers.set_forced_from None c in
  let c := Checkers.set_finished false c in
  let c := Checkers.set_winner None c in
  let c := Checkers.set_winner_name "" c in
  let c := Checkers.set_show_overlay false c in
  Checkers.set_message ("Vez de " +:+ Checkers.blue_name c) c.

(** [POST /checkers/next] *)
Definition checkers_next (w : world) (ss : session) (uuid : string)
    : option (world * session) :=
  match _get_checkers_state w ss with
  | None => Some (w, ss)
  | Some g =>
      c ← as_checkers g;
      let '(r, ss) := _get_checkers_room w ss in
      if bool_decide (r ≠ None) && bool_decide (ck_room_role ss ≠ Some "b") then
        Some (w, flash "Apenas o Time Azul pode iniciar a próxima rodada na sala." ss)
      else Some (_save_checkers_state w ss uuid (checkers_next_round c))
  end.

(** [POST /checkers/overlay-dismiss] *)
Definition checkers_overlay_dismiss (w : world) (ss : session) (uuid : string)
    : option (world * session) :=
  match _get_checkers_state w ss with
  | None => Some (w, ss)
  | Some g =>
      c ← as_checkers g;
      Some (_save_checkers_state w ss uuid (Checkers.set_show_overlay false c))
  end.

(** [POST /checkers/room/join]; [code] and [name] are the form fields
    after [strip()] (and [upper()] for the code). *)
Definition checkers_room_join (w : world) (ss : session) (code name : string)
    : option (world * session) :=
  let green_name := if bool_decide (name = "") then "Time Verde" else name in
  if bool_decide (code = "") then
    Some (w, flash "Informe o código da sala de damas." ss)
  else
    match CHECKERS_ROOM_STORE w !! code with
    | None => Some (w, flash "Sala de damas não encontrada." ss)
    | Some r =>
        let cid := room_game r in
        match (if bool_decide (cid = "") then None else store_get cid (GAME_STORE w)) with
        | None =>
            Some (set_CHECKERS_ROOM_STORE (delete code (CHECKERS_ROOM_STORE w)) w,
                  flash "Sala expirada. Crie uma nova sala." ss)
        | Some g =>
            c ← as_checkers g;
            let c := Checkers.set_green_name green_name c in
            let c := Checkers.set_message
                       ("Partida iniciada. Vez de " +:+ Checkers._ck_current_name c) c in
            let w := set_GAME_STORE (store_set cid (CkGame c) (GAME_STORE w)) w in
            let ss := set_checkers_id (Some cid) ss in
            let ss := set_ck_room_code (Some code) ss in
            let ss := set_ck_room_role (Some "g") ss in
            let w := set_CHECKERS_ROOM_STORE
                       (<[code := Room (room_game r) true]> (CHECKERS_ROOM_STORE w)) w in
            Some (w, flash ("Você entrou na sala " +:+ code +:+ " como Time Verde.") ss)
        end
    end.

(** *** The tic-tac-toe handlers *)

Definition _get_ttt_state (w : world) (ss : session) : option game :=
  tid ← truthy (ttt_id ss); store_get tid (GAME_STORE w).

Definition _get_ttt_room (w : world) (ss : session) : option room * session :=
  match truthy (ttt_room_code ss) with
  | None => (None, ss)
  | Some code =>
      match TTT_ROOM_STORE w !! code with
      | None => (None, set_ttt_room_role None (set_ttt_room_code None ss))
      | Some r => (Some r, ss)
      end
  end.

Definition _ttt_room_ready (r : room) : bool := joined r.

Definition _ttt_room_can_play (t : TicTacToe.state) (r : option room)
    (ss : session) : bool :=
  match r with
  | None => true
  | Some r =>
      if negb (_ttt_room_ready r) then false
      else
        match ttt_room_role ss with
        | Some role =>
            if negb (bool_decide (role = "X" ∨ role = "O")) then false
            else bool_decide (TicTacToe.mark_str (TicTacToe.current t) = role)
        | None => false
        end
  end.

(** [POST /tictactoe/move/<pos>]; [k] feeds the computer's [random.choice]. *)
Definition tictactoe_move (w : world) (ss : session) (uuid : string) (pos : Z)
    (k : nat) : option (world * session) :=
  match _get_ttt_state w ss with
  | None => Some (w, ss)
  | Some g =>
      t ← as_ttt g;
      let '(r, ss) := _get_ttt_room w ss in
      if bool_decide (r ≠ None) && negb (_ttt_room_can_play t r ss) then
        Some (w, flash "Aguarde seu turno." ss)
      else
        t ← TicTacToe._ttt_do_move t pos;
        t ← (if bool_decide (r = None) then TicTacToe._ttt_bot_turn t k else Some t);
        Some (_save_ttt_state w ss uuid t)
  end.

(** The assignments of [tictactoe_next] to the state record. *)
Definition tictactoe_next_round (t : TicTacToe.state) : TicTacToe.state :=
  let t := TicTacToe.set_board (replicate 9 None) t in
  let t := TicTacToe.set_current TicTacToe.X t in
  let t := TicTacToe.set_finished false t in
  let t := TicTacToe.set_winner None t in
  let t := TicTacToe.set_winner_name "" t in
  let t := TicTacToe.set_show_overlay false t in
  TicTacToe.set_message ("Vez de " +:+ TicTacToe.p1_name t +:+ " (X)") t.

(** [POST /tictactoe/next] *)
Definition tictactoe_next (w : world) (ss : session) (uuid : string)
    : option (world * session) :=
  match _get_ttt_state w ss with
  | None => Some (w, ss)
  | Some g =>
      t ← as_ttt g;
      let '(r, ss) := _get_ttt_room w ss in
      if bool_decide (r ≠ None) && bool_decide (ttt_room_role ss ≠ Some "X") then
        Some (w, flash "Apenas o Jogador X pode iniciar a próxima rodada." ss)
      else Some (_save_ttt_state w ss uuid (tictactoe_next_round t))
  end.

(** [POST /tictactoe/overlay-dismiss] *)
Definition tictactoe_overlay_dismiss (w : world) (ss : session) (uuid : string)
    : option (world * session) :=
  match _get_ttt_state w ss with
  | None => Some (w, ss)
  | Some g =>
      t ← as_ttt g;
      Some (_save_ttt_state w ss uuid (TicTacToe.set_show_overlay false t))
  end.

(** [POST /tictactoe/room/join] *)
Definition tictactoe_room_join (w : world) (ss : session) (code name : string)
    : option (world * session) :=
  let p2_name := if bool_decide (name = "") then "Jogador O" else name in
  if bool_decide (code = "") then
    Some (w, flash "Informe o código da sala." ss)
  else
    match TTT_ROOM_STORE w !! code with
    | None => Some (w, flash "Sala não encontrada." ss)
    | Some r =>
        let tid := room_game r in
        match (if bool_decide (tid = "") then None else store_get tid (GAME_STORE w)) with
        | None =>
            Some (set_TTT_ROOM_STORE (delete code (TTT_ROOM_STORE w)) w,
                  flash "Sala expirada. Crie outra sala." ss)
        | Some g =>
            t ← as_ttt g;
            let t := TicTacToe.set_mode "versus" t in
            let t := TicTacToe.set_p2_name p2_name t in
            let t := TicTacToe.set_message
                       ("Vez de " +:+ TicTacToe.p1_name t +:+ " (X)") t in
            let w := set_GAME_STORE (store_set tid (TttGame t) (GAME_STORE w)) w in
            let ss := set_ttt_id (Some tid) ss in
            let ss := set_ttt_room_code (Some code) ss in
            let ss := set_ttt_room_role (Some "O") ss in
            let w := set_TTT_ROOM_STORE
                       (<[code := Room (room_game r) true]> (TTT_ROOM_STORE w)) w in
            Some (w, flash ("Você entrou na sala " +:+ code +:+ " como Jogador O.") ss)
        end
    end.

(** The operations that act on a running match without discarding it. *)
Inductive request :=
| CkClick (idx : Z)
| CkNext
| CkOverlayDismiss
| CkRoomJoin (code name : string)
| TttMove (pos : Z) (k : nat)
| TttNext
| TttOverlayDismiss
| TttRoomJoin (code name : string).

Definition handle (w : world) (ss : session) (uuid : string) (rq : request)
    : option (world * session) :=
  match rq with
  | CkClick idx => checkers_click w ss uuid idx
  | CkNext => checkers_next w ss uuid
  | CkOverlayDismiss => checkers_overlay_dismiss w ss uuid
  | CkRoomJoin code name => checkers_room_join w ss code name
  | TttMove pos k => tictactoe_move w ss uuid pos k
  | TttNext => tictactoe_next w ss uuid
  | TttOverlayDismiss => tictactoe_overlay_dismiss w ss uuid
  | TttRoomJoin code name => tictactoe_room_join w ss code name
  end.

(** ** Notions used to state the properties of the session layer *)

(** The score fields of [g'] are at least those of [g], a record of the
    same kind. *)
Definition scores_le (g g' : game) : Prop :=
  match g, g' with
  | TttGame a, TttGame b => TicTacToe.scores_le a b
  | CkGame a, CkGame b => Checkers.scores_le a b
  | QuizGame a, QuizGame b => True
  | _, _ => False
  end.

(** The records found after a request were there before, with scores no
    higher than now. *)
Definition scores_kept (w w' : world) : Prop :=
  ∀ k g', store_get k (GAME_STORE w') = Some g' →
    ∃ g, store_get k (GAME_STORE w) = Some g ∧ scores_le g g'.

(** Session ids for the examples: 32 hexadecimal digits in the layout of
    [uuid.uuid4().hex], the counter [n] in the leading digits. *)
Definition hex_digit (n : nat) : ascii :=
  nth n (String.list_ascii_of_string "0123456789abcdef") "0"%char.

Fixpoint hex_of (digits n : nat) : string :=
  match digits with
  | O => ""
  | S d => String (hex_digit (n `mod` 16)%nat) (hex_of d (n / 16)%nat)
  end.

Definition uuid_hex_of (n : nat) : string :=
  hex_of 12 n +:+ "40008000000000000000".

(** A fresh checkers record, the value stored in the example runs. *)
Definition fresh_game : game := CkGame (Checkers._new_checkers_state "" "").

(** Sessions 0..499 are saved in turn, then session 0 saves again. *)
Definition touch_history : list string :=
  (uuid_hex_of <$> seq 0 500) ++ [uuid_hex_of 0].

(** A store at the ceiling: sessions 0..499, in the order they were saved. *)
Definition full_store : list (string * game) :=
  (λ n, (uuid_hex_of n, fresh_game)) <$> seq 0 500.

(** 502 sessions are started, none of them saved yet. *)
Definition overfull_store : list (string * game) :=
  run_starts ((λ n, (uuid_hex_of n, fresh_game)) <$> seq 0 502) [].

(** Two quiz rooms are open; one of them has the code [ABCDEF]. *)
Definition colliding_world : world :=
  World [] {[ "AAAAAA" := Room (uuid_hex_of 1) false;
              "ABCDEF" := Room (uuid_hex_of 2) true ]} ∅ ∅.

(** A paired checkers match in which it is blue's ply, and the cookie of
    the green player. *)
Definition paired_world : world :=
  World [(uuid_hex_of 7, CkGame Checkers.chain_position)]
        ∅ {[ "K3Y9QZ" := Room (uuid_hex_of 7) true ]} ∅.

Definition green_session : session :=
  Session None None None None (Some (uuid_hex_of 7)) (Some "K3Y9QZ") (Some "g") [].

Definition blue_session : session :=
  Session None None None None (Some (uuid_hex_of 7)) (Some "K3Y9QZ") (Some "b") [].

(** ** Notions and handlers for the further properties *)

(** ** Notions used to state further properties of the engines *)

Section engine_notions.
Import Checkers.

(** The playable squares: [(r + c) % 2 == 1]. *)
Definition dark (i : Z) : Prop := (i `div` 8 + i `mod` 8) `mod` 2 = 1.

(** The number of pieces of side [pl] on the board. *)
Definition count_owned (pl : player) (b : list piece) : nat :=
  length (filter (λ p, _ck_piece_owner p = Some pl) b).

(** What holds of every checkers record the handlers produce: a 64-cell
    board with pieces on dark squares only, in-range selection and chain
    cell and, while the game is open, a chain cell that holds a piece of
    the side to move with a capture available. *)
Definition ck_inv (s : state) : Prop :=
  length (board s) = 64%nat ∧
  (∀ i p, 0 ≤ i → py_get (board s) i = Some p → p ≠ Empty → dark i) ∧
  (∀ sel, selected s = Some sel → 0 ≤ sel < 64) ∧
  (∀ f, forced_from s = Some f → 0 ≤ f < 64) ∧
  (finished s = false → ∀ f, forced_from s = Some f →
     ∃ p c cs, py_get (board s) f = Some p ∧
       _ck_piece_owner p = Some (turn s) ∧
       captures (board s) f = Some (c :: cs)).
End engine_notions.

(** The checkers records the handlers can produce from a new one. *)
Inductive ck_reachable : Checkers.state → Prop :=
| ck_reach_new bn gn : ck_reachable (Checkers._new_checkers_state bn gn)
| ck_reach_click s idx s' :
    ck_reachable s → Checkers._ck_click_cell s idx = Some s' → ck_reachable s'
| ck_reach_next s : ck_reachable s → ck_reachable (checkers_next_round s)
| ck_reach_dismiss s :
    ck_reachable s → ck_reachable (Checkers.set_show_overlay false s)
| ck_reach_join s gn msg :
    ck_reachable s →
    ck_reachable (Checkers.set_message msg (Checkers.set_green_name gn s)).

(** A run of clicks. *)
Fixpoint ck_play (s : Checkers.state) (clicks : list Z) : option Checkers.state :=
  match clicks with
  | [] => Some s
  | idx :: rest => s ← Checkers._ck_click_cell s idx; ck_play s rest
  end.

Section ttt_notions.
Import TicTacToe.

(** The number of cells marked [m]. *)
Definition count_mark (m : mark) (b : list (option mark)) : nat :=
  length (filter (λ c, c = Some m) b).

(** Whose turn it is can be read off the board: X has placed as many
    symbols as O, or one more, and in an open game it is X's turn exactly
    when the counts are equal. *)
Definition turn_inv (s : state) : Prop :=
  length (board s) = 9%nat ∧
  (count_mark X (board s) = count_mark O (board s) ∨
   count_mark X (board s) = S (count_mark O (board s))) ∧
  (finished s = false →
     (current s = X ↔ count_mark X (board s) = count_mark O (board s))).

(** The verdict fields agree with the board. *)
Definition verdict_inv (s : state) : Prop :=
  length (board s) = 9%nat ∧
  (finished s = false →
     winner s = None ∧ ¬ has_line (board s) ∧ ¬ full (board s)) ∧
  (finished s = true →
     (∃ m, winner s = Some (Win m) ∧ has_line (board s)) ∨
     (winner s = Some Draw ∧ full (board s) ∧ ¬ has_line (board s))).
End ttt_notions.

(** The tic-tac-toe records the handlers can produce from a new one: by
    a move (the computer's reply is a move too), by starting the next
    round, by dismissing the overlay and by a join. *)
Inductive ttt_reachable : TicTacToe.state → Prop :=
| ttt_reach_new md p1 p2 : ttt_reachable (TicTacToe._new_ttt_state md p1 p2)
| ttt_reach_move s pos s' :
    ttt_reachable s → TicTacToe._ttt_do_move s pos = Some s' → ttt_reachable s'
| ttt_reach_next s : ttt_reachable s → ttt_reachable (tictactoe_next_round s)
| ttt_reach_dismiss s :
    ttt_reachable s → ttt_reachable (TicTacToe.set_show_overlay false s)
| ttt_reach_join s p2 msg :
    ttt_reachable s →
    ttt_reachable (TicTacToe.set_message msg
                     (TicTacToe.set_p2_name p2 (TicTacToe.set_mode "versus" s))).

(** ** Opening, leaving and discarding a match *)

(** [POST /checkers/start]; the names are the form fields after [strip()]. *)
Definition checkers_start (w : world) (ss : session) (uuid : string)
    (blue green : string) : world * session :=
  let ss := set_ck_room_role None (set_ck_room_code None ss) in
  let blue_name := if bool_decide (blue = "") then "Time Azul" else blue in
  let green_name := if bool_decide (green = "") then "Time Verde" else green in
  _start_new_checkers_state w ss uuid
    (Checkers._new_checkers_state blue_name green_name).

(** [POST /checkers/room/create]; [uuid] is the id drawn for the record,
    [rnd] and [uuid_hex] feed [_new_room_code]. *)
Definition checkers_room_create (w : world) (ss : session) (uuid : string)
    (rnd : nat → nat) (uuid_hex : string) (blue green : string)
    : world * session :=
  let host_name := if bool_decide (blue = "") then "Time Azul" else blue in
  let green_name := if bool_decide (green = "") then "Time Verde" else green in
  let '(w, ss) := _start_new_checkers_state w ss uuid
                    (Checkers._new_checkers_state host_name green_name) in
  let cid := default "" (checkers_id ss) in
  let code := _new_room_code w rnd uuid_hex in
  let w := set_CHECKERS_ROOM_STORE
             (<[code := Room cid false]> (CHECKERS_ROOM_STORE w)) w in
  let ss := set_ck_room_role (Some "b") (set_ck_room_code (Some code) ss) in
  (w, flash ("Sala de damas criada: " +:+ code
             +:+ ". Compartilhe com o Time Verde.") ss).

(** [POST /checkers/room/leave] *)
Definition checkers_room_leave (w : world) (ss : session) : world * session :=
  let w :=
    match truthy (ck_room_code ss) with
    | None => w
    | Some code =>
        match CHECKERS_ROOM_STORE w !! code with
        | None => w
        | Some r =>
            if bool_decide (ck_room_role ss = Some "b") then
              let w := set_CHECKERS_ROOM_STORE
                         (delete code (CHECKERS_ROOM_STORE w)) w in
              if bool_decide (room_game r = "") then w
              else set_GAME_STORE (store_pop (room_game r) (GAME_STORE w)) w
            else if bool_decide (ck_room_role ss = Some "g") then
              set_CHECKERS_ROOM_STORE
                (<[code := Room (room_game r) false]> (CHECKERS_ROOM_STORE w)) w
            else w
        end
    end in
  (w, flash "Você saiu da sala de damas."
        (set_checkers_id None (set_ck_room_role None (set_ck_room_code None ss)))).

(** [POST /checkers/reset] *)
Definition checkers_reset (w : world) (ss : session) : world * session :=
  let ss := set_ck_room_role None (set_ck_room_code None ss) in
  let w := match truthy (checkers_id ss) with
           | Some cid => set_GAME_STORE (store_pop cid (GAME_STORE w)) w
           | None => w
           end in
  (w, set_checkers_id None ss).

(** [POST /tictactoe/start] *)
Definition tictactoe_start (w : world) (ss : session) (uuid : string)
    (md p1 p2 : string) : world * session :=
  let ss := set_ttt_room_role None (set_ttt_room_code None ss) in
  let md := if bool_decide (md = "solo" ∨ md = "versus") then md else "solo" in
  let p1_name := if bool_decide (p1 = "") then "Jogador 1" else p1 in
  let default_p2 := if bool_decide (md = "solo") then "Computador" else "Jogador 2" in
  let p2_name := if bool_decide (p2 = "") then default_p2 else p2 in
  _start_new_ttt_state w ss uuid (TicTacToe._new_ttt_state md p1_name p2_name).

(** [POST /tictactoe/room/create] *)
Definition tictactoe_room_create (w : world) (ss : session) (uuid : string)
    (rnd : nat → nat) (uuid_hex : string) (p1 p2 : string)
    : world * session :=
  let p1_name := if bool_decide (p1 = "") then "Jogador X" else p1 in
  let p2_name := if bool_decide (p2 = "") then "Aguardando Jogador O" else p2 in
  let '(w, ss) := _start_new_ttt_state w ss uuid
                    (TicTacToe._new_ttt_state "versus" p1_name p2_name) in
  let tid := default "" (ttt_id ss) in
  let code := _new_room_code w rnd uuid_hex in
  let w := set_TTT_ROOM_STORE (<[code := Room tid false]> (TTT_ROOM_STORE w)) w in
  let ss := set_ttt_room_role (Some "X") (set_ttt_room_code (Some code) ss) in
  (w, flash ("Sala criada: " +:+ code +:+ ". Compartilhe com o Jogador O.") ss).

(** [POST /tictactoe/room/leave] *)
Definition tictactoe_room_leave (w : world) (ss : session) : world * session :=
  let w :=
    match truthy (ttt_room_code ss) with
    | None => w
    | Some code =>
        match TTT_ROOM_STORE w !! code with
        | None => w
        | Some r =>
            if bool_decide (ttt_room_role ss = Some "X") then
              let w := set_TTT_ROOM_STORE (delete code (TTT_ROOM_STORE w)) w in
              if bool_decide (room_game r = "") then w
              else set_GAME_STORE (store_pop (room_game r) (GAME_STORE w)) w
            else if bool_decide (ttt_room_role ss = Some "O") then
              set_TTT_ROOM_STORE
                (<[code := Room (room_game r) false]> (TTT_ROOM_STORE w)) w
            else w
        end
    end in
  (w, flash "Você saiu da sala."
        (set_ttt_id None (set_ttt_room_role None (set_ttt_room_code None ss)))).

(** [POST /tictactoe/reset] *)
Definition tictactoe_reset (w : world) (ss : session) : world * session :=
  let ss := set_ttt_room_role None (set_ttt_room_code None ss) in
  let w := match truthy (ttt_id ss) with
           | Some tid => set_GAME_STORE (store_pop tid (GAME_STORE w)) w
           | None => w
           end in
  (w, set_ttt_id None ss).

(** [_checkers_cell_order(role)]: the order in which the page lists the
    cells. *)
Definition _checkers_cell_order (role : string) : list Z :=
  if bool_decide (role = "g") then (λ k, 63 - k) <$> seqZ 0 64
  else seqZ 0 64.
(** A paired tic-tac-toe match in which it is X's turn, and the cookies
    of the two players. *)
Definition paired_ttt_world : world :=
  World [(uuid_hex_of 8, TttGame TicTacToe.two_in_a_row)]
        ∅ ∅ {[ "T1C2T3" := Room (uuid_hex_of 8) true ]}.

Definition x_session : session :=
  Session None (Some (uuid_hex_of 8)) (Some "T1C2T3") (Some "X") None None None [].

Definition o_session : session :=
  Session None (Some (uuid_hex_of 8)) (Some "T1C2T3") (Some "O") None None None [].

(** A visitor without any cookie. *)
Definition no_session : session :=
  Session None None None None None None None [].

(** A room whose record has been discarded. *)
Definition stale_room_world : world :=
  World [] ∅ {[ "K3Y9QZ" := Room (uuid_hex_of 7) true ]} ∅.

(** A room still waiting for the green side, and the cookie of its host. *)
Definition waiting_world : world :=
  World [(uuid_hex_of 7, CkGame (Checkers._new_checkers_state "Ana" "Time Verde"))]
        ∅ {[ "K3Y9QZ" := Room (uuid_hex_of 7) false ]} ∅.

(** ** The quiz engine *)

Module Quiz.

(** The keys of [state["config"]] that the engine reads. *)
Record config := Config {
  mode : string;
  quiz_type : string;
  player1_name : string;
  player2_name : string;
  points_per_hit : Z;
  max_attempts : Z
}.

(** An entry of [state["results"]]. *)
Record result := Result {
  round_no : Z;
  player : string;
  code : string;
  country : string;
  capital : string;
  question_type : string;
  selected : string;
  correct_answer : string;
  correct : bool
}.

Record state := State {
  st_config : config;
  order : list string;
  round_index : Z;
  attempts_left : Z;
  current_player : Z;
  score_p1 : Z;
  score_p2 : Z;
  results : list result;
  feedback : string;
  options : list string;
  options_for_code : option string;
  show_correct_overlay : bool;
  overlay_effect : option string
}.

Definition set_mode (v : string) (c : config) : config :=
  Config v (quiz_type c) (player1_name c) (player2_name c)
    (points_per_hit c) (max_attempts c).
Definition set_player2_name (v : string) (c : config) : config :=
  Config (mode c) (quiz_type c) (player1_name c) v
    (points_per_hit c) (max_attempts c).

Definition set_st_config (v : config) (s : state) : state :=
  State v (order s) (round_index s) (attempts_left s) (current_player s)
    (score_p1 s) (score_p2 s) (results s) (feedback s) (options s)
    (options_for_code s) (show_correct_overlay s) (overlay_effect s).
Definition set_round_index (v : Z) (s : state) : state :=
  State (st_config s) (order s) v (attempts_left s) (current_player s)
    (score_p1 s) (score_p2 s) (results s) (feedback s) (options s)
    (options_for_code s) (show_correct_overlay s) (overlay_effect s).
Definition set_attempts_left (v : Z) (s : state) : state :=
  State (st_config s) (order s) (round_index s) v (current_player s)
    (score_p1 s) (score_p2 s) (results s) (feedback s) (options s)
    (options_for_code s) (show_correct_overlay s) (overlay_effect s).
Definition set_current_player (v : Z) (s : state) : state :=
  State (st_config s) (order s) (round_index s) (attempts_left s) v
    (score_p1 s) (score_p2 s) (results s) (feedback s) (options s)
    (options_for_code s) (show_correct_overlay s) (overlay_effect s).
Definition set_score_p1 (v : Z) (s : state) : state :=
  State (st_config s) (order s) (round_index s) (attempts_left s) (current_player s)
    v (score_p2 s) (results s) (feedback s) (options s)
    (options_for_code s) (show_correct_overlay s) (overlay_effect s).
Definition set_score_p2 (v : Z) (s : state) : state :=
  State (st_config s) (order s) (round_index s) (attempts_left s) (current_player s)
    (score_p1 s) v (results s) (feedback s) (options s)
    (options_for_code s) (show_correct_overlay s) (overlay_effect s).
Definition set_results (v : list result) (s : state) : state :=
  State (st_config s) (order s) (round_index s) (attempts_left s) (current_player s)
    (score_p1 s) (score_p2 s) v (feedback s) (options s)
    (options_for_code s) (show_correct_overlay s) (overlay_effect s).
Definition set_feedback (v : string) (s : state) : state :=
  State (st_config s) (order s) (round_index s) (attempts_left s) (current_player s)
    (score_p1 s) (score_p2 s) (results s) v (options s)
    (options_for_code s) (show_correct_overlay s) (overlay_effect s).
Definition set_options (v : list string) (s : state) : state :=
  State (st_config s) (order s) (round_index s) (attempts_left s) (current_player s)
    (score_p1 s) (score_p2 s) (results s) (feedback s) v
    (options_for_code s) (show_correct_overlay s) (overlay_effect s).
Definition set_options_for_code (v : option string) (s : state) : state :=
  State (st_config s) (order s) (round_index s) (attempts_left s) (current_player s)
    (score_p1 s) (score_p2 s) (results s) (feedback s) (options s)
    v (show_correct_overlay s) (overlay_effect s).
Definition set_show_correct_overlay (v : bool) (s : state) : state :=
  State (st_config s) (order s) (round_index s) (attempts_left s) (current_player s)
    (score_p1 s) (score_p2 s) (results s) (feedback s) (options s)
    (options_for_code s) v (overlay_effect s).
Definition set_overlay_effect (v : option string) (s : state) : state :=
  State (st_config s) (order s) (round_index s) (attempts_left s) (current_player s)
    (score_p1 s) (score_p2 s) (results s) (feedback s) (options s)
    (options_for_code s) (show_correct_overlay s) v.

(** [_new_state(config)]; [sample] is what [random.sample(pool, rounds)]
    delivered. *)
Definition _new_state (c : config) (sample : list string) : state :=
  {| st_config := c; order := sample; round_index := 0;
     attempts_left := max_attempts c; current_player := 1;
     score_p1 := 0; score_p2 := 0; results := [];
     feedback := "Escolha a alternativa correta.";
     options := []; options_for_code := None;
     show_correct_overlay := false; overlay_effect := None |}.

(** [_current_code(state)]: the outer [None] is an [IndexError], the inner
    one the value [None] of a quiz that is over. *)
Definition _current_code (s : state) : option (option string) :=
  let idx := round_index s in
  if bool_decide (Z.of_nat (length (order s)) ≤ idx) then Some None
  else c ← py_get (order s) idx; Some (Some c).

Definition _player_label (s : state) : string :=
  if bool_decide (mode (st_config s) = "versus") then
    if bool_decide (current_player s = 1) then player1_name (st_config s)
    else player2_name (st_config s)
  else "Solo".

Definition _advance_turn (s : state) : state :=
  let s := set_round_index (round_index s + 1) s in
  let s := set_attempts_left (max_attempts (st_config s)) s in
  let s := set_options [] s in
  let s := set_options_for_code None s in
  if bool_decide (mode (st_config s) = "versus") then
    set_current_player (if bool_decide (current_player s = 1) then 2 else 1) s
  else s.

(** [_ensure_options(state)]; [built] is what [_build_options] returned
    after its shuffles. *)
Definition _ensure_options (s : state) (built : list string) : option state :=
  cur ← _current_code s;
  match cur with
  | None => Some s
  | Some code =>
      if bool_decide (options_for_code s ≠ Some code) then
        Some (set_options_for_code (Some code) (set_options built s))
      else Some s
  end.

(** The record [round_view] saves: the options are in place and the
    overlay is cleared.  With the quiz over it redirects and saves
    nothing. *)
Definition round_view (s : state) (built : list string) : option state :=
  cur ← _current_code s;
  match cur with
  | None => Some s
  | Some _ =>
      s ← _ensure_options s built;
      Some (set_overlay_effect None (set_show_correct_overlay false s))
  end.

(** What [room_join] writes into the record of the room. *)
Definition room_join (s : state) (p2_name : string) : state :=
  set_st_config (set_player2_name p2_name (set_mode "versus" (st_config s))) s.

Section repository.
(** [repo.countries] and [repo.capitals]: code to names, the primary name
    first. *)
Variables countries capitals : gmap string (list string).

(** [repo.country_name(code)] and [repo.capital_name(code)]; [None] is the
    [KeyError] (or [IndexError]) of the lookup. *)
Definition country_name (code : string) : option string :=
  names ← countries !! code; head names.

Definition capital_name (code : string) : option string :=
  names ← capitals !! code; head names.

Definition _label_for_code (quiz_type code : string) : option string :=
  if bool_decide (quiz_type = "country_capital") then capital_name code
  else country_name code.

Definition _correct_answer_label (quiz_type code : string) : option string :=
  _label_for_code quiz_type code.

(** The dict appended to [state["results"]]. *)
Definition result_entry (s : state) (code selected_label correct_label : string)
    (correct : bool) : option result :=
  country ← country_name code;
  capital ← (if bool_decide (is_Some (capitals !! code)) then capital_name code
             else Some "-");
  Some {| round_no := round_index s + 1; player := _player_label s; code := code;
          country := country; capital := capital;
          question_type := quiz_type (st_config s); selected := selected_label;
          correct_answer := correct_label; correct := correct |}.

(** [_register_answer(state, selected_code, selected_label, forced_wrong)];
    [None] stands for an exception raised on the way. *)
Definition _register_answer (s : state) (selected_code : option string)
    (selected_label : string) (forced_wrong : bool) : option state :=
  cur ← _current_code s;
  match cur with
  | None => Some s
  | Some code =>
      let quiz_type := quiz_type (st_config s) in
      let acting_player := _player_label s in
      let correct := bool_decide (selected_code = Some code) in
      correct_label ← _correct_answer_label quiz_type code;
      if correct then
        let s :=
          if bool_decide (mode (st_config s) = "versus") then
            if bool_decide (current_player s = 1) then
              set_score_p1 (score_p1 s + points_per_hit (st_config s)) s
            else set_score_p2 (score_p2 s + points_per_hit (st_config s)) s
          else set_score_p1 (score_p1 s + points_per_hit (st_config s)) s in
        r ← result_entry s code selected_label correct_label true;
        let s := set_results (results s ++ [r]) s in
        let s := set_feedback (acting_player +:+ " acertou!") s in
        let s := set_show_correct_overlay true s in
        let s := set_overlay_effect (Some "correct") s in
        Some (_advance_turn s)
      else
        let s := set_show_correct_overlay false s in
        let s := set_overlay_effect (Some "wrong") s in
        let s := set_attempts_left (attempts_left s - 1) s in
        if bool_decide (0 < attempts_left s) && negb forced_wrong then
          Some (set_feedback
                  (acting_player +:+ " errou. Tentativas restantes: "
                   +:+ pretty (attempts_left s)) s)
        else
          r ← result_entry s code selected_label correct_label false;
          let s := set_results (results s ++ [r]) s in
          let s :=
            if bool_decide (selected_label = "<pulou>") then
              set_feedback (acting_player +:+ " pulou. Resposta correta: "
                            +:+ correct_label) s
            else
              set_feedback (acting_player +:+ " errou. Resposta correta: "
                            +:+ correct_label) s in
          Some (_advance_turn s)
  end.

(** What [answer] and [skip] pass to [_register_answer]: a chosen code
    with its label, or a skip. *)
Inductive input :=
| Answer (selected_code : string) (selected_label : string)
| Skip.

Definition register (s : state) (i : input) : option state :=
  match i with
  | Answer c l => _register_answer s (Some c) l false
  | Skip => _register_answer s None "<pulou>" true
  end.

(** The records a quiz goes through: fresh from [_new_state], then
    changed by [answer] and [skip] through [_register_answer], by
    [round_view], and by [room_join], which finds the record through a
    room and so finds a versus quiz ([room_create] makes no other).
    [_get_state] hands each record to [_upgrade_state] first, which only
    fills in missing keys and replaces an unknown quiz type; a record made
    by the handlers has all keys and a known quiz type. *)
Inductive reachable (c : config) (sample : list string) : state → Prop :=
| reach_new : reachable c sample (_new_state c sample)
| reach_register s i s' :
    reachable c sample s → register s i = Some s' → reachable c sample s'
| reach_view s built s' :
    reachable c sample s → round_view s built = Some s' → reachable c sample s'
| reach_join s p2_name :
    reachable c sample s → mode (st_config s) = "versus" →
    reachable c sample (room_join s p2_name).

Fixpoint run (s : state) (l : list input) : option state :=
  match l with
  | [] => Some s
  | i :: l => s ← register s i; run s l
  end.

(** Every code of the sample has a name in the tables the quiz type
    reads. *)
Definition known (quiz_type : string) (code : string) : Prop :=
  is_Some (country_name code) ∧
  (is_Some (capitals !! code) → is_Some (capital_name code)) ∧
  (quiz_type = "country_capital" → is_Some (capitals !! code)).

End repository.

(** [_room_ready(room)] and [_room_can_play(state, room)] of the quiz
    rooms; [role] is [session.get("room_role")]. *)
Definition _room_ready (r : room) : bool := joined r.

Definition _room_can_play (s : state) (r : option room) (role : option string) : bool :=
  match r with
  | None => true
  | Some r =>
      if negb (_room_ready r) then false
      else if negb (bool_decide (role = Some "p1" ∨ role = Some "p2")) then false
      else if bool_decide (mode (st_config s) ≠ "versus") then false
      else if bool_decide (role = Some "p1") then bool_decide (current_player s = 1)
      else bool_decide (current_player s = 2)
  end.

(** The points a registered answer adds for player one and for player
    two; [hit] tells whether the answer was the right one. *)
Definition gain1 (s : state) (hit : bool) : Z :=
  if hit && (negb (bool_decide (mode (st_config s) = "versus"))
             || bool_decide (current_player s = 1))
  then points_per_hit (st_config s) else 0.

Definition gain2 (s : state) (hit : bool) : Z :=
  if hit && bool_decide (mode (st_config s) = "versus")
         && negb (bool_decide (current_player s = 1))
  then points_per_hit (st_config s) else 0.

(** The number of hits among the results. *)
Definition hits (rs : list result) : Z :=
  Z.of_nat (length (filter (λ r, correct r = true) rs)).

(** The configuration [c'] is [c], but for the name of player two. *)
Definition same_rules (c c' : config) : Prop :=
  mode c' = mode c ∧ quiz_type c' = quiz_type c ∧
  player1_name c' = player1_name c ∧
  points_per_hit c' = points_per_hit c ∧ max_attempts c' = max_attempts c.

(** What the records of a quiz with configuration [c] over the sample
    [sample] keep. *)
Definition inv (c : config) (sample : list string) (s : state) : Prop :=
  same_rules c (st_config s) ∧ order s = sample ∧
  0 ≤ round_index s ≤ Z.of_nat (length sample) ∧
  Z.of_nat (length (results s)) = round_index s ∧
  (∀ i r, results s !! i = Some r →
          round_no r = Z.of_nat i + 1 ∧ sample !! i = Some (code r)) ∧
  score_p1 s + score_p2 s = points_per_hit c * hits (results s) ∧
  current_player s
  = (if bool_decide (mode c = "versus")
     then if Z.even (round_index s) then 1 else 2 else 1) ∧
  (mode c ≠ "versus" → score_p2 s = 0) ∧
  (1 ≤ max_attempts c → 1 ≤ attempts_left s ≤ max_attempts c).

(** A two-player quiz over three countries. *)
Definition example_countries : gmap string (list string) :=
  {[ "br" := ["Brasil"]; "pt" := ["Portugal"]; "jp" := ["Japão"; "Nippon"] ]}.

Definition example_capitals : gmap string (list string) :=
  {[ "br" := ["Brasília"]; "pt" := ["Lisboa"] ]}.

Definition example_config : config :=
  {| mode := "versus"; quiz_type := "flag_country";
     player1_name := "Ana"; player2_name := "Bia";
     points_per_hit := 10; max_attempts := 2 |}.

Definition example_order : list string := ["br"; "jp"; "pt"].

End Quiz.

(** * Properties *)

(** ** Python list indexing *)

Section py_list_facts.
Context {A : Type}.
Implicit Types (l : list A) (i : Z).

Lemma py_index_nonneg l i :
  0 ≤ i < Z.of_nat (length l) → py_index l i = Some (Z.to_nat i).
Proof. intros H. unfold py_index. by rewrite bool_decide_eq_true_2. Qed.

Lemma py_get_nonneg l i :
  0 ≤ i < Z.of_nat (length l) → py_get l i = l !! Z.to_nat i.
Proof. intros H. unfold py_get. by rewrite py_index_nonneg. Qed.

Lemma py_set_nonneg l i x :
  0 ≤ i < Z.of_nat (length l) → py_set l i x = Some (<[Z.to_nat i:=x]> l).
Proof. intros H. unfold py_set. by rewrite py_index_nonneg. Qed.

Lemma py_get_is_Some l i :
  0 ≤ i < Z.of_nat (length l) → is_Some (py_get l i).
Proof.
  intros H. rewrite py_get_nonneg by done.
  apply lookup_lt_is_Some. lia.
Qed.
End py_list_facts.

Lemma filter_nil_Forall {A} (P : A → Prop) `{∀ x, Decision (P x)} (l : list A) :
  filter P l = [] ↔ Forall (λ x, ¬ P x) l.
Proof.
  rewrite Forall_forall. split.
  - intros Hf x Hx HP. by eapply filter_nil_not_elem_of.
  - intros Hall. destruct (filter P l) as [|x l'] eqn:E; [done|].
    assert (x ∈ filter P l) as [HP Hx]%list_elem_of_filter by (rewrite E; left).
    by destruct (Hall x Hx).
Qed.

(** ** Checkers *)

Section checkers_facts.
Import Checkers.

(** *** The engine returns on well-formed states *)

Lemma in_bounds_cell r c : _ck_in_bounds r c = true → 0 ≤ r * 8 + c < 64.
Proof.
  unfold _ck_in_bounds. rewrite andb_true_iff, !bool_decide_eq_true. lia.
Qed.

Lemma dir_moves_total b r c pl co d :
  length b = 64%nat → is_Some (dir_moves b r c pl co d).
Proof.
  intros Hb. destruct d as [dr dc]. unfold dir_moves.
  assert (Hget : ∀ r c, _ck_in_bounds r c = true → is_Some (py_get b (r * 8 + c))).
  { intros r' c' H%in_bounds_cell. apply py_get_is_Some. lia. }
  destruct (_ck_in_bounds (r + 2 * dr) (c + 2 * dc)) eqn:H2;
    destruct (_ck_in_bounds (r + dr) (c + dc)) eqn:H1; simpl;
    try (destruct (Hget _ _ H1) as [p1 ->]); simpl;
    try (destruct (Hget _ _ H2) as [p2 ->]); simpl;
    repeat match goal with |- context [if ?x then _ else _] => destruct x end;
    simpl; eauto.
Qed.

Lemma piece_moves_total b idx co :
  length b = 64%nat → 0 ≤ idx < 64 → is_Some (_ck_piece_moves b idx co).
Proof.
  intros Hb Hi. unfold _ck_piece_moves.
  destruct (py_get_is_Some b idx) as [p ->]; [lia|]. simpl.
  case_bool_decide; [eauto|].
  destruct (mapM_is_Some_2 (dir_moves b (idx `div` 8) (idx `mod` 8)
              (_ck_piece_owner p) co) (_ck_dirs p)) as [l ->].
  { apply Forall_forall. intros d _. by apply dir_moves_total. }
  simpl. eauto.
Qed.

Lemma captures_total b idx :
  length b = 64%nat → 0 ≤ idx < 64 → is_Some (captures b idx).
Proof.
  intros Hb Hi. unfold captures.
  destruct (piece_moves_total b idx true Hb Hi) as [l ->]. simpl. eauto.
Qed.

Lemma steps_total b idx :
  length b = 64%nat → 0 ≤ idx < 64 → is_Some (steps b idx).
Proof.
  intros Hb Hi. unfold steps.
  destruct (piece_moves_total b idx false Hb Hi) as [l ->]. simpl. eauto.
Qed.

Lemma captures_all_true b i l :
  captures b i = Some l → Forall (λ mv : move, mv.2 = true) l.
Proof.
  unfold captures. destruct (_ck_piece_moves b i true); simpl; [|done].
  intros [= <-]. apply Forall_forall. by intros mv [? _]%list_elem_of_filter.
Qed.

Lemma collect_total f idxs acc :
  Forall (λ i, is_Some (f i)) idxs → is_Some (collect f idxs acc).
Proof.
  intros H. revert acc.
  induction H as [|i idxs [l Hl] _ IH]; intros acc; simpl; [eauto|].
  rewrite Hl. simpl. apply IH.
Qed.

(** Every entry of the result was in the accumulator or is the non-empty
    list computed for one of the indexes. *)
Lemma collect_lookup f idxs acc m i l :
  collect f idxs acc = Some m → m !! i = Some l →
  acc !! i = Some l ∨ (i ∈ idxs ∧ f i = Some l ∧ l ≠ []).
Proof.
  revert acc. induction idxs as [|j idxs IH]; intros acc; simpl.
  - intros [= ->]. auto.
  - destruct (f j) as [lj|] eqn:Hj; simpl; [|done].
    intros Hc Hm. destruct (IH _ Hc Hm) as [Hacc|(Hin & Hf & Hne)].
    + destruct lj as [|x lj]; [auto|].
      destruct (decide (j = i)) as [->|Hne].
      * rewrite lookup_insert_eq in Hacc. injection Hacc as <-.
        right. split_and!; [left|done|done].
      * rewrite lookup_insert_ne in Hacc by done. auto.
    + right. split_and!; [by right|done|done].
Qed.

Lemma collect_keeps f i idxs acc m :
  collect f idxs acc = Some m → is_Some (acc !! i) → is_Some (m !! i).
Proof.
  revert acc m. induction idxs as [|j idxs IH]; intros acc m; simpl.
  - by intros [= ->].
  - destruct (f j) as [lj|]; simpl; [|done]. intros Hc Hacc.
    apply (IH _ _ Hc). destruct lj; [done|].
    destruct (decide (j = i)) as [->|];
      [rewrite lookup_insert_eq|rewrite lookup_insert_ne by done]; eauto.
Qed.

(** An index with a non-empty list ends up in the result. *)
Lemma collect_elem f idxs acc m i x l :
  collect f idxs acc = Some m → i ∈ idxs → f i = Some (x :: l) → is_Some (m !! i).
Proof.
  revert acc. induction idxs as [|j idxs IH]; intros acc; simpl.
  - by intros _ ?%elem_of_nil.
  - intros Hc [->|Hin]%elem_of_cons Hf.
    + rewrite Hf in Hc. simpl in Hc. apply (collect_keeps _ _ _ _ _ Hc).
      rewrite lookup_insert_eq. eauto.
    + destruct (f j); simpl in Hc; [|done]. by apply (IH _ Hc).
Qed.

Lemma owned_indexes_range b t i :
  i ∈ owned_indexes b t → 0 ≤ i < Z.of_nat (length b).
Proof.
  unfold owned_indexes, enumerate.
  intros ([j p] & -> & [_ Hin]%list_elem_of_filter)%list_elem_of_fmap.
  apply list_elem_of_lookup in Hin as [k Hk].
  apply list_lookup_imap_Some in Hk as (x & Hx & [= -> ->]).
  apply lookup_lt_Some in Hx. simpl. lia.
Qed.

Lemma piece_indexes_range s i : wf s → i ∈ piece_indexes s → 0 ≤ i < 64.
Proof.
  intros [Hb Hf]. unfold piece_indexes. destruct (forced_from s) as [f|] eqn:E.
  - intros ->%list_elem_of_singleton. by apply Hf.
  - intros H%owned_indexes_range. lia.
Qed.

Lemma legal_moves_total s : wf s → is_Some (_ck_legal_moves s).
Proof.
  intros Hwf. unfold _ck_legal_moves.
  destruct (collect_total (captures (board s)) (piece_indexes s) ∅) as [cm ->].
  { apply Forall_forall. intros i Hi. apply captures_total; [apply Hwf|].
    by apply (piece_indexes_range s). }
  simpl. case_bool_decide; [eauto|]. case_bool_decide; [eauto|].
  apply collect_total, Forall_forall. intros i Hi.
  apply steps_total; [apply Hwf|]. by apply (piece_indexes_range s).
Qed.

Lemma finalize_total s :
  length (board s) = 64%nat → is_Some (_ck_finalize_turn_if_needed s).
Proof.
  intros Hb. unfold _ck_finalize_turn_if_needed.
  destruct (filter _ (board s)); [eauto|].
  match goal with |- context [_ck_legal_moves ?s'] =>
    destruct (legal_moves_total s') as [m ->] end.
  { split; [done|]. by intros f [=]. }
  simpl. case_bool_decide; eauto.
Qed.

(** *** Mandatory capture *)

(** C1. If a candidate piece of the side to move (the chain piece when
    [forced_from] is set, otherwise any piece owned by [turn]) has a
    capture, [_ck_legal_moves] returns a non-empty mapping that lists that
    piece and in which every entry is the non-empty capture list of a
    candidate piece: every listed pair has [isCapture] true, so no simple
    step is offered.  On a well-formed state the call returns. *)
Theorem legal_moves_mandatory_capture s i c cs :
  i ∈ piece_indexes s →
  captures (board s) i = Some (c :: cs) →
  (wf s → is_Some (_ck_legal_moves s)) ∧
  ∀ m, _ck_legal_moves s = Some m →
    is_Some (m !! i) ∧
    ∀ j l, m !! j = Some l →
      j ∈ piece_indexes s ∧ captures (board s) j = Some l ∧ l ≠ [] ∧
      Forall (λ mv : move, mv.2 = true) l.
Proof.
  intros Hi Hc. split; [apply legal_moves_total|].
  intros m. unfold _ck_legal_moves.
  destruct (collect (captures (board s)) (piece_indexes s) ∅) as [cm|] eqn:Hcm;
    simpl; [|done].
  pose proof (collect_elem _ _ _ _ _ _ _ Hcm Hi Hc) as [li Hli].
  rewrite bool_decide_eq_true_2.
  2:{ intros ->. by rewrite lookup_empty in Hli. }
  intros [= <-]. split; [eauto|]. intros j l Hj.
  destruct (collect_lookup _ _ _ _ _ _ Hcm Hj) as [Hacc|(? & ? & ?)].
  { by rewrite lookup_empty in Hacc. }
  split_and!; [done..|]. by eapply captures_all_true.
Qed.

(** In [chain_position] blue's man on 40 must jump; the free steps of
    the man on 44 are not offered. *)
Lemma legal_moves_mandatory_capture_witness :
  steps (board chain_position) 44 = Some [(35, false); (37, false)] ∧
  _ck_legal_moves chain_position = Some {[ 40 := [(26, true)] ]} ∧
  ∀ m, _ck_legal_moves chain_position = Some m →
    is_Some (m !! 40) ∧
    ∀ j l, m !! j = Some l →
      j ∈ piece_indexes chain_position ∧
      captures (board chain_position) j = Some l ∧ l ≠ [] ∧
      Forall (λ mv : move, mv.2 = true) l.
Proof.
  split; [by vm_compute|]. split; [by vm_compute|].
  apply (legal_moves_mandatory_capture chain_position 40 (26, true) []).
  - by vm_compute; left.
  - by vm_compute.
Defined.

(** *** The shape of a capture *)

Lemma dirs_unit p dr dc :
  (dr, dc) ∈ _ck_dirs p → (dr = -1 ∨ dr = 1) ∧ (dc = -1 ∨ dc = 1).
Proof.
  destruct p; simpl; rewrite ?elem_of_cons, elem_of_nil; intros H;
    repeat destruct H as [H|H]; try done; injection H as -> ->; lia.
Qed.

Lemma dir_moves_capture_elem b r c pl dr dc ms mv :
  dir_moves b r c pl true (dr, dc) = Some ms → mv ∈ ms →
  _ck_in_bounds (r + 2 * dr) (c + 2 * dc) = true ∧
  _ck_in_bounds (r + dr) (c + dc) = true ∧
  (∃ p1, py_get b ((r + dr) * 8 + (c + dc)) = Some p1 ∧ _ck_is_enemy p1 pl = true) ∧
  py_get b ((r + 2 * dr) * 8 + (c + 2 * dc)) = Some Empty ∧
  mv = ((r + 2 * dr) * 8 + (c + 2 * dc), true).
Proof.
  unfold dir_moves.
  destruct (_ck_in_bounds (r + 2 * dr) (c + 2 * dc)) eqn:H2;
    destruct (_ck_in_bounds (r + dr) (c + dc)) eqn:H1; simpl;
    try (intros [= <-] ?%elem_of_nil; done).
  destruct (py_get b ((r + dr) * 8 + (c + dc))) as [p1|] eqn:Hp1; simpl; [|done].
  destruct (_ck_is_enemy p1 pl) eqn:He; simpl;
    [|intros [= <-] ?%elem_of_nil; done].
  destruct (py_get b ((r + 2 * dr) * 8 + (c + 2 * dc))) as [p2|] eqn:Hp2;
    simpl; [|done].
  case_bool_decide as Hemp; [|intros [= <-] ?%elem_of_nil; done].
  intros [= <-] ->%list_elem_of_singleton. subst p2. eauto 10.
Qed.

(** A listed capture jumps an enemy piece next to the mover and lands
    on the empty cell behind it. *)
Lemma captures_elem b i l mv :
  captures b i = Some l → mv ∈ l →
  ∃ p dr dc,
    py_get b i = Some p ∧ p ≠ Empty ∧ (dr, dc) ∈ _ck_dirs p ∧
    let r := i `div` 8 in let c := i `mod` 8 in
    _ck_in_bounds (r + 2 * dr) (c + 2 * dc) = true ∧
    _ck_in_bounds (r + dr) (c + dc) = true ∧
    (∃ p1, py_get b ((r + dr) * 8 + (c + dc)) = Some p1 ∧
           _ck_is_enemy p1 (_ck_piece_owner p) = true) ∧
    py_get b ((r + 2 * dr) * 8 + (c + 2 * dc)) = Some Empty ∧
    mv = ((r + 2 * dr) * 8 + (c + 2 * dc), true).
Proof.
  unfold captures, _ck_piece_moves.
  destruct (py_get b i) as [p|] eqn:Hp; simpl; [|done].
  case_bool_decide as Hemp; simpl.
  { intros [= <-] ?%elem_of_nil. done. }
  destruct (mapM _ (_ck_dirs p)) as [per_dir|] eqn:Hm; simpl; [|done].
  intros [= <-] [_ Hin]%list_elem_of_filter.
  apply list_elem_of_In, in_concat in Hin
    as (ms & Hms%list_elem_of_In & Hmv%list_elem_of_In).
  apply mapM_Some_1 in Hm.
  apply list_elem_of_lookup in Hms as [k Hk].
  destruct (Forall2_lookup_r _ _ _ _ _ Hm Hk) as ([dr dc] & Hd & Hdm).
  exists p, dr, dc.
  split; [done|]. split; [done|]. split; [by eapply list_elem_of_lookup_2|].
  by eapply dir_moves_capture_elem.
Qed.

Lemma jump_geometry i dr dc :
  0 ≤ i < 64 → (dr = -1 ∨ dr = 1) → (dc = -1 ∨ dc = 1) →
  _ck_in_bounds (i `div` 8 + 2 * dr) (i `mod` 8 + 2 * dc) = true →
  let t := (i `div` 8 + 2 * dr) * 8 + (i `mod` 8 + 2 * dc) in
  let m := (i `div` 8 + dr) * 8 + (i `mod` 8 + dc) in
  0 ≤ t < 64 ∧ 0 ≤ m < 64 ∧
  t `div` 8 = i `div` 8 + 2 * dr ∧
  ((i `div` 8 + t `div` 8) `div` 2) * 8 + (i `mod` 8 + t `mod` 8) `div` 2 = m ∧
  m ≠ t ∧ m ≠ i ∧ t ≠ i.
Proof.
  intros Hi Hdr Hdc. unfold _ck_in_bounds.
  rewrite andb_true_iff, !bool_decide_eq_true. intros [Hr Hc]. simpl.
  assert (Hdiv : ((i `div` 8 + 2 * dr) * 8 + (i `mod` 8 + 2 * dc)) `div` 8
                 = i `div` 8 + 2 * dr).
  { rewrite Z.add_comm, Z.div_add by lia. rewrite Z.div_small by lia. lia. }
  assert (Hmod : ((i `div` 8 + 2 * dr) * 8 + (i `mod` 8 + 2 * dc)) `mod` 8
                 = i `mod` 8 + 2 * dc).
  { rewrite Z.add_comm, Z.mod_add by lia. rewrite Z.mod_small by lia. lia. }
  rewrite Hdiv, Hmod.
  replace (i `div` 8 + (i `div` 8 + 2 * dr)) with ((i `div` 8 + dr) * 2) by lia.
  replace (i `mod` 8 + (i `mod` 8 + 2 * dc)) with ((i `mod` 8 + dc) * 2) by lia.
  rewrite !Z.div_mul by lia.
  pose proof (Z.div_mod i 8 ltac:(lia)) as Hdm.
  pose proof (Z.mod_pos_bound i 8 ltac:(lia)).
  split_and!; try done; lia.
Qed.

(** The board after a listed capture from [i] to [t]: the mover leaves
    [i], lands on [t] (crowned if it promotes) and the jumped cell [m]
    is emptied. *)
Lemma move_piece_capture b i t p l :
  length b = 64%nat → 0 ≤ i < 64 →
  py_get b i = Some p → captures b i = Some l → (t, true) ∈ l →
  ∃ m, 0 ≤ t < 64 ∧ 0 ≤ m < 64 ∧ m ≠ t ∧ m ≠ i ∧ t ≠ i ∧
    move_piece b i t true =
      Some (<[Z.to_nat m:=Empty]>
              (<[Z.to_nat t:=if promotes p t then crown p else p]>
                 (<[Z.to_nat i:=Empty]> b)), promotes p t).
Proof.
  intros Hb Hi Hp Hc Hin.
  destruct (captures_elem _ _ _ _ Hc Hin)
    as (p' & dr & dc & Hp' & Hne & Hd & H2 & H1 & _ & _ & [= Ht]).
  assert (p' = p) as -> by congruence.
  apply dirs_unit in Hd as [Hdr Hdc].
  destruct (jump_geometry i dr dc Hi Hdr Hdc H2)
    as (Htr & Hmr & Hdiv & Hmid & ? & ? & ?).
  rewrite <- Ht in *.
  exists ((i `div` 8 + dr) * 8 + (i `mod` 8 + dc)). split_and!; try done; try lia.
  unfold move_piece. rewrite Hp. simpl.
  rewrite py_set_nonneg by lia. simpl.
  rewrite py_set_nonneg by (rewrite length_insert; lia). simpl.
  rewrite Hmid. unfold promotes.
  destruct (bool_decide (p = BlueMan) && bool_decide (t `div` 8 = 0)) eqn:Eb; simpl.
  { apply andb_true_iff in Eb as [->%bool_decide_eq_true _]. simpl.
    rewrite py_set_nonneg by (rewrite !length_insert; lia). simpl.
    rewrite py_set_nonneg by (rewrite !length_insert; lia). simpl.
    by rewrite list_insert_insert_eq. }
  destruct (bool_decide (p = GreenMan) && bool_decide (t `div` 8 = 7)) eqn:Eg; simpl.
  { apply andb_true_iff in Eg as [->%bool_decide_eq_true _]. simpl.
    rewrite py_set_nonneg by (rewrite !length_insert; lia). simpl.
    rewrite py_set_nonneg by (rewrite !length_insert; lia). simpl.
    by rewrite list_insert_insert_eq. }
  rewrite py_set_nonneg by (rewrite !length_insert; lia). done.
Qed.

(** *** Promotion ends the ply *)




(** *** Capture chains *)

(** C3. With [forced_from] set to [f], [_ck_legal_moves] lists moves for
    [f] only, namely its captures, and returns the empty mapping exactly
    when [f] has no capture.  After a listed capture that does not
    promote, [_ck_apply_move] recomputes the captures [nc] of the moved
    piece from its landing cell [t]: if there are any, [forced_from]
    becomes [t] and [turn] is unchanged; otherwise the result is that of
    end-of-turn handling on the updated board. *)
Theorem forced_chain s :
  (∀ f, forced_from s = Some f →
     (wf s → is_Some (_ck_legal_moves s)) ∧
     ∀ m, _ck_legal_moves s = Some m →
       (∀ j l, m !! j = Some l → j = f ∧ captures (board s) f = Some l) ∧
       ∃ caps, captures (board s) f = Some caps ∧ (m = ∅ ↔ caps = [])) ∧
  (∀ i t p l,
     length (board s) = 64%nat → 0 ≤ i < 64 →
     py_get (board s) i = Some p →
     captures (board s) i = Some l → (t, true) ∈ l →
     promotes p t = false →
     ∃ b' nc s',
       move_piece (board s) i t true = Some (b', false) ∧
       captures b' t = Some nc ∧
       _ck_apply_move s i t true = Some s' ∧
       (nc ≠ [] →
          forced_from s' = Some t ∧ turn s' = turn s ∧ board s' = b' ∧
          finished s' = finished s) ∧
       (nc = [] → _ck_finalize_turn_if_needed (set_board b' s) = Some s')).
Proof.
  split.
  - intros f Hf. split; [apply legal_moves_total|].
    intros m. unfold _ck_legal_moves, piece_indexes. rewrite Hf. simpl.
    destruct (captures (board s) f) as [caps|] eqn:Hc; simpl; [|done].
    destruct caps as [|c caps]; simpl.
    + rewrite bool_decide_eq_false_2 by (by intros []).
      intros [= <-]. split.
      * intros j l. by rewrite lookup_empty.
      * by exists [].
    + rewrite bool_decide_eq_true_2 by apply insert_non_empty.
      intros [= <-]. split.
      * intros j l [[-> ->]|[_ Hl]]%lookup_insert_Some; [done|].
        by rewrite lookup_empty in Hl.
      * exists (c :: caps). split; [done|]. split; [|done].
        intros E. by apply insert_non_empty in E.
  - intros i t p l Hb Hi Hp Hc Hin Hpr.
    destruct (move_piece_capture _ _ _ _ _ Hb Hi Hp Hc Hin)
      as (m & Ht & Hm & Hmt & Hmi & Hti & Hmove).
    rewrite Hpr in Hmove.
    set (b' := <[Z.to_nat m:=Empty]>
                 (<[Z.to_nat t:=p]> (<[Z.to_nat i:=Empty]> (board s)))) in *.
    assert (length b' = 64%nat) as Hb' by (unfold b'; by rewrite !length_insert).
    destruct (captures_total b' t Hb' Ht) as [nc Hnc].
    unfold _ck_apply_move. rewrite Hmove. simpl. rewrite Hnc. simpl.
    destruct nc as [|c nc].
    + destruct (finalize_total (set_board b' s)) as [s' Hs']; [done|].
      exists b', [], s'. by split_and!.
    + eexists b', (c :: nc), _. split_and!; try done.
Qed.

(** In [chain_position] the jump from 40 to 26 leaves a further jump
    over 19: the chain cell becomes 26, blue keeps the turn, and the
    legal moves of the resulting state are the captures of 26 alone. *)
Lemma forced_chain_witness :
  ∃ s', _ck_apply_move chain_position 40 26 true = Some s' ∧
    forced_from s' = Some 26 ∧ turn s' = Blue ∧
    _ck_legal_moves s' = Some {[ 26 := [(12, true)] ]} ∧
    ∀ m, _ck_legal_moves s' = Some m →
      (∀ j l, m !! j = Some l → j = 26 ∧ captures (board s') 26 = Some l) ∧
      ∃ caps, captures (board s') 26 = Some caps ∧ (m = ∅ ↔ caps = []).
Proof.
  destruct (forced_chain chain_position) as [_ Hstep].
  destruct (Hstep 40 26 BlueMan [(26, true)])
    as (b' & nc & s' & Hmove & Hnc & Happly & Hgo & _).
  - reflexivity.
  - lia.
  - by vm_compute.
  - by vm_compute.
  - left.
  - by vm_compute.
  - vm_compute in Hmove. injection Hmove as <-.
    vm_compute in Hnc. injection Hnc as <-.
    destruct Hgo as (Hff & Hturn & Hboard & _); [done|].
    exists s'. split_and!; [done|done|done| |].
    + vm_compute in Happly. injection Happly as <-. by vm_compute.
    + by apply (forced_chain s').
Defined.

(** *** End of turn *)

(** C4. End-of-turn handling on a 64-cell board returns, and: if the
    opponent has no piece left the game is finished and the winner is the
    side that moved; otherwise, with the turn flipped and the chain cell
    cleared, if the new turn-holder has no legal move the game is finished
    and the winner is again the side that moved; otherwise [finished] and
    [winner] are untouched, the turn is the opponent's and the message
    names the new turn-holder.  The winner is always a side, never a draw. *)
Theorem finalize_turn_outcome s :
  length (board s) = 64%nat →
  let opp := other (turn s) in
  let flipped := set_forced_from None (set_selected None (set_turn opp s)) in
  ∃ s', _ck_finalize_turn_if_needed s = Some s' ∧
    (Forall (λ p, _ck_piece_owner p ≠ Some opp) (board s) →
       finished s' = true ∧ winner s' = Some (turn s)) ∧
    (Exists (λ p, _ck_piece_owner p = Some opp) (board s) →
       ∃ m, _ck_legal_moves flipped = Some m ∧
         (m = ∅ →
            finished s' = true ∧ winner s' = Some (turn s) ∧ turn s' = opp) ∧
         (m ≠ ∅ →
            turn s' = opp ∧ finished s' = finished s ∧ winner s' = winner s ∧
            forced_from s' = None ∧
            message s' = "Vez de " +:+
              match opp with Blue => blue_name s | Green => green_name s end)).
Proof.
  intros Hb opp flipped. unfold _ck_finalize_turn_if_needed. fold opp.
  destruct (filter _ (board s)) as [|q qs] eqn:Hf.
  - eexists. split; [done|]. split.
    + intros _. unfold declare_win. by destruct (turn s).
    + intros Hex. apply filter_nil_Forall in Hf.
      apply Exists_exists in Hex as (x & Hx & Hox).
      rewrite Forall_forall in Hf. by destruct (Hf x Hx).
  - assert (Hex : ¬ Forall (λ p, _ck_piece_owner p ≠ Some opp) (board s)).
    { intros HF.
      apply (filter_nil_Forall (λ p, _ck_piece_owner p = Some opp)) in HF.
      congruence. }
    fold flipped.
    destruct (legal_moves_total flipped) as [m Hm].
    { split; [done|]. by intros f [=]. }
    rewrite Hm. simpl. case_bool_decide as Hem.
    + eexists. split; [done|]. split; [done|]. intros _. exists m. split; [done|].
      split; [|done]. intros _. unfold declare_win, opp. by destruct (turn s).
    + eexists. split; [done|]. split; [done|]. intros _. exists m. split; [done|].
      split; [done|]. intros _. unfold opp. by destruct (turn s).
Qed.

(** On the opening board, after a blue ply, green has pieces and moves:
    the game goes on and the message names green. *)
Lemma finalize_turn_outcome_witness :
  ∃ s', _ck_finalize_turn_if_needed (_new_checkers_state "Azul" "Verde") = Some s' ∧
    turn s' = Green ∧ finished s' = false ∧ winner s' = None ∧
    message s' = "Vez de Verde".
Proof.
  destruct (finalize_turn_outcome (_new_checkers_state "Azul" "Verde") eq_refl)
    as (s' & Hs' & _ & Hgo).
  destruct Hgo as (m & Hm & _ & Hcont).
  - apply Exists_exists. exists GreenMan. split; [|done]. by vm_compute; repeat constructor.
  - exists s'. split; [done|].
    destruct Hcont as (Ht & Hf & Hw & _ & Hmsg).
    + intros ->. vm_compute in Hm. discriminate Hm.
    + by split_and!.
Defined.

(** *** Scores *)

Lemma declare_win_scores w nm s : scores_le s (declare_win w nm s).
Proof. unfold scores_le, declare_win. destruct w; simpl; lia. Qed.

Lemma finalize_scores s s' :
  _ck_finalize_turn_if_needed s = Some s' → scores_le s s'.
Proof.
  unfold _ck_finalize_turn_if_needed. destruct (filter _ (board s)).
  { intros [= <-]. apply declare_win_scores. }
  destruct (_ck_legal_moves _); simpl; [|done].
  case_bool_decide; intros [= <-].
  - match goal with |- scores_le _ (declare_win ?w ?nm ?s0) =>
      pose proof (declare_win_scores w nm s0) as H' end.
    unfold scores_le in *. simpl in *. done.
  - unfold scores_le. simpl. lia.
Qed.

Lemma apply_move_scores s i t cap s' :
  _ck_apply_move s i t cap = Some s' → scores_le s s'.
Proof.
  unfold _ck_apply_move.
  destruct (move_piece (board s) i t cap) as [[b pr]|]; simpl; [|done].
  assert (Hfin : _ck_finalize_turn_if_needed (set_board b s) = Some s' →
                 scores_le s s').
  { intros H%finalize_scores. done. }
  destruct (cap && negb pr); [|done].
  destruct (captures b t) as [[|c nc]|]; simpl; [done| |done].
  intros [= <-]. unfold scores_le. simpl. lia.
Qed.

Lemma click_cell_scores s idx s' :
  _ck_click_cell s idx = Some s' → scores_le s s'.
Proof.
  assert (Hrefl : ∀ s, scores_le s s) by (intros ?; unfold scores_le; lia).
  unfold _ck_click_cell. destruct (_ || _).
  { intros [= <-]. apply Hrefl. }
  destruct (_ck_legal_moves s) as [legal|]; simpl; [|done].
  destruct (selected s) as [sel|].
  - destruct (targets_of _ !! idx) as [cap|]; [apply apply_move_scores|].
    case_bool_decide; intros [= <-]; apply (Hrefl s).
  - case_bool_decide; intros [= <-]; apply (Hrefl s).
Qed.
End checkers_facts.

(** ** Tic-tac-toe *)

Section tictactoe_facts.
Import TicTacToe.

Lemma win_lines_in_range : Forall line_in_range TTT_WIN_LINES.
Proof. unfold TTT_WIN_LINES, line_in_range. repeat constructor; simpl; lia. Qed.

(** The line scan returns, with the symbol of a line that holds or with
    [None] when no line holds. *)
Lemma check_lines_spec b lines :
  length b = 9%nat → Forall line_in_range lines →
  ∃ r, check_lines b lines = Some r ∧
    match r with
    | Some m => ∃ ln, ln ∈ lines ∧ line_holds b ln m
    | None => ∀ ln m, ln ∈ lines → ¬ line_holds b ln m
    end.
Proof.
  intros Hb. induction 1 as [|[[ia ib] ic] lines (Ha & Hb' & Hc) _ IH]; simpl.
  { exists None. split; [done|]. by intros ln m ?%elem_of_nil. }
  destruct IH as (r & Hr & Hspec). simpl in *.
  destruct (py_get_is_Some b ia) as [va Hva]; [lia|].
  destruct (py_get_is_Some b ib) as [vb Hvb]; [lia|].
  destruct (py_get_is_Some b ic) as [vc Hvc]; [lia|].
  assert (Hskip : (∀ m, ¬ line_holds b (ia, ib, ic) m) →
    ∃ r0, check_lines b lines = Some r0 ∧
      match r0 with
      | Some m => ∃ ln, ln ∈ (ia, ib, ic) :: lines ∧ line_holds b ln m
      | None => ∀ ln m, ln ∈ (ia, ib, ic) :: lines → ¬ line_holds b ln m
      end).
  { intros Hno. exists r. split; [done|]. destruct r as [m|].
    - destruct Hspec as (ln & ? & ?). exists ln. split; [by right|done].
    - intros ln m [->|?]%elem_of_cons; [apply Hno|by apply Hspec]. }
  rewrite Hva. simpl. destruct va as [m|].
  2:{ apply Hskip. intros m (H1 & _). simpl in H1. congruence. }
  rewrite Hvb. simpl. case_bool_decide as Eab.
  2:{ apply Hskip. intros m' (H1 & H2 & _). simpl in *. congruence. }
  rewrite Hvc. simpl. case_bool_decide as Ebc.
  2:{ apply Hskip. intros m' (H1 & H2 & H3). simpl in *. congruence. }
  subst vb vc. exists (Some m). split; [done|].
  exists (ia, ib, ic). split; [left|done].
Qed.

Lemma check_winner_spec b :
  length b = 9%nat →
  ∃ r, _ttt_check_winner b = Some r ∧
    match r with
    | Some m => ∃ ln, ln ∈ TTT_WIN_LINES ∧ line_holds b ln m
    | None => ∀ ln m, ln ∈ TTT_WIN_LINES → ¬ line_holds b ln m
    end.
Proof. intros Hb. apply check_lines_spec; [done|apply win_lines_in_range]. Qed.

Lemma forallb_full b :
  forallb (λ c : option mark, bool_decide (c ≠ None)) b = true ↔ full b.
Proof.
  unfold full. rewrite forallb_forall, Forall_forall.
  split; intros H c Hc.
  - apply list_elem_of_In, H in Hc. by apply bool_decide_eq_true in Hc.
  - apply bool_decide_eq_true, H. by apply list_elem_of_In.
Qed.

(** [_ttt_finalize] on a 9-cell board, by cases. *)
Lemma finalize_cases s :
  length (board s) = 9%nat →
  ∃ s', _ttt_finalize s = Some s' ∧ board s' = board s ∧ current s' = current s ∧
    ((∃ m ln, ln ∈ TTT_WIN_LINES ∧ line_holds (board s) ln m ∧
        _ttt_check_winner (board s) = Some (Some m) ∧
        finished s' = true ∧ winner s' = Some (Win m)) ∨
     (¬ has_line (board s) ∧ full (board s) ∧
        finished s' = true ∧ winner s' = Some Draw) ∨
     (¬ has_line (board s) ∧ ¬ full (board s) ∧
        finished s' = false ∧ winner s' = None)).
Proof.
  intros Hb. unfold _ttt_finalize.
  destruct (check_winner_spec _ Hb) as (r & -> & Hr). simpl.
  destruct r as [m|].
  - destruct Hr as (ln & Hln & Hh).
    eexists. split; [done|]. split_and!; try (by destruct m).
    left. exists m, ln. split_and!; try done; by destruct m.
  - assert (¬ has_line (board s)) as Hno.
    { intros (ln & m & ? & ?). by eapply Hr. }
    destruct (forallb _ (board s)) eqn:Hfull.
    + apply forallb_full in Hfull.
      eexists. split; [done|]. split_and!; try done.
      right; left. done.
    + assert (¬ full (board s)) by (rewrite <- forallb_full; congruence).
      eexists. split; [done|]. split_and!; try done.
      right; right. done.
Qed.

Lemma do_move_noop s pos :
  finished s = true ∨ pos < 0 ∨ 9 ≤ pos ∨
    (∃ m, py_get (board s) pos = Some (Some m)) →
  _ttt_do_move s pos = Some s.
Proof.
  unfold _ttt_do_move. intros [Hf|[Hneg|[Hbig|[m Hm]]]].
  - by rewrite Hf.
  - destruct (finished s); [done|]. by rewrite bool_decide_eq_true_2.
  - destruct (finished s); [done|].
    rewrite (bool_decide_eq_true_2 (9 ≤ pos)) by done. by rewrite orb_true_r.
  - destruct (finished s); [done|]. destruct (_ || _); [done|].
    by rewrite Hm.
Qed.

(** A move on a free cell of an open game, by cases on the new board. *)
Lemma do_move_places s pos :
  length (board s) = 9%nat →
  finished s = false → 0 ≤ pos < 9 → py_get (board s) pos = Some None →
  let b' := <[Z.to_nat pos:=Some (current s)]> (board s) in
  ∃ s', _ttt_do_move s pos = Some s' ∧ board s' = b' ∧
    ((has_line b' ∧ finished s' = true ∧
        ∃ m ln, winner s' = Some (Win m) ∧ ln ∈ TTT_WIN_LINES ∧
                line_holds b' ln m ∧ _ttt_check_winner b' = Some (Some m)) ∨
     (¬ has_line b' ∧ full b' ∧ finished s' = true ∧ winner s' = Some Draw) ∨
     (¬ has_line b' ∧ ¬ full b' ∧
        finished s' = false ∧ current s' = flip (current s))).
Proof.
  intros Hb Hf Hpos Hcell b'. unfold _ttt_do_move. rewrite Hf.
  rewrite !bool_decide_eq_false_2 by lia. simpl. rewrite Hcell. simpl.
  rewrite py_set_nonneg by lia. simpl. fold b'.
  assert (length b' = 9%nat) as Hb' by (unfold b'; by rewrite length_insert).
  destruct (finalize_cases (set_board b' s) Hb')
    as (s1 & -> & Hbs1 & Hc1 & Hcase). simpl in *.
  destruct Hcase as [(m & ln & Hln & Hh & Hcw & Hfin & Hw)
                    |[(Hno & Hfull & Hfin & Hw)|(Hno & Hnf & Hfin & Hw)]].
  - rewrite Hfin. exists s1. split_and!; try done.
    left. split; [by exists ln, m|]. split; [done|]. by exists m, ln.
  - rewrite Hfin. exists s1. split_and!; try done. right; left. done.
  - rewrite Hfin.
    destruct (finalize_cases (set_current (flip (current s1)) s1))
      as (s2 & -> & Hbs2 & Hc2 & Hcase2); [simpl; congruence|].
    simpl in *. rewrite Hbs1 in *.
    destruct Hcase2 as [(m & ln & Hln & Hh & _)
                       |[(_ & Hfull & _)|(_ & _ & Hfin2 & _)]].
    + destruct Hno. by exists ln, m.
    + done.
    + exists s2. split_and!; try done.
      right; right. split_and!; try done. congruence.
Qed.

(** C5. [_ttt_do_move] changes nothing when the game is finished, [pos]
    is out of range or the cell is taken.  Otherwise it puts the current
    symbol on [pos] and then: if a winning line holds three equal symbols
    the game is finished and the winner is the symbol of such a line (the
    one [_ttt_check_winner] finds); else if every cell is filled the game
    is finished as a draw; else the game stays open and the current symbol
    changes, from X to O and from O to X. *)
Theorem ttt_do_move_spec s pos :
  length (board s) = 9%nat →
  ((finished s = true ∨ pos < 0 ∨ 9 ≤ pos ∨
    (∃ m, py_get (board s) pos = Some (Some m))) →
   _ttt_do_move s pos = Some s) ∧
  (finished s = false → 0 ≤ pos < 9 → py_get (board s) pos = Some None →
   let b' := <[Z.to_nat pos:=Some (current s)]> (board s) in
   ∃ s', _ttt_do_move s pos = Some s' ∧ board s' = b' ∧
     (has_line b' →
        finished s' = true ∧
        ∃ m ln, winner s' = Some (Win m) ∧ ln ∈ TTT_WIN_LINES ∧
                line_holds b' ln m ∧ _ttt_check_winner b' = Some (Some m)) ∧
     (¬ has_line b' → full b' → finished s' = true ∧ winner s' = Some Draw) ∧
     (¬ has_line b' → ¬ full b' →
        finished s' = false ∧ current s' ≠ current s ∧
        (current s = X → current s' = O) ∧ (current s = O → current s' = X))).
Proof.
  intros Hb. split; [apply do_move_noop|].
  intros Hf Hpos Hcell b'.
  destruct (do_move_places s pos Hb Hf Hpos Hcell) as (s' & Hs' & Hbs' & Hcase).
  exists s'. split; [done|]. split; [done|]. fold b' in Hcase.
  destruct Hcase as [(Hl & Hfin & Hw)|[(Hno & Hfull & Hd)|(Hno & Hnf & Hfin & Hcur)]];
    split_and!; try done.
  intros _ _. rewrite Hcur.
  split_and!; [done|by destruct (current s)|by intros ->|by intros ->].
Qed.

(** The third X on the top row wins the game for X; an X on the free
    cell 5 instead leaves the game open and hands the turn to O. *)
Lemma ttt_do_move_spec_witness :
  (∃ s', _ttt_do_move two_in_a_row 2 = Some s' ∧
     board s' = [Some X; Some X; Some X; Some O; Some O; None; None; None; None] ∧
     finished s' = true ∧
     ∃ m ln, winner s' = Some (Win m) ∧ ln ∈ TTT_WIN_LINES ∧
             line_holds (board s') ln m ∧ _ttt_check_winner (board s') = Some (Some m)) ∧
  (∃ s', _ttt_do_move two_in_a_row 5 = Some s' ∧
     board s' = [Some X; Some X; None; Some O; Some O; Some X; None; None; None] ∧
     finished s' = false ∧ current two_in_a_row = X ∧ current s' = O).
Proof.
  split.
  - destruct (ttt_do_move_spec two_in_a_row 2 eq_refl) as [_ Hact].
    destruct Hact as (s' & Hs' & Hb & Hwin & _ & _).
    + reflexivity.
    + lia.
    + reflexivity.
    + exists s'. split; [done|]. split; [done|]. rewrite Hb. apply Hwin.
      exists (0, 1, 2), X. split; [left|]. by vm_compute.
  - destruct (ttt_do_move_spec two_in_a_row 5 eq_refl) as [_ Hact].
    destruct Hact as (s' & Hs' & Hb & _ & _ & Hopen).
    + reflexivity.
    + lia.
    + reflexivity.
    + exists s'. split; [done|]. split; [done|].
      destruct Hopen as (Hfin & _ & Hflip & _).
      * intros (ln & m & Hln & (H1 & H2 & H3)). unfold TTT_WIN_LINES in Hln.
        repeat (apply elem_of_cons in Hln as [->|Hln]);
          [..|by apply elem_of_nil in Hln];
          vm_compute in H1, H2, H3; destruct m; congruence.
      * intros Hfull. by apply (Forall_lookup_1 _ _ 2%nat None Hfull).
      * split_and!; [done|done|by apply Hflip].
Defined.

(** *** Winning lines of reachable states *)

Lemma play_reachable s moves s' :
  reachable s → play s moves = Some s' → reachable s'.
Proof.
  revert s. induction moves as [|pos moves IH]; intros s Hr; simpl.
  - by intros [= <-].
  - destruct (_ttt_do_move s pos) as [s1|] eqn:E; simpl; [|done].
    apply IH. by eapply reach_move.
Qed.

Lemma double_line_played :
  play (_new_ttt_state "versus" "Ana" "Bia") double_line_moves
  = Some double_line_state.
Proof. by vm_compute. Qed.

Lemma double_line_reachable : reachable double_line_state.
Proof.
  eapply play_reachable; [apply reach_new|apply double_line_played].
Qed.

(** X's last move on the corner completes the top row and the left
    column together: a reachable, won state with two winning lines. *)
Lemma two_lines_at_once :
  reachable double_line_state ∧
  finished double_line_state = true ∧
  winner double_line_state = Some (Win X) ∧
  (0, 1, 2) ∈ TTT_WIN_LINES ∧ (0, 3, 6) ∈ TTT_WIN_LINES ∧
  line_holds (board double_line_state) (0, 1, 2) X ∧
  line_holds (board double_line_state) (0, 3, 6) X ∧
  ¬ single_line (board double_line_state).
Proof.
  assert ((0, 1, 2) ∈ TTT_WIN_LINES) as H1 by left.
  assert ((0, 3, 6) ∈ TTT_WIN_LINES) as H2 by (do 3 right; left).
  assert (line_holds (board double_line_state) (0, 1, 2) X) as L1 by (by vm_compute).
  assert (line_holds (board double_line_state) (0, 3, 6) X) as L2 by (by vm_compute).
  split_and!; try done; [apply double_line_reachable|].
  intros H. by pose proof (H _ _ _ _ H1 H2 L1 L2).
Qed.

(** A freshly placed symbol owns every line it completes. *)
Lemma new_lines_hold_placed b pos cur ln m :
  length b = 9%nat → 0 ≤ pos < 9 → ¬ has_line b → ln ∈ TTT_WIN_LINES →
  line_holds (<[Z.to_nat pos:=Some cur]> b) ln m → m = cur.
Proof.
  intros Hb Hpos Hno Hln (Ha & Hb' & Hc).
  pose proof win_lines_in_range as Hr. rewrite Forall_forall in Hr.
  destruct (Hr ln Hln) as (Ra & Rb & Rc).
  rewrite py_get_nonneg in Ha, Hb', Hc by (rewrite length_insert; lia).
  destruct (decide (pos = ln.1.1)) as [->|Na].
  { rewrite list_lookup_insert_eq in Ha by lia. congruence. }
  destruct (decide (pos = ln.1.2)) as [->|Nb].
  { rewrite list_lookup_insert_eq in Hb' by lia. congruence. }
  destruct (decide (pos = ln.2)) as [->|Nc].
  { rewrite list_lookup_insert_eq in Hc by lia. congruence. }
  rewrite list_lookup_insert_ne in Ha, Hb', Hc by lia.
  destruct Hno. exists ln, m. split; [done|].
  unfold line_holds. by rewrite !py_get_nonneg by lia.
Qed.

Lemma play_inv_new md p1 p2 : play_inv (_new_ttt_state md p1 p2).
Proof.
  split_and!; [done| |done].
  intros _ (ln & m & Hln & Ha & _).
  change (board (_new_ttt_state md p1 p2)) with (replicate 9 (@None mark)) in Ha.
  apply bind_Some in Ha as (k & _ & Ha).
  apply lookup_replicate in Ha as [? _]. done.
Qed.

Lemma play_inv_step s pos s' :
  play_inv s → _ttt_do_move s pos = Some s' → play_inv s'.
Proof.
  intros (Hb & Hopen & Hdone) Hmove.
  pose proof (do_move_noop s pos) as Hnoop.
  destruct (finished s) eqn:Hf.
  { rewrite Hnoop in Hmove by auto. injection Hmove as <-.
    by split_and!; rewrite ?Hf. }
  destruct (decide (0 ≤ pos < 9)) as [Hpos|Hpos].
  2:{ rewrite Hnoop in Hmove by lia. injection Hmove as <-.
      by split_and!; rewrite ?Hf. }
  destruct (py_get_is_Some (board s) pos) as [[m|] Hc]; [lia| |].
  { rewrite Hnoop in Hmove by eauto 6. injection Hmove as <-.
    by split_and!; rewrite ?Hf. }
  destruct (do_move_places s pos Hb Hf Hpos Hc) as (s1 & Hs1 & Hbs1 & Hcase).
  assert (s1 = s') as -> by congruence. clear Hnoop.
  unfold play_inv. rewrite Hbs1.
  set (b' := <[Z.to_nat pos:=Some (current s)]> (board s)) in *.
  assert (Hcur : ∀ ln m', ln ∈ TTT_WIN_LINES → line_holds b' ln m' → m' = current s).
  { intros ln m' ? ?. eapply new_lines_hold_placed; eauto. }
  split; [unfold b'; by rewrite length_insert|].
  destruct Hcase as [(Hl & Hfin & m & ln & Hw & Hln & Hh & _)
                    |[(Hno & Hfull & Hfin & Hw)|(Hno & Hnf & Hfin & _)]].
  - split; [congruence|]. intros _ m0 Hm0.
    assert (m0 = m) as -> by congruence. split; [done|].
    intros ln' m' Hln' Hh'.
    rewrite (Hcur _ _ Hln' Hh'), (Hcur _ _ Hln Hh). done.
  - split; [done|]. intros _ m Hm. congruence.
  - split; [done|]. congruence.
Qed.

Lemma reachable_inv s : reachable s → play_inv s.
Proof.
  induction 1 as [md p1 p2|s pos s' _ IH Hmove].
  - apply play_inv_new.
  - by eapply play_inv_step.
Qed.

(** C8, as amended.  In every state reachable by [_ttt_do_move] calls
    that is finished with a symbol as winner, some winning line holds and
    every winning line that holds carries the winner's symbol: there may
    be two such lines, completed by the same last move, but never a line
    of the other symbol. *)
Theorem winner_owns_every_line s m :
  reachable s → finished s = true → winner s = Some (Win m) →
  has_line (board s) ∧
  ∀ ln m', ln ∈ TTT_WIN_LINES → line_holds (board s) ln m' → m' = m.
Proof.
  intros Hr Hf Hw. destruct (reachable_inv s Hr) as (_ & _ & Hdone).
  by apply Hdone.
Qed.

(** Both lines of [double_line_state] are X's. *)
Lemma winner_owns_every_line_witness :
  has_line (board double_line_state) ∧
  ∀ ln m', ln ∈ TTT_WIN_LINES →
    line_holds (board double_line_state) ln m' → m' = X.
Proof.
  apply (winner_owns_every_line double_line_state X).
  - apply double_line_reachable.
  - reflexivity.
  - reflexivity.
Defined.

(** *** Scores *)

Lemma ttt_finalize_scores s s' : _ttt_finalize s = Some s' → scores_le s s'.
Proof.
  unfold _ttt_finalize, scores_le.
  destruct (_ttt_check_winner (board s)) as [[w|]|]; simpl; [| |done].
  - intros [= <-]. destruct w; simpl; lia.
  - destruct (forallb _ _); intros [= <-]; simpl; lia.
Qed.

Lemma do_move_scores s pos s' : _ttt_do_move s pos = Some s' → scores_le s s'.
Proof.
  assert (Hrefl : ∀ s, scores_le s s) by (intros ?; unfold scores_le; lia).
  unfold _ttt_do_move. destruct (finished s); [intros [= <-]; apply Hrefl|].
  destruct (_ || _); [intros [= <-]; apply Hrefl|].
  destruct (py_get (board s) pos) as [[m|]|]; simpl;
    [intros [= <-]; apply Hrefl| |done].
  destruct (py_set (board s) pos (Some (current s))) as [b|]; simpl; [|done].
  destruct (_ttt_finalize (set_board b s)) as [s1|] eqn:E1; simpl; [|done].
  apply ttt_finalize_scores in E1.
  destruct (finished s1).
  - intros [= <-]. done.
  - intros E2%ttt_finalize_scores. unfold scores_le in *. simpl in *. lia.
Qed.

Lemma bot_turn_scores s k s' : _ttt_bot_turn s k = Some s' → scores_le s s'.
Proof.
  unfold _ttt_bot_turn. destruct (_ || _).
  { intros [= <-]. unfold scores_le; lia. }
  destruct ((filter _ (enumerate (board s))).*1) as [|e es].
  { intros [= <-]. unfold scores_le; lia. }
  destruct (_ !! _); simpl; [|done]. apply do_move_scores.
Qed.
End tictactoe_facts.

(** ** The session store *)

Section store_facts.
Context {K V : Type} `{EqDecision K}.
Implicit Types (st : list (K * V)) (k : K) (v : V).

Lemma store_get_set k k0 v st :
  store_get k (store_set k0 v st) = if decide (k0 = k) then Some v else store_get k st.
Proof.
  induction st as [|[k' v'] st IH]; simpl.
  - by destruct (decide (k0 = k)).
  - destruct (decide (k' = k0)) as [->|Hne]; simpl.
    + by destruct (decide (k0 = k)).
    + destruct (decide (k' = k)) as [->|]; [|done].
      by rewrite decide_False by done.
Qed.

Lemma store_get_pop k k0 st :
  store_get k (store_pop k0 st) = if decide (k0 = k) then None else store_get k st.
Proof.
  unfold store_pop. induction st as [|[k' v'] st IH]; simpl.
  - by destruct (decide (k0 = k)).
  - rewrite filter_cons. simpl. destruct (decide (k' ≠ k0)) as [Hne|Heq]; simpl.
    + rewrite IH. destruct (decide (k' = k)) as [->|]; [|done].
      by rewrite decide_False by done.
    + apply dec_stable in Heq as ->. rewrite IH.
      destruct (decide (k0 = k)); done.
Qed.

Lemma store_get_None_keys k st : store_get k st = None ↔ k ∉ st.*1.
Proof.
  induction st as [|[k' v'] st IH]; simpl.
  - split; [intros _; apply not_elem_of_nil|done].
  - rewrite not_elem_of_cons. destruct (decide (k' = k)) as [->|Hne].
    + split; [done|]. by intros [? _].
    + rewrite IH. split; [by split; [congruence|]|by intros [_ ?]].
Qed.

Lemma store_set_keys k v st :
  (store_set k v st).*1 =
    match store_get k st with Some _ => st.*1 | None => st.*1 ++ [k] end.
Proof.
  induction st as [|[k' v'] st IH]; [done|].
  cbn [store_set store_get]. destruct (decide (k' = k)) as [->|]; [done|].
  rewrite !fmap_cons, IH. by destruct (store_get k st).
Qed.

Lemma store_set_length k v st :
  length (store_set k v st) =
    match store_get k st with Some _ => length st | None => S (length st) end.
Proof.
  rewrite <- (length_fmap fst), store_set_keys.
  destruct (store_get k st); rewrite ?length_app, length_fmap; simpl; lia.
Qed.

Lemma store_set_NoDup k v st : NoDup st.*1 → NoDup (store_set k v st).*1.
Proof.
  intros Hnd. rewrite store_set_keys.
  destruct (store_get k st) eqn:E; [done|].
  apply NoDup_app. split_and!; [done| |apply NoDup_singleton].
  intros x Hx ->%list_elem_of_singleton. by apply store_get_None_keys in E.
Qed.

Lemma store_pop_head k v st : NoDup ((k, v) :: st).*1 → store_pop k ((k, v) :: st) = st.
Proof.
  simpl. intros [Hk _]%NoDup_cons. unfold store_pop.
  rewrite filter_cons. simpl. rewrite decide_False by (by intros ?).
  clear v. induction st as [|[k' v'] st IH]; [done|].
  simpl in Hk. apply not_elem_of_cons in Hk as [Hne Hk].
  rewrite filter_cons. simpl. rewrite decide_True by done. by rewrite IH.
Qed.

Lemma store_pop_NoDup k st : NoDup st.*1 → NoDup (store_pop k st).*1.
Proof.
  unfold store_pop. induction st as [|[k' v'] st IH]; simpl; [done|].
  intros [Hk Hnd]%NoDup_cons. rewrite filter_cons. simpl.
  destruct (decide (k' ≠ k)); [|by apply IH]. simpl.
  apply NoDup_cons. split; [|by apply IH].
  intros ([k2 v2] & -> & [_ Hin]%list_elem_of_filter)%list_elem_of_fmap.
  apply Hk. apply list_elem_of_fmap. by exists (k2, v2).
Qed.

(** What a save does to the store, by cases on the ceiling. *)
Lemma save_entry_cases k v st :
  NoDup st.*1 →
  let st1 := store_set k v st in
  (Z.of_nat (length st1) ≤ 500 → save_entry k v st = st1) ∧
  (500 < Z.of_nat (length st1) → ∃ old, st1 = old :: save_entry k v st) ∧
  (Z.of_nat (length st) ≤ 500 → Z.of_nat (length (save_entry k v st)) ≤ 500) ∧
  NoDup (save_entry k v st).*1.
Proof.
  intros Hnd st1. pose proof (store_set_NoDup k v st Hnd) as Hnd1. fold st1 in Hnd1.
  pose proof (store_set_length k v st) as Hlen. fold st1 in Hlen.
  unfold save_entry, evict_oldest. fold st1.
  case_bool_decide as Hbig.
  - destruct st1 as [|[k0 v0] rest] eqn:E; [simpl in Hbig; lia|].
    rewrite store_pop_head by done. split_and!.
    + lia.
    + intros _. by exists (k0, v0).
    + intros Hsmall. simpl in *. destruct (store_get k st); lia.
    + simpl in Hnd1. by apply NoDup_cons in Hnd1 as [_ ?].
  - split_and!; [done|lia| |done].
    intros Hsmall. lia.
Qed.

(** A record found after a save was just written or was there before. *)
Lemma save_entry_get k v st k' v' :
  store_get k' (save_entry k v st) = Some v' →
  (k' = k ∧ v' = v) ∨ (k' ≠ k ∧ store_get k' st = Some v').
Proof.
  unfold save_entry, evict_oldest. intros Hg.
  assert (store_get k' (store_set k v st) = Some v') as Hs.
  { case_bool_decide; [|done]. destruct (store_set k v st) as [|[k0 v0] rest]; [done|].
    rewrite store_get_pop in Hg. by destruct (decide (k0 = k')). }
  rewrite store_get_set in Hs. destruct (decide (k = k')) as [->|]; naive_solver.
Qed.
End store_facts.

(** *** Reading back a saved record *)

Section store_more.
Context {K V : Type} `{EqDecision K}.
Implicit Types (st : list (K * V)) (k : K) (v : V).

(** A save into a store within the ceiling can be read back. *)
Lemma save_entry_get_same k v st :
  NoDup st.*1 → Z.of_nat (length st) ≤ 500 →
  store_get k (save_entry k v st) = Some v.
Proof.
  intros Hnd Hlen.
  destruct (save_entry_cases k v st Hnd) as (Hkeep & Hdrop & _ & _).
  pose proof (store_get_set k k v st) as Hget. rewrite decide_True in Hget by done.
  destruct (decide (Z.of_nat (length (store_set k v st)) ≤ 500)) as [Hle|Hgt].
  { by rewrite Hkeep. }
  destruct Hdrop as [[k0 v0] Hst1]; [lia|].
  pose proof (store_set_length k v st) as Hl.
  pose proof (store_set_keys k v st) as Hkeys.
  destruct (store_get k st) eqn:Hold; [lia|].
  rewrite Hst1 in Hget. simpl in Hget.
  destruct (decide (k0 = k)) as [->|Hne]; [|done].
  apply store_get_None_keys in Hold. destruct Hold.
  rewrite Hst1 in Hkeys. destruct st as [|[k1 v1] st']; [simpl in *; lia|].
  simpl in Hkeys. injection Hkeys as <- _. left.
Qed.

(** A save never alters another record. *)
Lemma save_entry_get_other k v st k' v' :
  store_get k' (save_entry k v st) = Some v' → k' = k ∨ store_get k' st = Some v'.
Proof. intros [[-> _]|[_ ?]]%save_entry_get; auto. Qed.

(** Saving the oldest record of a store above the ceiling drops it. *)
Lemma save_entry_drops_itself k v v0 rest :
  NoDup ((k, v0) :: rest).*1 → 500 ≤ Z.of_nat (length rest) →
  store_get k (save_entry k v ((k, v0) :: rest)) = None.
Proof.
  intros Hnd Hlen. unfold save_entry. simpl. rewrite decide_True by done.
  unfold evict_oldest. rewrite bool_decide_eq_true_2 by (simpl; lia).
  rewrite store_pop_head.
  - apply store_get_None_keys. simpl in Hnd. by apply NoDup_cons in Hnd as [? _].
  - simpl in *. done.
Qed.
End store_more.

(** The start functions write the record under the fresh id and do not run
    the eviction check. *)
Lemma start_new_is_store_set w ss uuid :
  (∀ q, GAME_STORE (_start_new_state w ss uuid q).1 =
          store_set uuid (QuizGame q) (GAME_STORE w)) ∧
  (∀ t, GAME_STORE (_start_new_ttt_state w ss uuid t).1 =
          store_set uuid (TttGame t) (GAME_STORE w)) ∧
  (∀ c, GAME_STORE (_start_new_checkers_state w ss uuid c).1 =
          store_set uuid (CkGame c) (GAME_STORE w)).
Proof. done. Qed.

(** C9, as amended.  Each of the three save functions writes the record
    under the session's id and then runs the eviction check.  On a store
    with distinct keys: if the write leaves at most 500 entries nothing is
    removed; if it leaves more than 500, exactly one entry is removed, the
    first in the store's insertion order (an entry keeps its place when it
    is saved again, so this is the oldest-created one, not the least
    recently touched); and a store that held at most 500 entries before a
    save holds at most 500 after it. *)
Theorem save_evicts_first_inserted w ss uuid :
  (∀ q, GAME_STORE (_save_state w ss uuid q).1 =
          save_entry (save_id (game_id ss) uuid) (QuizGame q) (GAME_STORE w)) ∧
  (∀ t, GAME_STORE (_save_ttt_state w ss uuid t).1 =
          save_entry (save_id (ttt_id ss) uuid) (TttGame t) (GAME_STORE w)) ∧
  (∀ c, GAME_STORE (_save_checkers_state w ss uuid c).1 =
          save_entry (save_id (checkers_id ss) uuid) (CkGame c) (GAME_STORE w)) ∧
  ∀ k g, NoDup (GAME_STORE w).*1 →
    let st1 := store_set k g (GAME_STORE w) in
    let st2 := save_entry k g (GAME_STORE w) in
    (Z.of_nat (length st1) ≤ 500 → st2 = st1) ∧
    (500 < Z.of_nat (length st1) → ∃ old, st1 = old :: st2) ∧
    (Z.of_nat (length (GAME_STORE w)) ≤ 500 → Z.of_nat (length st2) ≤ 500) ∧
    NoDup st2.*1.
Proof.
  split_and!; try done. intros k g Hnd. by apply save_entry_cases.
Qed.

Lemma full_store_NoDup : NoDup full_store.*1.
Proof. apply (bool_decide_unpack _). by vm_compute. Qed.

(** Saving a 501st session into [full_store] drops session 0, the first
    inserted, and leaves 500 entries. *)
Lemma save_evicts_first_inserted_witness :
  let st1 := store_set (uuid_hex_of 500) fresh_game full_store in
  let st2 := save_entry (uuid_hex_of 500) fresh_game full_store in
  (∃ old, st1 = old :: st2) ∧ Z.of_nat (length st2) ≤ 500 ∧
  store_get (uuid_hex_of 0) st2 = None.
Proof.
  destruct (save_evicts_first_inserted (World full_store ∅ ∅ ∅)
              blue_session (uuid_hex_of 500)) as (_ & _ & _ & Hcases).
  destruct (Hcases (uuid_hex_of 500) fresh_game full_store_NoDup)
    as (_ & Hdrop & Hceil & _).
  split_and!.
  - apply Hdrop. by vm_compute.
  - apply Hceil. by vm_compute.
  - by vm_compute.
Defined.

(** Two runs against the claim as first stated.  In the first, sessions
    0..499 are saved in turn and session 0 saves once more; when session
    500 is saved, session 0, the most recently touched of the old entries,
    is dropped, and session 1, touched before it, stays.  In the second,
    502 sessions are started and one of them is saved: 501 entries remain. *)
Lemma save_eviction_counterexample :
  let st := run_saves ((λ k, (k, fresh_game)) <$> touch_history) [] in
  let st' := save_entry (uuid_hex_of 500) fresh_game st in
  (length st = 500%nat ∧
   length (store_set (uuid_hex_of 500) fresh_game st) = 501%nat ∧
   store_get (uuid_hex_of 0) st' = None ∧
   store_get (uuid_hex_of 1) st' = Some fresh_game ∧
   last_touch touch_history (uuid_hex_of 1) = Some 1%nat ∧
   last_touch touch_history (uuid_hex_of 0) = Some 500%nat) ∧
  (length overfull_store = 502%nat ∧
   length (save_entry (uuid_hex_of 0) fresh_game overfull_store) = 501%nat).
Proof. vm_compute. split_and!; reflexivity. Qed.

(** ** Room codes *)

Lemma try_codes_unused w rnd j n code :
  try_codes w rnd j n = Some code → code_in_use w code = false.
Proof.
  revert j. induction n as [|n IH]; intros j; simpl; [done|].
  destruct (code_in_use w (draw_code rnd j)) eqn:E; [apply IH|].
  by intros [= <-].
Qed.

Lemma code_in_use_false w code :
  code_in_use w code = false ↔
  ROOM_STORE w !! code = None ∧ CHECKERS_ROOM_STORE w !! code = None ∧
  TTT_ROOM_STORE w !! code = None.
Proof.
  unfold code_in_use. rewrite negb_false_iff, !andb_true_iff, !bool_decide_eq_true.
  tauto.
Qed.

Lemma draw_code_length rnd j : String.length (draw_code rnd j) = 6%nat.
Proof. reflexivity. Qed.

(** On the loop path the code is six characters long and in none of the
    three room stores. *)
Lemma new_room_code_loop_path w rnd uuid_hex code :
  try_codes w rnd 0 200 = Some code →
  _new_room_code w rnd uuid_hex = code ∧ String.length code = 6%nat ∧
  ROOM_STORE w !! code = None ∧ CHECKERS_ROOM_STORE w !! code = None ∧
  TTT_ROOM_STORE w !! code = None.
Proof.
  intros H. unfold _new_room_code. rewrite H. split; [done|]. split.
  - clear -H. revert H. generalize 0%nat at 1. generalize 200%nat.
    induction n as [|n IH]; intros j; simpl; [done|].
    destruct (code_in_use _ _); [apply IH|]. intros [= <-]. apply draw_code_length.
  - by apply try_codes_unused, code_in_use_false in H.
Qed.

Lemma try_codes_constant w rnd code j n :
  (∀ i, draw_code rnd i = code) → code_in_use w code = true →
  try_codes w rnd j n = None.
Proof.
  intros Hd Hu. revert j. induction n as [|n IH]; intros j; simpl; [done|].
  by rewrite Hd, Hu.
Qed.

(** C6, at a failing input.  In [colliding_world], when all 200 draws give
    the code [AAAAAA], which is in use, the loop is exhausted and the
    fallback returns the first six digits of the uuid in upper case without
    looking at the stores: here [ABCDEF], the code of an open quiz room. *)
Theorem new_room_code_fallback_collides :
  let code := _new_room_code colliding_world (λ _, 0%nat)
                "abcdef0123454000800000000000beef" in
  try_codes colliding_world (λ _, 0%nat) 0 200 = None ∧
  code = "ABCDEF" ∧ String.length code = 6%nat ∧
  is_Some (ROOM_STORE colliding_world !! code).
Proof.
  assert (try_codes colliding_world (λ _, 0%nat) 0 200 = None) as H.
  { by apply (try_codes_constant _ _ "AAAAAA"). }
  simpl. unfold _new_room_code. rewrite H. split; [done|]. split; [done|].
  split; [done|]. by eexists.
Qed.

(** ** The turn gate *)

(** C7. For a session bound to a checkers room, the gate denies exactly
    when the second party has not joined, the role is neither blue nor
    green, or it is not that role's ply; and when it denies,
    [checkers_click] returns the stores unchanged (only a flash message is
    added to the requester's cookie), so the stored state is as before. *)
Theorem checkers_click_gate_denied w ss uuid idx c r :
  _get_checkers_state w ss = Some (CkGame c) →
  (_get_checkers_room w ss).1 = Some r →
  (_checkers_room_can_play c (Some r) ss = false ↔
     joined r = false ∨
     (ck_room_role ss ≠ Some "b" ∧ ck_room_role ss ≠ Some "g") ∨
     ck_room_role ss ≠ Some (player_str (Checkers.turn c))) ∧
  (_checkers_room_can_play c (Some r) ss = false →
   checkers_click w ss uuid idx = Some (w, flash "Aguarde seu turno." ss) ∧
   _get_checkers_state w (flash "Aguarde seu turno." ss) = Some (CkGame c)).
Proof.
  intros Hst Hroom. split.
  - unfold _checkers_room_can_play, _checkers_room_ready.
    destruct (joined r); simpl; [|naive_solver].
    destruct (ck_room_role ss) as [role|]; [|naive_solver].
    case_bool_decide as Hrole; simpl.
    + rewrite bool_decide_eq_false. split.
      * intros Hne. right; right. congruence.
      * intros [?|[[H1 H2]|H3]]; [done| |congruence].
        destruct Hrole as [->| ->]; done.
    + split; [|done]. intros _. right; left.
      split; intros [= ->]; apply Hrole; auto.
  - intros Hdeny. split; [|done].
    unfold checkers_click. rewrite Hst. simpl.
    destruct (_get_checkers_room w ss) as [r' ss'] eqn:Hr. simpl in Hroom. subst r'.
    assert (ss' = ss) as ->.
    { unfold _get_checkers_room in Hr.
      destruct (truthy (ck_room_code ss)) as [code|]; [|congruence].
      destruct (CHECKERS_ROOM_STORE w !! code); congruence. }
    by rewrite Hdeny.
Qed.

(** Green clicks while it is blue's ply: nothing is stored. *)
Lemma checkers_click_gate_denied_witness :
  _checkers_room_can_play Checkers.chain_position
    (Some (Room (uuid_hex_of 7) true)) green_session = false ∧
  checkers_click paired_world green_session (uuid_hex_of 9) 40
  = Some (paired_world, flash "Aguarde seu turno." green_session).
Proof.
  destruct (checkers_click_gate_denied paired_world green_session (uuid_hex_of 9) 40
              Checkers.chain_position (Room (uuid_hex_of 7) true)) as [_ Hdeny].
  - by vm_compute.
  - by vm_compute.
  - split; [by vm_compute|]. apply Hdeny. by vm_compute.
Defined.

(** ** Scores *)

Lemma scores_le_refl g : scores_le g g.
Proof.
  destruct g; simpl; [done|unfold TicTacToe.scores_le|unfold Checkers.scores_le]; lia.
Qed.

Lemma scores_kept_refl w : scores_kept w w.
Proof. intros k g' H. exists g'. split; [done|apply scores_le_refl]. Qed.

Lemma scores_kept_same w w' : GAME_STORE w' = GAME_STORE w → scores_kept w w'.
Proof.
  intros E k g' H. rewrite E in H. exists g'. split; [done|apply scores_le_refl].
Qed.

Lemma scores_kept_save w k g g' :
  store_get k (GAME_STORE w) = Some g → scores_le g g' →
  scores_kept w (set_GAME_STORE (save_entry k g' (GAME_STORE w)) w).
Proof.
  intros Hg Hle k' g2 Hget. simpl in Hget.
  apply save_entry_get in Hget as [[-> ->]|[_ Hold]].
  - by exists g.
  - exists g2. split; [done|apply scores_le_refl].
Qed.

Lemma scores_kept_set w w' k g g' :
  GAME_STORE w' = store_set k g' (GAME_STORE w) →
  store_get k (GAME_STORE w) = Some g → scores_le g g' →
  scores_kept w w'.
Proof.
  intros E Hg Hle k' g2 Hget. rewrite E, store_get_set in Hget.
  destruct (decide (k = k')) as [<-|].
  - injection Hget as <-. by exists g.
  - exists g2. split; [done|apply scores_le_refl].
Qed.

Lemma get_checkers_state_inv w ss g :
  _get_checkers_state w ss = Some g →
  ∃ cid, truthy (checkers_id ss) = Some cid ∧ store_get cid (GAME_STORE w) = Some g.
Proof.
  unfold _get_checkers_state. destruct (truthy (checkers_id ss)) as [cid|]; [|done].
  simpl. eauto.
Qed.

Lemma get_ttt_state_inv w ss g :
  _get_ttt_state w ss = Some g →
  ∃ tid, truthy (ttt_id ss) = Some tid ∧ store_get tid (GAME_STORE w) = Some g.
Proof.
  unfold _get_ttt_state. destruct (truthy (ttt_id ss)) as [tid|]; [|done].
  simpl. eauto.
Qed.

Lemma get_checkers_room_id w ss :
  checkers_id (_get_checkers_room w ss).2 = checkers_id ss.
Proof.
  unfold _get_checkers_room. destruct (truthy _); [|done].
  by destruct (CHECKERS_ROOM_STORE w !! _).
Qed.

Lemma get_ttt_room_id w ss : ttt_id (_get_ttt_room w ss).2 = ttt_id ss.
Proof.
  unfold _get_ttt_room. destruct (truthy _); [|done].
  by destruct (TTT_ROOM_STORE w !! _).
Qed.

Lemma save_checkers_kept w ss ss' uuid cid c c' :
  truthy (checkers_id ss) = Some cid → checkers_id ss' = checkers_id ss →
  store_get cid (GAME_STORE w) = Some (CkGame c) →
  Checkers.scores_le c c' →
  scores_kept w (_save_checkers_state w ss' uuid c').1.
Proof.
  intros Hid Hss Hget Hle. unfold _save_checkers_state, save_id. simpl.
  rewrite Hss, Hid. simpl. by eapply scores_kept_save.
Qed.

Lemma save_ttt_kept w ss ss' uuid tid t t' :
  truthy (ttt_id ss) = Some tid → ttt_id ss' = ttt_id ss →
  store_get tid (GAME_STORE w) = Some (TttGame t) →
  TicTacToe.scores_le t t' →
  scores_kept w (_save_ttt_state w ss' uuid t').1.
Proof.
  intros Hid Hss Hget Hle. unfold _save_ttt_state, save_id. simpl.
  rewrite Hss, Hid. simpl. by eapply scores_kept_save.
Qed.

Lemma checkers_click_kept w ss uuid idx w' ss' :
  checkers_click w ss uuid idx = Some (w', ss') → scores_kept w w'.
Proof.
  unfold checkers_click.
  destruct (_get_checkers_state w ss) as [g|] eqn:Hst.
  2:{ intros [= <- <-]. apply scores_kept_refl. }
  apply get_checkers_state_inv in Hst as (cid & Hid & Hget).
  destruct g as [| |c]; simpl; [done..|].
  pose proof (get_checkers_room_id w ss) as Hss.
  destruct (_get_checkers_room w ss) as [r ss1]. simpl in Hss.
  destruct (_ && _).
  { intros [= <- <-]. apply scores_kept_refl. }
  destruct (Checkers._ck_click_cell c idx) as [c'|] eqn:Hc; simpl; [|done].
  apply click_cell_scores in Hc.
  intros [= <- <-]. by eapply save_checkers_kept.
Qed.

Lemma checkers_next_kept w ss uuid w' ss' :
  checkers_next w ss uuid = Some (w', ss') → scores_kept w w'.
Proof.
  unfold checkers_next.
  destruct (_get_checkers_state w ss) as [g|] eqn:Hst.
  2:{ intros [= <- <-]. apply scores_kept_refl. }
  apply get_checkers_state_inv in Hst as (cid & Hid & Hget).
  destruct g as [| |c]; simpl; [done..|].
  pose proof (get_checkers_room_id w ss) as Hss.
  destruct (_get_checkers_room w ss) as [r ss1]. simpl in Hss.
  destruct (_ && _).
  { intros [= <- <-]. apply scores_kept_refl. }
  intros [= <- <-]. eapply save_checkers_kept; [done..|].
  unfold Checkers.scores_le. simpl. lia.
Qed.

Lemma checkers_overlay_dismiss_kept w ss uuid w' ss' :
  checkers_overlay_dismiss w ss uuid = Some (w', ss') → scores_kept w w'.
Proof.
  unfold checkers_overlay_dismiss.
  destruct (_get_checkers_state w ss) as [g|] eqn:Hst.
  2:{ intros [= <- <-]. apply scores_kept_refl. }
  apply get_checkers_state_inv in Hst as (cid & Hid & Hget).
  destruct g as [| |c]; simpl; [done..|].
  intros [= <- <-]. eapply save_checkers_kept; [done..|].
  unfold Checkers.scores_le. simpl. lia.
Qed.

Lemma checkers_room_join_kept w ss code name w' ss' :
  checkers_room_join w ss code name = Some (w', ss') → scores_kept w w'.
Proof.
  unfold checkers_room_join. case_bool_decide.
  { intros [= <- <-]. apply scores_kept_refl. }
  destruct (CHECKERS_ROOM_STORE w !! code) as [r|].
  2:{ intros [= <- <-]. apply scores_kept_refl. }
  destruct (if bool_decide (room_game r = "") then None else _) as [g|] eqn:Hg.
  2:{ intros [= <- <-]. by apply scores_kept_same. }
  case_bool_decide; [done|].
  destruct g as [| |c]; simpl; [done..|].
  intros [= <- <-].
  eapply (scores_kept_set w _ (room_game r)); [done|done|].
  unfold scores_le, Checkers.scores_le. simpl. lia.
Qed.

Lemma tictactoe_move_kept w ss uuid pos k w' ss' :
  tictactoe_move w ss uuid pos k = Some (w', ss') → scores_kept w w'.
Proof.
  unfold tictactoe_move.
  destruct (_get_ttt_state w ss) as [g|] eqn:Hst.
  2:{ intros [= <- <-]. apply scores_kept_refl. }
  apply get_ttt_state_inv in Hst as (tid & Hid & Hget).
  destruct g as [|t|]; simpl; [done| |done].
  pose proof (get_ttt_room_id w ss) as Hss.
  destruct (_get_ttt_room w ss) as [r ss1]. simpl in Hss.
  destruct (_ && _).
  { intros [= <- <-]. apply scores_kept_refl. }
  destruct (TicTacToe._ttt_do_move t pos) as [t1|] eqn:H1; simpl; [|done].
  apply do_move_scores in H1.
  destruct (if bool_decide (r = None) then _ else _) as [t2|] eqn:H2; simpl; [|done].
  assert (TicTacToe.scores_le t1 t2) as H12.
  { case_bool_decide; [by apply bot_turn_scores in H2|].
    injection H2 as <-. unfold TicTacToe.scores_le; lia. }
  intros [= <- <-]. eapply save_ttt_kept; [done..|].
  unfold TicTacToe.scores_le in *. lia.
Qed.

Lemma tictactoe_next_kept w ss uuid w' ss' :
  tictactoe_next w ss uuid = Some (w', ss') → scores_kept w w'.
Proof.
  unfold tictactoe_next.
  destruct (_get_ttt_state w ss) as [g|] eqn:Hst.
  2:{ intros [= <- <-]. apply scores_kept_refl. }
  apply get_ttt_state_inv in Hst as (tid & Hid & Hget).
  destruct g as [|t|]; simpl; [done| |done].
  pose proof (get_ttt_room_id w ss) as Hss.
  destruct (_get_ttt_room w ss) as [r ss1]. simpl in Hss.
  destruct (_ && _).
  { intros [= <- <-]. apply scores_kept_refl. }
  intros [= <- <-]. eapply save_ttt_kept; [done..|].
  unfold TicTacToe.scores_le. simpl. lia.
Qed.

Lemma tictactoe_overlay_dismiss_kept w ss uuid w' ss' :
  tictactoe_overlay_dismiss w ss uuid = Some (w', ss') → scores_kept w w'.
Proof.
  unfold tictactoe_overlay_dismiss.
  destruct (_get_ttt_state w ss) as [g|] eqn:Hst.
  2:{ intros [= <- <-]. apply scores_kept_refl. }
  apply get_ttt_state_inv in Hst as (tid & Hid & Hget).
  destruct g as [|t|]; simpl; [done| |done].
  intros [= <- <-]. eapply save_ttt_kept; [done..|].
  unfold TicTacToe.scores_le. simpl. lia.
Qed.

Lemma tictactoe_room_join_kept w ss code name w' ss' :
  tictactoe_room_join w ss code name = Some (w', ss') → scores_kept w w'.
Proof.
  unfold tictactoe_room_join. case_bool_decide.
  { intros [= <- <-]. apply scores_kept_refl. }
  destruct (TTT_ROOM_STORE w !! code) as [r|].
  2:{ intros [= <- <-]. apply scores_kept_refl. }
  destruct (if bool_decide (room_game r = "") then None else _) as [g|] eqn:Hg.
  2:{ intros [= <- <-]. by apply scores_kept_same. }
  case_bool_decide; [done|].
  destruct g as [|t|]; simpl; [done| |done].
  intros [= <- <-].
  eapply (scores_kept_set w _ (room_game r)); [done|done|].
  unfold scores_le, TicTacToe.scores_le. simpl. lia.
Qed.

Lemma truthy_fixed o x : truthy o = Some x → truthy (Some x) = Some x.
Proof.
  unfold truthy. destruct o as [y|]; [|done].
  case_bool_decide as Hy; [done|]. intros [= <-]. by rewrite bool_decide_eq_false_2.
Qed.

(** What a next-round request that is let through stores, and under which
    id. *)
Lemma tictactoe_next_stores w ss uuid t :
  _get_ttt_state w ss = Some (TttGame t) →
  (_get_ttt_room w ss).1 = None ∨ ttt_room_role ss = Some "X" →
  ∃ tid ss',
    truthy (ttt_id ss) = Some tid ∧ ttt_id ss' = Some tid ∧
    tictactoe_next w ss uuid
    = Some (set_GAME_STORE
              (save_entry tid (TttGame (tictactoe_next_round t)) (GAME_STORE w)) w,
            ss').
Proof.
  intros Hst Hgate. unfold tictactoe_next. rewrite Hst.
  apply get_ttt_state_inv in Hst as (tid & Hid & _).
  cbn [as_ttt mbind option_bind].
  pose proof (get_ttt_room_id w ss) as Hss.
  assert (bool_decide ((_get_ttt_room w ss).1 ≠ None)
          && bool_decide (ttt_room_role (_get_ttt_room w ss).2 ≠ Some "X") = false)
    as Hpass.
  { unfold _get_ttt_room in *.
    destruct (truthy (ttt_room_code ss)) as [code|]; [|done].
    destruct (TTT_ROOM_STORE w !! code); [|done].
    destruct Hgate as [?|Hrole]; [done|]. cbn [fst snd].
    rewrite (bool_decide_eq_false_2 (ttt_room_role ss ≠ Some "X")) by (by intros ?).
    apply andb_false_r. }
  destruct (_get_ttt_room w ss) as [r ss1]. cbn [fst snd] in *. rewrite Hpass.
  exists tid, (set_ttt_id (Some tid) ss1). split; [done|]. split; [done|].
  unfold _save_ttt_state, save_id. by rewrite Hss, Hid.
Qed.

Lemma checkers_next_stores w ss uuid c :
  _get_checkers_state w ss = Some (CkGame c) →
  (_get_checkers_room w ss).1 = None ∨ ck_room_role ss = Some "b" →
  ∃ cid ss',
    truthy (checkers_id ss) = Some cid ∧ checkers_id ss' = Some cid ∧
    checkers_next w ss uuid
    = Some (set_GAME_STORE
              (save_entry cid (CkGame (checkers_next_round c)) (GAME_STORE w)) w,
            ss').
Proof.
  intros Hst Hgate. unfold checkers_next. rewrite Hst.
  apply get_checkers_state_inv in Hst as (cid & Hid & _).
  cbn [as_checkers mbind option_bind].
  pose proof (get_checkers_room_id w ss) as Hss.
  assert (bool_decide ((_get_checkers_room w ss).1 ≠ None)
          && bool_decide (ck_room_role (_get_checkers_room w ss).2 ≠ Some "b") = false)
    as Hpass.
  { unfold _get_checkers_room in *.
    destruct (truthy (ck_room_code ss)) as [code|]; [|done].
    destruct (CHECKERS_ROOM_STORE w !! code); [|done].
    destruct Hgate as [?|Hrole]; [done|]. cbn [fst snd].
    rewrite (bool_decide_eq_false_2 (ck_room_role ss ≠ Some "b")) by (by intros ?).
    apply andb_false_r. }
  destruct (_get_checkers_room w ss) as [r ss1]. cbn [fst snd] in *. rewrite Hpass.
  exists cid, (set_checkers_id (Some cid) ss1). split; [done|]. split; [done|].
  unfold _save_checkers_state, save_id. by rewrite Hss, Hid.
Qed.

(** C10. A cell click or move, a next round, an overlay dismissal or a
    room join leaves every record it keeps in the store with score fields
    at least as high as before: each record found afterwards was there
    before, is of the same kind, and none of [score_x], [score_o],
    [score_draw], [score_blue], [score_green] is lower.  A next-round
    request that is let through (outside a room, or from the host) saves,
    under the session's id, a record with the board, the side to move and
    the finished and winner fields reset and every score field as it was;
    in a store within the ceiling the session reads that record back. *)
Theorem scores_never_decrease :
  (∀ w ss uuid rq w' ss',
     handle w ss uuid rq = Some (w', ss') → scores_kept w w') ∧
  (∀ w ss uuid t,
     _get_ttt_state w ss = Some (TttGame t) →
     (_get_ttt_room w ss).1 = None ∨ ttt_room_role ss = Some "X" →
     ∃ tid w' ss' t',
       handle w ss uuid TttNext = Some (w', ss') ∧
       truthy (ttt_id ss) = Some tid ∧ ttt_id ss' = Some tid ∧
       GAME_STORE w' = save_entry tid (TttGame t') (GAME_STORE w) ∧
       (NoDup (GAME_STORE w).*1 → Z.of_nat (length (GAME_STORE w)) ≤ 500 →
        _get_ttt_state w' ss' = Some (TttGame t')) ∧
       TicTacToe.board t' = replicate 9 None ∧
       TicTacToe.current t' = TicTacToe.X ∧
       TicTacToe.finished t' = false ∧ TicTacToe.winner t' = None ∧
       TicTacToe.score_x t' = TicTacToe.score_x t ∧
       TicTacToe.score_o t' = TicTacToe.score_o t ∧
       TicTacToe.score_draw t' = TicTacToe.score_draw t) ∧
  (∀ w ss uuid c,
     _get_checkers_state w ss = Some (CkGame c) →
     (_get_checkers_room w ss).1 = None ∨ ck_room_role ss = Some "b" →
     ∃ cid w' ss' c',
       handle w ss uuid CkNext = Some (w', ss') ∧
       truthy (checkers_id ss) = Some cid ∧ checkers_id ss' = Some cid ∧
       GAME_STORE w' = save_entry cid (CkGame c') (GAME_STORE w) ∧
       (NoDup (GAME_STORE w).*1 → Z.of_nat (length (GAME_STORE w)) ≤ 500 →
        _get_checkers_state w' ss' = Some (CkGame c')) ∧
       Checkers.board c' = Checkers._new_checkers_board ∧
       Checkers.turn c' = Checkers.Blue ∧
       Checkers.selected c' = None ∧ Checkers.forced_from c' = None ∧
       Checkers.finished c' = false ∧ Checkers.winner c' = None ∧
       Checkers.score_blue c' = Checkers.score_blue c ∧
       Checkers.score_green c' = Checkers.score_green c).
Proof.
  split_and!.
  - intros w ss uuid [idx| | |code name|pos k| | |code name] w' ss'; simpl.
    + apply checkers_click_kept.
    + apply checkers_next_kept.
    + apply checkers_overlay_dismiss_kept.
    + apply checkers_room_join_kept.
    + apply tictactoe_move_kept.
    + apply tictactoe_next_kept.
    + apply tictactoe_overlay_dismiss_kept.
    + apply tictactoe_room_join_kept.
  - intros w ss uuid t Hst Hgate.
    destruct (tictactoe_next_stores w ss uuid t Hst Hgate) as (tid & ss' & Hid & Hid' & Hnext).
    eexists tid, _, ss', (tictactoe_next_round t).
    split; [exact Hnext|]. split_and!; try done.
    intros Hnd Hlen. unfold _get_ttt_state. rewrite Hid', (truthy_fixed _ _ Hid).
    cbn [mbind option_bind GAME_STORE set_GAME_STORE].
    by apply save_entry_get_same.
  - intros w ss uuid c Hst Hgate.
    destruct (checkers_next_stores w ss uuid c Hst Hgate) as (cid & ss' & Hid & Hid' & Hnext).
    eexists cid, _, ss', (checkers_next_round c).
    split; [exact Hnext|]. split_and!; try done.
    intros Hnd Hlen. unfold _get_checkers_state. rewrite Hid', (truthy_fixed _ _ Hid).
    cbn [mbind option_bind GAME_STORE set_GAME_STORE].
    by apply save_entry_get_same.
Qed.

(** Blue starts the next round of the paired match in the middle of a
    game: no record loses points, and the session reads back a record
    with the opening board, blue to move and the scores of before. *)
Lemma scores_never_decrease_witness :
  ∃ w' ss' c',
    handle paired_world blue_session (uuid_hex_of 9) CkNext = Some (w', ss') ∧
    scores_kept paired_world w' ∧
    _get_checkers_state w' ss' = Some (CkGame c') ∧
    Checkers.board Checkers.chain_position ≠ Checkers._new_checkers_board ∧
    Checkers.board c' = Checkers._new_checkers_board ∧
    Checkers.turn c' = Checkers.Blue ∧
    Checkers.score_blue c' = Checkers.score_blue Checkers.chain_position ∧
    Checkers.score_green c' = Checkers.score_green Checkers.chain_position.
Proof.
  destruct scores_never_decrease as (Hkept & _ & Hnext).
  destruct (Hnext paired_world blue_session (uuid_hex_of 9) Checkers.chain_position)
    as (cid & w' & ss' & c' & Hh & _ & _ & _ & Hback & Hb & Ht & _ & _ & _ & _ & Hsb & Hsg).
  - by vm_compute.
  - right. reflexivity.
  - exists w', ss', c'. split; [exact Hh|]. split; [by eapply Hkept|].
    split; [apply Hback|].
    + apply (bool_decide_unpack _). by vm_compute.
    + by vm_compute.
    + split_and!; [|exact Hb|exact Ht|exact Hsb|exact Hsg].
      intros Heq. by vm_compute in Heq.
Defined.

(** * Further properties *)

(** ** Further properties of the checkers engine *)

Section checkers_more.
Import Checkers.

Lemma dir_moves_step_elem b r c pl dr dc ms t :
  dir_moves b r c pl false (dr, dc) = Some ms → (t, false) ∈ ms →
  _ck_in_bounds (r + dr) (c + dc) = true ∧
  py_get b ((r + dr) * 8 + (c + dc)) = Some Empty ∧
  t = (r + dr) * 8 + (c + dc).
Proof.
  unfold dir_moves.
  set (caps := if _ck_in_bounds (r + 2 * dr) (c + 2 * dc) && _ck_in_bounds (r + dr) (c + dc) then _ else _).
  destruct caps as [cl|] eqn:Hcaps; simpl; [|done].
  assert (Hcl : (t, false) ∉ cl).
  { subst caps. intros Hin.
    destruct (_ && _); [|injection Hcaps as <-; by apply elem_of_nil in Hin].
    simpl in Hcaps.
    destruct (py_get b ((r + dr) * 8 + (c + dc))) as [p1|]; simpl in Hcaps; [|done].
    destruct (_ck_is_enemy p1 pl); [|injection Hcaps as <-; by apply elem_of_nil in Hin].
    destruct (py_get b ((r + 2 * dr) * 8 + (c + 2 * dc))) as [p2|];
      simpl in Hcaps; [|done].
    injection Hcaps as <-. case_bool_decide; [|by apply elem_of_nil in Hin].
    apply list_elem_of_singleton in Hin. done. }
  destruct (_ck_in_bounds (r + dr) (c + dc)) eqn:H1.
  2:{ intros [= <-] Hin. by destruct Hcl. }
  destruct (py_get b ((r + dr) * 8 + (c + dc))) as [p1|] eqn:Hp1; simpl; [|done].
  intros [= <-] [Hin|Hin]%elem_of_app; [by destruct Hcl|].
  case_bool_decide as He; [|by apply elem_of_nil in Hin].
  apply list_elem_of_singleton in Hin as [= ->]. by subst p1.
Qed.

(** A listed step goes to the empty diagonal neighbour. *)
Lemma steps_elem b i l mv :
  steps b i = Some l → mv ∈ l →
  ∃ p dr dc,
    py_get b i = Some p ∧ p ≠ Empty ∧ (dr, dc) ∈ _ck_dirs p ∧
    let r := i `div` 8 in let c := i `mod` 8 in
    _ck_in_bounds (r + dr) (c + dc) = true ∧
    py_get b ((r + dr) * 8 + (c + dc)) = Some Empty ∧
    mv = ((r + dr) * 8 + (c + dc), false).
Proof.
  unfold steps, _ck_piece_moves.
  destruct (py_get b i) as [p|] eqn:Hp; simpl; [|done].
  case_bool_decide as Hemp; simpl.
  { intros [= <-] ?%elem_of_nil. done. }
  destruct (mapM _ (_ck_dirs p)) as [per_dir|] eqn:Hm; simpl; [|done].
  intros [= <-] [Hcap Hin]%list_elem_of_filter.
  destruct mv as [t cap]. simpl in Hcap. subst cap.
  apply list_elem_of_In, in_concat in Hin
    as (ms & Hms%list_elem_of_In & Hmv%list_elem_of_In).
  apply mapM_Some_1 in Hm.
  apply list_elem_of_lookup in Hms as [k Hk].
  destruct (Forall2_lookup_r _ _ _ _ _ Hm Hk) as ([dr dc] & Hd & Hdm).
  exists p, dr, dc.
  split; [done|]. split; [done|]. split; [by eapply list_elem_of_lookup_2|].
  destruct (dir_moves_step_elem _ _ _ _ _ _ _ _ Hdm Hmv) as (? & ? & ->). done.
Qed.

Lemma cell_div_mod R C :
  0 ≤ C < 8 → (R * 8 + C) `div` 8 = R ∧ (R * 8 + C) `mod` 8 = C.
Proof.
  intros HC. split.
  - rewrite Z.add_comm, Z.div_add by lia. rewrite Z.div_small by lia. lia.
  - rewrite Z.add_comm, Z.mod_add by lia. by rewrite Z.mod_small by lia.
Qed.

Lemma enemy_owner q o :
  _ck_is_enemy q o = true ↔ _ck_piece_owner q ≠ None ∧ _ck_piece_owner q ≠ o.
Proof.
  unfold _ck_is_enemy. by rewrite andb_true_iff, !bool_decide_eq_true.
Qed.

Lemma crown_owner p : _ck_piece_owner (crown p) = _ck_piece_owner p.
Proof. by destruct p. Qed.

(** Everything a listed capture says about the board, and the board it
    leads to. *)
Lemma capture_facts b i t l :
  length b = 64%nat → 0 ≤ i < 64 →
  captures b i = Some l → (t, true) ∈ l →
  ∃ p q dr dc,
    let m := (i `div` 8 + dr) * 8 + (i `mod` 8 + dc) in
    b !! Z.to_nat i = Some p ∧ p ≠ Empty ∧ (dr, dc) ∈ _ck_dirs p ∧
    t = (i `div` 8 + 2 * dr) * 8 + (i `mod` 8 + 2 * dc) ∧
    _ck_in_bounds (i `div` 8 + 2 * dr) (i `mod` 8 + 2 * dc) = true ∧
    0 ≤ t < 64 ∧ 0 ≤ m < 64 ∧ m ≠ t ∧ m ≠ i ∧ t ≠ i ∧
    b !! Z.to_nat t = Some Empty ∧ b !! Z.to_nat m = Some q ∧
    _ck_is_enemy q (_ck_piece_owner p) = true ∧
    move_piece b i t true =
      Some (<[Z.to_nat m:=Empty]>
              (<[Z.to_nat t:=if promotes p t then crown p else p]>
                 (<[Z.to_nat i:=Empty]> b)), promotes p t).
Proof.
  intros Hb Hi Hc Hin.
  destruct (captures_elem _ _ _ _ Hc Hin)
    as (p & dr & dc & Hp & Hne & Hd & H2 & H1 & (q & Hq & Hen) & Ht & [= Heq]).
  destruct (move_piece_capture _ _ _ _ _ Hb Hi Hp Hc Hin)
    as (m' & _ & _ & _ & _ & _ & Hmove).
  pose proof (dirs_unit _ _ _ Hd) as [Hdr Hdc].
  destruct (jump_geometry i dr dc Hi Hdr Hdc H2)
    as (Htr & Hmr & _ & _ & ? & ? & ?).
  rewrite <- Heq in *.
  exists p, q, dr, dc. cbv zeta.
  rewrite py_get_nonneg in Hp, Hq, Ht by lia.
  split_and!; try done; try lia.
  (* the jumped cell of [move_piece] is [m] *)
  clear Hmove. unfold move_piece.
  rewrite py_get_nonneg by lia. rewrite Hp. simpl.
  destruct (cell_div_mod (i `div` 8 + 2 * dr) (i `mod` 8 + 2 * dc)) as [Hdiv Hmod].
  { unfold _ck_in_bounds in H2. apply andb_true_iff in H2 as [_ H2].
    by apply bool_decide_eq_true in H2. }
  rewrite <- Heq in Hdiv, Hmod.
  assert (Hmid : (i `div` 8 + t `div` 8) `div` 2 * 8 + (i `mod` 8 + t `mod` 8) `div` 2
                 = (i `div` 8 + dr) * 8 + (i `mod` 8 + dc)).
  { rewrite Hdiv, Hmod.
    replace (i `div` 8 + (i `div` 8 + 2 * dr)) with ((i `div` 8 + dr) * 2) by lia.
    replace (i `mod` 8 + (i `mod` 8 + 2 * dc)) with ((i `mod` 8 + dc) * 2) by lia.
    by rewrite !Z.div_mul by lia. }
  rewrite py_set_nonneg by lia. simpl.
  rewrite py_set_nonneg by (rewrite length_insert; lia). simpl.
  rewrite Hmid. unfold promotes.
  destruct (bool_decide (p = BlueMan) && bool_decide (t `div` 8 = 0)) eqn:Eb; simpl.
  { apply andb_true_iff in Eb as [->%bool_decide_eq_true _]. simpl.
    rewrite py_set_nonneg by (rewrite !length_insert; lia). simpl.
    rewrite py_set_nonneg by (rewrite !length_insert; lia). simpl.
    by rewrite list_insert_insert_eq. }
  destruct (bool_decide (p = GreenMan) && bool_decide (t `div` 8 = 7)) eqn:Eg; simpl.
  { apply andb_true_iff in Eg as [->%bool_decide_eq_true _]. simpl.
    rewrite py_set_nonneg by (rewrite !length_insert; lia). simpl.
    rewrite py_set_nonneg by (rewrite !length_insert; lia). simpl.
    by rewrite list_insert_insert_eq. }
  rewrite py_set_nonneg by (rewrite !length_insert; lia). done.
Qed.

(** The same for a listed step. *)
Lemma step_facts b i t l :
  length b = 64%nat → 0 ≤ i < 64 →
  steps b i = Some l → (t, false) ∈ l →
  ∃ p dr dc,
    b !! Z.to_nat i = Some p ∧ p ≠ Empty ∧ (dr, dc) ∈ _ck_dirs p ∧
    t = (i `div` 8 + dr) * 8 + (i `mod` 8 + dc) ∧
    _ck_in_bounds (i `div` 8 + dr) (i `mod` 8 + dc) = true ∧
    0 ≤ t < 64 ∧ t ≠ i ∧
    b !! Z.to_nat t = Some Empty ∧
    move_piece b i t false =
      Some (<[Z.to_nat t:=if promotes p t then crown p else p]>
              (<[Z.to_nat i:=Empty]> b), promotes p t).
Proof.
  intros Hb Hi Hc Hin.
  destruct (steps_elem _ _ _ _ Hc Hin)
    as (p & dr & dc & Hp & Hne & Hd & H1 & Ht & [= Heq]).
  pose proof (dirs_unit _ _ _ Hd) as [Hdr Hdc].
  pose proof (in_bounds_cell _ _ H1) as Htr.
  assert (t ≠ i) as Hti.
  { pose proof (Z.div_mod i 8 ltac:(lia)). lia. }
  rewrite <- Heq in *.
  rewrite py_get_nonneg in Hp, Ht by lia.
  exists p, dr, dc. split_and!; try done; try lia.
  unfold move_piece. rewrite py_get_nonneg by lia. rewrite Hp. simpl.
  rewrite py_set_nonneg by lia. simpl.
  rewrite py_set_nonneg by (rewrite length_insert; lia). simpl.
  unfold promotes.
  destruct (bool_decide (p = BlueMan) && bool_decide (t `div` 8 = 0)) eqn:Eb; simpl.
  { apply andb_true_iff in Eb as [->%bool_decide_eq_true _]. simpl.
    rewrite py_set_nonneg by (rewrite !length_insert; lia). simpl.
    by rewrite list_insert_insert_eq. }
  destruct (bool_decide (p = GreenMan) && bool_decide (t `div` 8 = 7)) eqn:Eg; simpl.
  { apply andb_true_iff in Eg as [->%bool_decide_eq_true _]. simpl.
    rewrite py_set_nonneg by (rewrite !length_insert; lia). simpl.
    by rewrite list_insert_insert_eq. }
  done.
Qed.

Lemma collect_all_Some f idxs acc m i :
  collect f idxs acc = Some m → i ∈ idxs → is_Some (f i).
Proof.
  revert acc. induction idxs as [|j idxs IH]; intros acc; simpl.
  - by intros _ ?%elem_of_nil.
  - destruct (f j) as [lj|] eqn:Hj; simpl; [|done].
    intros Hc [->|Hin]%elem_of_cons; [by rewrite Hj|by eapply IH].
Qed.

(** The mapping lists captures only, or, with no chain and no capture
    anywhere, steps only. *)
Lemma legal_moves_entries s m :
  _ck_legal_moves s = Some m →
  (∀ i l, m !! i = Some l →
     i ∈ piece_indexes s ∧ l ≠ [] ∧ captures (board s) i = Some l) ∨
  (forced_from s = None ∧
   (∀ j, j ∈ piece_indexes s → captures (board s) j = Some []) ∧
   ∀ i l, m !! i = Some l →
     i ∈ piece_indexes s ∧ l ≠ [] ∧ steps (board s) i = Some l).
Proof.
  unfold _ck_legal_moves.
  destruct (collect (captures (board s)) (piece_indexes s) ∅) as [cm|] eqn:Hcm;
    simpl; [|done].
  assert (Hcaps : ∀ i l, cm !! i = Some l →
    i ∈ piece_indexes s ∧ l ≠ [] ∧ captures (board s) i = Some l).
  { intros i l Hl. destruct (collect_lookup _ _ _ _ _ _ Hcm Hl) as [Hacc|(? & ? & ?)];
      [by rewrite lookup_empty in Hacc|done]. }
  case_bool_decide as Hne.
  { intros [= <-]. by left. }
  subst cm.
  case_bool_decide as Hff.
  { intros [= <-]. left. intros i l. by rewrite lookup_empty. }
  intros Hsm. right. split; [done|]. split.
  - intros j Hj. destruct (collect_all_Some _ _ _ _ _ Hcm Hj) as [[|c cs] Hc]; [done|].
    destruct (collect_elem _ _ _ _ _ _ _ Hcm Hj Hc) as [? Hl].
    by rewrite lookup_empty in Hl.
  - intros i l Hl. destruct (collect_lookup _ _ _ _ _ _ Hsm Hl) as [Hacc|(? & ? & ?)];
      [by rewrite lookup_empty in Hacc|done].
Qed.

Lemma owned_indexes_owner b t i :
  i ∈ owned_indexes b t →
  ∃ p, 0 ≤ i ∧ b !! Z.to_nat i = Some p ∧ _ck_piece_owner p = Some t.
Proof.
  unfold owned_indexes, enumerate.
  intros ([j p] & -> & [Ho Hin]%list_elem_of_filter)%list_elem_of_fmap.
  apply list_elem_of_lookup in Hin as [k Hk].
  apply list_lookup_imap_Some in Hk as (x & Hx & [= -> <-]).
  exists p. simpl in *. rewrite Nat2Z.id. split_and!; [lia|done|done].
Qed.

Lemma all_true_or_false (l : list move) cap t :
  Forall (λ mv : move, mv.2 = cap) l → ∀ c, (t, c) ∈ l → c = cap.
Proof. rewrite Forall_forall. intros H c Hin. apply (H _ Hin). Qed.

Lemma steps_all_false b i l :
  steps b i = Some l → Forall (λ mv : move, mv.2 = false) l.
Proof.
  unfold steps. destruct (_ck_piece_moves b i false); simpl; [|done].
  intros [= <-]. apply Forall_forall. by intros mv [? _]%list_elem_of_filter.
Qed.

Lemma filter_length_insert {A} (P : A → Prop) `{∀ x, Decision (P x)}
    (l : list A) k old x :
  l !! k = Some old →
  (length (filter P (<[k:=x]> l)) + (if decide (P old) then 1 else 0)
   = length (filter P l) + (if decide (P x) then 1 else 0))%nat.
Proof.
  intros Hk. pose proof (lookup_lt_Some _ _ _ Hk) as Hlt.
  rewrite insert_take_drop by done.
  rewrite <- (take_drop_middle l k old Hk) at 3.
  rewrite !filter_app, !filter_cons, !length_app.
  destruct (decide (P old)), (decide (P x)); simpl; lia.
Qed.

Lemma count_owned_insert pl b k old x :
  b !! k = Some old →
  (count_owned pl (<[k:=x]> b)
   + (if decide (_ck_piece_owner old = Some pl) then 1 else 0)
   = count_owned pl b
   + (if decide (_ck_piece_owner x = Some pl) then 1 else 0))%nat.
Proof.
  intros Hk. unfold count_owned.
  exact (filter_length_insert (λ p, _ck_piece_owner p = Some pl) b k old x Hk).
Qed.

(** A listed move: where it starts, where it lands and why it is listed. *)
Lemma listed_move s m i l t (cap : bool) :
  wf s → _ck_legal_moves s = Some m → m !! i = Some l → (t, cap) ∈ l →
  0 ≤ i < 64 ∧
  (if cap return Prop then captures (board s) i = Some l
   else steps (board s) i = Some l ∧ forced_from s = None ∧
        ∀ j, j ∈ piece_indexes s → captures (board s) j = Some []) ∧
  ∃ p, board s !! Z.to_nat i = Some p ∧
       (forced_from s = None → _ck_piece_owner p = Some (turn s)).
Proof.
  intros Hwf Hm Hl Hin.
  assert (Hown : i ∈ piece_indexes s → 0 ≤ i < 64 ∧
    ∃ p, board s !! Z.to_nat i = Some p ∧
         (forced_from s = None → _ck_piece_owner p = Some (turn s))).
  { intros Hi. pose proof (piece_indexes_range s i Hwf Hi) as Hr. split; [done|].
    unfold piece_indexes in Hi. destruct (forced_from s) as [f|] eqn:Hf.
    - destruct (lookup_lt_is_Some_2 (board s) (Z.to_nat i)) as [p Hp].
      { destruct Hwf as [Hb _]. lia. }
      by exists p.
    - apply owned_indexes_owner in Hi as (p & _ & Hp & Ho). by exists p. }
  destruct (legal_moves_entries s m Hm) as [Hcaps|(Hff & Hnone & Hsteps)].
  - destruct (Hcaps i l Hl) as (Hi & Hne & Hc).
    pose proof (all_true_or_false l true t (captures_all_true _ _ _ Hc) cap Hin) as ->.
    destruct (Hown Hi) as [? ?]. done.
  - destruct (Hsteps i l Hl) as (Hi & Hne & Hc).
    pose proof (all_true_or_false l false t (steps_all_false _ _ _ Hc) cap Hin) as ->.
    destruct (Hown Hi) as [? ?]. done.
Qed.

(** The board a listed move leads to. *)
Lemma listed_move_board s m i l t (cap : bool) :
  wf s → _ck_legal_moves s = Some m → m !! i = Some l → (t, cap) ∈ l →
  ∃ p pl b',
    0 ≤ i < 64 ∧ 0 ≤ t < 64 ∧ t ≠ i ∧
    board s !! Z.to_nat i = Some p ∧ _ck_piece_owner p = Some pl ∧
    board s !! Z.to_nat t = Some Empty ∧
    (dark i → dark t) ∧
    move_piece (board s) i t cap = Some (b', promotes p t) ∧
    length b' = 64%nat ∧
    b' !! Z.to_nat t = Some (if promotes p t then crown p else p) ∧
    (∀ j x, b' !! j = Some x → x ≠ Empty →
       j = Z.to_nat t ∨ board s !! j = Some x) ∧
    count_owned pl b' = count_owned pl (board s) ∧
    (count_owned (other pl) b' + (if cap then 1 else 0)
     = count_owned (other pl) (board s))%nat.
Proof.
  intros Hwf Hm Hl Hin.
  destruct (listed_move s m i l t cap Hwf Hm Hl Hin) as (Hi & Hwhy & _).
  destruct Hwf as [Hb _].
  assert (Hdark : ∀ k dr dc, (dr = -1 ∨ dr = 1) → (dc = -1 ∨ dc = 1) →
    0 ≤ i `mod` 8 + k * dc < 8 →
    t = (i `div` 8 + k * dr) * 8 + (i `mod` 8 + k * dc) → dark i → dark t).
  { intros k dr dc Hdr Hdc Hc ->. unfold dark.
    destruct (cell_div_mod (i `div` 8 + k * dr) (i `mod` 8 + k * dc) Hc) as [-> ->].
    intros Hd. rewrite <- Hd.
    destruct Hdr as [-> | ->], Hdc as [-> | ->].
    - replace (i `div` 8 + k * -1 + (i `mod` 8 + k * -1))
        with (i `div` 8 + i `mod` 8 + (- k) * 2) by lia. apply Z.mod_add. lia.
    - f_equal. lia.
    - f_equal. lia.
    - replace (i `div` 8 + k * 1 + (i `mod` 8 + k * 1))
        with (i `div` 8 + i `mod` 8 + k * 2) by lia. apply Z.mod_add. lia. }
  destruct cap.
  - destruct (capture_facts _ _ _ _ Hb Hi Hwhy Hin)
      as (p & q & dr & dc & Hp & Hne & Hd & Ht & H2 & Htr & Hmr & Hmt & Hmi & Hti
          & Hte & Hq & Hen & Hmove).
    set (mid := (i `div` 8 + dr) * 8 + (i `mod` 8 + dc)) in *.
    set (ld := if promotes p t then crown p else p) in *.
    destruct (_ck_piece_owner p) as [pl|] eqn:Ho; [|by destruct p].
    assert (_ck_piece_owner ld = Some pl) as Hld.
    { unfold ld. destruct (promotes p t); [by rewrite crown_owner|done]. }
    apply enemy_owner in Hen as [Hq1 Hq2].
    assert (_ck_piece_owner q = Some (other pl)) as Hqo.
    { destruct (_ck_piece_owner q) as [[]|], pl; done. }
    exists p, pl, (<[Z.to_nat mid:=Empty]> (<[Z.to_nat t:=ld]> (<[Z.to_nat i:=Empty]> (board s)))).
    pose proof (dirs_unit _ _ _ Hd) as [Hdr Hdc].
    split_and!; try done; try lia.
    + apply (Hdark 2 dr dc); try done.
      unfold _ck_in_bounds in H2. apply andb_true_iff in H2 as [_ H2].
      by apply bool_decide_eq_true in H2.
    + by rewrite !length_insert.
    + rewrite list_lookup_insert_ne by lia.
      apply list_lookup_insert_eq. rewrite length_insert. lia.
    + intros j x Hj Hx.
      destruct (decide (j = Z.to_nat mid)) as [->|Hjm].
      { rewrite list_lookup_insert_eq in Hj by (rewrite !length_insert; lia). congruence. }
      rewrite list_lookup_insert_ne in Hj by done.
      destruct (decide (j = Z.to_nat t)) as [->|Hjt]; [by left|].
      rewrite list_lookup_insert_ne in Hj by done.
      destruct (decide (j = Z.to_nat i)) as [->|Hji].
      { rewrite list_lookup_insert_eq in Hj by lia. congruence. }
      rewrite list_lookup_insert_ne in Hj by done. by right.
    + pose proof (count_owned_insert pl (board s) (Z.to_nat i) p Empty Hp) as E1.
      pose proof (count_owned_insert pl (<[Z.to_nat i:=Empty]> (board s))
                    (Z.to_nat t) Empty ld) as E2.
      rewrite list_lookup_insert_ne in E2 by lia. specialize (E2 Hte).
      pose proof (count_owned_insert pl
                    (<[Z.to_nat t:=ld]> (<[Z.to_nat i:=Empty]> (board s)))
                    (Z.to_nat mid) q Empty) as E3.
      rewrite !list_lookup_insert_ne in E3 by lia. specialize (E3 Hq).
      rewrite Ho, Hld, Hqo in *. simpl in *.
      rewrite ?decide_True in * by done.
      rewrite ?decide_False in * by (by destruct pl).
      lia.
    + pose proof (count_owned_insert (other pl) (board s) (Z.to_nat i) p Empty Hp) as E1.
      pose proof (count_owned_insert (other pl) (<[Z.to_nat i:=Empty]> (board s))
                    (Z.to_nat t) Empty ld) as E2.
      rewrite list_lookup_insert_ne in E2 by lia. specialize (E2 Hte).
      pose proof (count_owned_insert (other pl)
                    (<[Z.to_nat t:=ld]> (<[Z.to_nat i:=Empty]> (board s)))
                    (Z.to_nat mid) q Empty) as E3.
      rewrite !list_lookup_insert_ne in E3 by lia. specialize (E3 Hq).
      rewrite Ho, Hld, Hqo in *. simpl in *.
      rewrite ?decide_True in * by done.
      rewrite ?decide_False in * by (by destruct pl).
      lia.
  - destruct Hwhy as (Hst & _ & _).
    destruct (step_facts _ _ _ _ Hb Hi Hst Hin)
      as (p & dr & dc & Hp & Hne & Hd & Ht & H1 & Htr & Hti & Hte & Hmove).
    set (ld := if promotes p t then crown p else p) in *.
    destruct (_ck_piece_owner p) as [pl|] eqn:Ho; [|by destruct p].
    assert (_ck_piece_owner ld = Some pl) as Hld.
    { unfold ld. destruct (promotes p t); [by rewrite crown_owner|done]. }
    exists p, pl, (<[Z.to_nat t:=ld]> (<[Z.to_nat i:=Empty]> (board s))).
    pose proof (dirs_unit _ _ _ Hd) as [Hdr Hdc].
    split_and!; try done; try lia.
    + apply (Hdark 1 dr dc); try done; [|lia].
      unfold _ck_in_bounds in H1. apply andb_true_iff in H1 as [_ H1].
      apply bool_decide_eq_true in H1. lia.
    + by rewrite !length_insert.
    + apply list_lookup_insert_eq. rewrite length_insert. lia.
    + intros j x Hj Hx.
      destruct (decide (j = Z.to_nat t)) as [->|Hjt]; [by left|].
      rewrite list_lookup_insert_ne in Hj by done.
      destruct (decide (j = Z.to_nat i)) as [->|Hji].
      { rewrite list_lookup_insert_eq in Hj by lia. congruence. }
      rewrite list_lookup_insert_ne in Hj by done. by right.
    + pose proof (count_owned_insert pl (board s) (Z.to_nat i) p Empty Hp) as E1.
      pose proof (count_owned_insert pl (<[Z.to_nat i:=Empty]> (board s))
                    (Z.to_nat t) Empty ld) as E2.
      rewrite list_lookup_insert_ne in E2 by lia. specialize (E2 Hte).
      rewrite Ho, Hld in *. simpl in *.
      rewrite ?decide_True in * by done.
      rewrite ?decide_False in * by (by destruct pl).
      lia.
    + pose proof (count_owned_insert (other pl) (board s) (Z.to_nat i) p Empty Hp) as E1.
      pose proof (count_owned_insert (other pl) (<[Z.to_nat i:=Empty]> (board s))
                    (Z.to_nat t) Empty ld) as E2.
      rewrite list_lookup_insert_ne in E2 by lia. specialize (E2 Hte).
      rewrite Ho, Hld in *. simpl in *.
      rewrite ?decide_False in * by (by destruct pl).
      lia.
Qed.

(** X1. On a well-formed state every move [(t, cap)] that
    [_ck_legal_moves] lists for cell [i] starts on a piece (of the side to
    move, when no chain is pending), goes along one of the piece's
    directions by one cell for a step and two for a capture, and lands on
    an empty cell of the board; a capture jumps a piece of the other side,
    and a step is listed only when no candidate piece has a capture. *)
Theorem legal_move_shape s m i l t (cap : bool) :
  wf s → _ck_legal_moves s = Some m → m !! i = Some l → (t, cap) ∈ l →
  0 ≤ i < 64 ∧ 0 ≤ t < 64 ∧
  ∃ p dr dc,
    board s !! Z.to_nat i = Some p ∧ p ≠ Empty ∧
    (forced_from s = None → _ck_piece_owner p = Some (turn s)) ∧
    (dr, dc) ∈ _ck_dirs p ∧
    board s !! Z.to_nat t = Some Empty ∧
    (cap = true →
       t `div` 8 = i `div` 8 + 2 * dr ∧ t `mod` 8 = i `mod` 8 + 2 * dc ∧
       ∃ q, board s !! Z.to_nat ((i `div` 8 + dr) * 8 + (i `mod` 8 + dc)) = Some q ∧
            _ck_piece_owner q ≠ None ∧ _ck_piece_owner q ≠ _ck_piece_owner p) ∧
    (cap = false →
       t `div` 8 = i `div` 8 + dr ∧ t `mod` 8 = i `mod` 8 + dc ∧
       ∀ j, j ∈ piece_indexes s → captures (board s) j = Some []).
Proof.
  intros Hwf Hm Hl Hin.
  destruct (listed_move s m i l t cap Hwf Hm Hl Hin) as (Hi & Hwhy & p0 & Hp0 & Hown).
  pose proof Hwf as [Hb _]. split; [done|].
  destruct cap.
  - destruct (capture_facts _ _ _ _ Hb Hi Hwhy Hin)
      as (p & q & dr & dc & Hp & Hne & Hd & Ht & H2 & Htr & Hmr & _ & _ & _
          & Hte & Hq & Hen & _).
    assert (p0 = p) as -> by congruence.
    split; [done|]. exists p, dr, dc. split_and!; try done.
    intros _. apply enemy_owner in Hen.
    destruct (cell_div_mod (i `div` 8 + 2 * dr) (i `mod` 8 + 2 * dc)) as [Hdiv Hmod].
    { unfold _ck_in_bounds in H2. apply andb_true_iff in H2 as [_ H2].
      by apply bool_decide_eq_true in H2. }
    rewrite <- Ht in Hdiv, Hmod. split_and!; try done. by exists q.
  - destruct Hwhy as (Hst & _ & Hnone).
    destruct (step_facts _ _ _ _ Hb Hi Hst Hin)
      as (p & dr & dc & Hp & Hne & Hd & Ht & H1 & Htr & _ & Hte & _).
    assert (p0 = p) as -> by congruence.
    split; [done|]. exists p, dr, dc. split_and!; try done.
    intros _.
    destruct (cell_div_mod (i `div` 8 + dr) (i `mod` 8 + dc)) as [Hdiv Hmod].
    { unfold _ck_in_bounds in H1. apply andb_true_iff in H1 as [_ H1].
      by apply bool_decide_eq_true in H1. }
    rewrite <- Ht in Hdiv, Hmod. done.
Qed.

(** The jump listed in [chain_position] goes from 40 over the green man
    on 33 to the empty cell 26. *)
Lemma legal_move_shape_witness :
  ∃ p dr dc,
    board chain_position !! 40%nat = Some p ∧ p ≠ Empty ∧
    (dr, dc) ∈ _ck_dirs p ∧
    board chain_position !! 26%nat = Some Empty ∧
    26 `div` 8 = 40 `div` 8 + 2 * dr ∧ 26 `mod` 8 = 40 `mod` 8 + 2 * dc ∧
    ∃ q, board chain_position !! Z.to_nat ((40 `div` 8 + dr) * 8 + (40 `mod` 8 + dc))
         = Some q ∧
         _ck_piece_owner q ≠ None ∧ _ck_piece_owner q ≠ _ck_piece_owner p.
Proof.
  destruct (legal_move_shape chain_position {[ 40 := [(26, true)] ]} 40
              [(26, true)] 26 true)
    as (_ & _ & p & dr & dc & Hp & Hne & _ & Hd & Ht & Hcap & _).
  - split; [reflexivity|]. intros f Hf. discriminate Hf.
  - by vm_compute.
  - by vm_compute.
  - left.
  - destruct (Hcap eq_refl) as (Hr & Hc & Hq).
    exists p, dr, dc. by split_and!.
Defined.

(** X2. Men only move forward: a listed move of a blue man lowers the
    row and one of a green man raises it, by one row for a step and two
    for a capture, with the column changing by the same amount either way. *)
Theorem men_move_forward s m i l t (cap : bool) p :
  wf s → _ck_legal_moves s = Some m → m !! i = Some l → (t, cap) ∈ l →
  board s !! Z.to_nat i = Some p →
  let k := if cap then 2 else 1 in
  (p = BlueMan → t `div` 8 = i `div` 8 - k) ∧
  (p = GreenMan → t `div` 8 = i `div` 8 + k) ∧
  (t `mod` 8 = i `mod` 8 - k ∨ t `mod` 8 = i `mod` 8 + k).
Proof.
  intros Hwf Hm Hl Hin Hp k.
  destruct (listed_move s m i l t cap Hwf Hm Hl Hin) as (Hi & Hwhy & _).
  pose proof Hwf as [Hb _].
  assert (∃ dr dc, (dr, dc) ∈ _ck_dirs p ∧
            t `div` 8 = i `div` 8 + k * dr ∧ t `mod` 8 = i `mod` 8 + k * dc)
    as (dr & dc & Hd & Hr & Hc).
  { destruct cap.
    - destruct (capture_facts _ _ _ _ Hb Hi Hwhy Hin)
        as (p' & q & dr & dc & Hp' & _ & Hd & Ht & H2 & _).
      assert (p' = p) as -> by congruence. exists dr, dc. split; [done|].
      destruct (cell_div_mod (i `div` 8 + 2 * dr) (i `mod` 8 + 2 * dc)) as [Hdiv Hmod].
      { unfold _ck_in_bounds in H2. apply andb_true_iff in H2 as [_ H2].
        by apply bool_decide_eq_true in H2. }
      by rewrite <- Ht in Hdiv, Hmod.
    - destruct Hwhy as (Hst & _ & _).
      destruct (step_facts _ _ _ _ Hb Hi Hst Hin)
        as (p' & dr & dc & Hp' & _ & Hd & Ht & H1 & _).
      assert (p' = p) as -> by congruence. exists dr, dc. split; [done|].
      destruct (cell_div_mod (i `div` 8 + dr) (i `mod` 8 + dc)) as [Hdiv Hmod].
      { unfold _ck_in_bounds in H1. apply andb_true_iff in H1 as [_ H1].
        by apply bool_decide_eq_true in H1. }
      rewrite <- Ht in Hdiv, Hmod. unfold k. lia. }
  pose proof (dirs_unit _ _ _ Hd) as [Hdr Hdc].
  split_and!.
  - intros ->. simpl in Hd. rewrite !elem_of_cons, elem_of_nil in Hd.
    destruct Hd as [[= -> ->]|[[= -> ->]|[]]]; lia.
  - intros ->. simpl in Hd. rewrite !elem_of_cons, elem_of_nil in Hd.
    destruct Hd as [[= -> ->]|[[= -> ->]|[]]]; lia.
  - destruct Hdc as [-> | ->]; [left|right]; lia.
Qed.

(** Blue's man on 40 (row 5) jumps to 26 (row 3). *)
Lemma men_move_forward_witness :
  26 `div` 8 = 40 `div` 8 - 2 ∧
  (26 `mod` 8 = 40 `mod` 8 - 2 ∨ 26 `mod` 8 = 40 `mod` 8 + 2).
Proof.
  destruct (men_move_forward chain_position {[ 40 := [(26, true)] ]} 40
              [(26, true)] 26 true BlueMan) as (Hb & _ & Hc).
  - split; [reflexivity|]. intros f Hf. discriminate Hf.
  - by vm_compute.
  - by vm_compute.
  - left.
  - reflexivity.
  - split; [by apply Hb|done].
Defined.

(** What end-of-turn handling leaves alone. *)
Lemma finalize_effects s s' :
  _ck_finalize_turn_if_needed s = Some s' →
  board s' = board s ∧
  (selected s' = None ∨ selected s' = selected s) ∧
  (forced_from s' = None ∨ (forced_from s' = forced_from s ∧ finished s' = true)) ∧
  (finished s' = true ∨ finished s' = finished s).
Proof.
  unfold _ck_finalize_turn_if_needed.
  destruct (filter _ (board s)).
  { intros [= <-]. unfold declare_win. destruct (turn s); simpl; auto 10. }
  destruct (_ck_legal_moves _); simpl; [|done].
  case_bool_decide; intros [= <-].
  - unfold declare_win. destruct (other (other (turn s))); simpl; auto 10.
  - simpl. auto 10.
Qed.

(** [_ck_apply_move] on a listed move: it returns, and either continues
    the chain on the new board or hands that board to end-of-turn
    handling. *)
Lemma apply_listed_move s m i l t (cap : bool) p b' :
  wf s → _ck_legal_moves s = Some m → m !! i = Some l → (t, cap) ∈ l →
  board s !! Z.to_nat i = Some p →
  move_piece (board s) i t cap = Some (b', promotes p t) →
  length b' = 64%nat → 0 ≤ t < 64 →
  ∃ s', _ck_apply_move s i t cap = Some s' ∧ board s' = b' ∧
    ((cap = true ∧ promotes p t = false ∧
      (∃ c nc, captures b' t = Some (c :: nc)) ∧
      s' = set_message "Captura obrigatória: continue com a mesma peça."
             (set_selected (Some t) (set_forced_from (Some t) (set_board b' s)))) ∨
     _ck_finalize_turn_if_needed (set_board b' s) = Some s').
Proof.
  intros Hwf Hm Hl Hin Hp Hmove Hb' Ht.
  unfold _ck_apply_move. rewrite Hmove. simpl.
  destruct (finalize_total (set_board b' s) Hb') as [sf Hsf].
  pose proof (finalize_effects _ _ Hsf) as (Hbf & _).
  destruct (cap && negb (promotes p t)) eqn:Hchain.
  - apply andb_true_iff in Hchain as [-> Hpr%negb_true_iff].
    destruct (captures_total b' t Hb' Ht) as [[|c nc] Hnc]; rewrite Hnc; simpl.
    + exists sf. split_and!; [done|done|by right].
    + eexists. split_and!; [done|done|].
      left. split_and!; try done. by exists c, nc.
  - exists sf. split_and!; [done|done|by right].
Qed.

(** X3. Applying a listed move returns; it keeps the number of pieces of
    the side that moves, and the other side loses exactly one piece on a
    capture and none on a step. *)
Theorem listed_move_piece_counts s m i l t (cap : bool) :
  wf s → _ck_legal_moves s = Some m → m !! i = Some l → (t, cap) ∈ l →
  ∃ s' p pl,
    _ck_apply_move s i t cap = Some s' ∧
    board s !! Z.to_nat i = Some p ∧ _ck_piece_owner p = Some pl ∧
    length (board s') = 64%nat ∧
    count_owned pl (board s') = count_owned pl (board s) ∧
    (count_owned (other pl) (board s') + (if cap then 1 else 0)
     = count_owned (other pl) (board s))%nat.
Proof.
  intros Hwf Hm Hl Hin.
  destruct (listed_move_board s m i l t cap Hwf Hm Hl Hin)
    as (p & pl & b' & Hi & Ht & _ & Hp & Ho & _ & _ & Hmove & Hb' & _ & _ & Hc1 & Hc2).
  destruct (apply_listed_move s m i l t cap p b' Hwf Hm Hl Hin Hp Hmove Hb' Ht)
    as (s' & Hs' & Hbs' & _).
  exists s', p, pl. rewrite Hbs'. by split_and!.
Qed.

(** In [chain_position] blue has two men and green two; after the jump
    from 40 to 26 blue still has two and green one. *)
Lemma listed_move_piece_counts_witness :
  ∃ s', _ck_apply_move chain_position 40 26 true = Some s' ∧
    count_owned Blue (board chain_position) = 2%nat ∧
    count_owned Green (board chain_position) = 2%nat ∧
    count_owned Blue (board s') = 2%nat ∧
    count_owned Green (board s') = 1%nat.
Proof.
  destruct (listed_move_piece_counts chain_position {[ 40 := [(26, true)] ]} 40
              [(26, true)] 26 true)
    as (s' & p & pl & Hs' & Hp & Ho & _ & Hc1 & Hc2).
  - split; [reflexivity|]. intros f Hf. discriminate Hf.
  - by vm_compute.
  - by vm_compute.
  - left.
  - vm_compute in Hp. injection Hp as <-. injection Ho as <-.
    exists s'. split; [done|].
    assert (count_owned Blue (board chain_position) = 2%nat) as E1 by (by vm_compute).
    assert (count_owned Green (board chain_position) = 2%nat) as E2 by (by vm_compute).
    change (other Blue) with Green in Hc2. rewrite E1 in Hc1. rewrite E2 in Hc2.
    split_and!; try done. lia.
Defined.

Lemma targets_of_elem l t cap : targets_of l !! t = Some cap → (t, cap) ∈ l.
Proof.
  unfold targets_of.
  assert (H : ∀ acc : gmap Z bool,
    foldl (λ m tc, <[tc.1:=tc.2]> m) acc l !! t = Some cap →
    acc !! t = Some cap ∨ (t, cap) ∈ l).
  { induction l as [|[t' c'] l IH]; intros acc; simpl; [auto|].
    intros [Hacc|Hin]%IH; [|right; by right].
    apply lookup_insert_Some in Hacc as [[<- <-]|[_ Hacc]]; [right; left|by left]. }
  intros [Hacc|Hin]%H; [by rewrite lookup_empty in Hacc|done].
Qed.

Lemma targets_of_is_Some l t cap : (t, cap) ∈ l → is_Some (targets_of l !! t).
Proof.
  unfold targets_of.
  assert (H : ∀ acc : gmap Z bool,
    (is_Some (acc !! t) ∨ (t, cap) ∈ l) →
    is_Some (foldl (λ m tc, <[tc.1:=tc.2]> m) acc l !! t)).
  { induction l as [|[t' c'] l IH]; intros acc; simpl.
    - intros [?|?%elem_of_nil]; done.
    - intros [Hacc|[[= <- <-]|Hin]%elem_of_cons]; apply IH; auto.
      + left. destruct (decide (t' = t)) as [->|];
          [rewrite lookup_insert_eq|rewrite lookup_insert_ne by done]; eauto.
      + left. rewrite lookup_insert_eq. eauto. }
  intros Hin. apply H. by right.
Qed.

(** The four things a click can do. *)
Lemma click_cases s idx s' :
  _ck_click_cell s idx = Some s' →
  s' = s ∨
  (finished s = false ∧ s' = set_selected None s) ∨
  (finished s = false ∧ 0 ≤ idx < 64 ∧ s' = set_selected (Some idx) s ∧
     ∃ m, _ck_legal_moves s = Some m ∧ is_Some (m !! idx)) ∨
  (∃ sel m l cap,
     finished s = false ∧ 0 ≤ idx < 64 ∧ selected s = Some sel ∧
     _ck_legal_moves s = Some m ∧ m !! sel = Some l ∧ (idx, cap) ∈ l ∧
     _ck_apply_move s sel idx cap = Some s').
Proof.
  unfold _ck_click_cell.
  destruct (finished s) eqn:Hf; simpl; [intros [= <-]; by left|].
  case_bool_decide as Hneg; simpl; [intros [= <-]; by left|].
  case_bool_decide as Hbig; simpl; [intros [= <-]; by left|].
  destruct (_ck_legal_moves s) as [m|] eqn:Hm; simpl; [|done].
  destruct (selected s) as [sel|] eqn:Hsel.
  - destruct (targets_of (default [] (m !! sel)) !! idx) as [cap|] eqn:Ht.
    + intros Happ. right; right; right.
      apply targets_of_elem in Ht.
      destruct (m !! sel) as [l|] eqn:Hl; simpl in Ht; [|by apply elem_of_nil in Ht].
      exists sel, m, l, cap. split_and!; try done; lia.
    + case_bool_decide; intros [= <-].
      * right; right; left. split_and!; try done; try lia. by exists m.
      * right; left. done.
  - case_bool_decide; intros [= <-]; [|by left].
    right; right; left. split_and!; try done; try lia. by exists m.
Qed.

(** X4. A click changes nothing when the game is finished or the index
    is outside the board.  Otherwise it leaves the state as it is, clears
    the selection, selects the clicked cell (a cell with a listed move), or
    applies a move that [_ck_legal_moves] lists from the selected cell to
    the clicked cell: the board never changes in any other way. *)
Theorem click_cell_effect s idx s' :
  _ck_click_cell s idx = Some s' →
  (finished s = true ∨ idx < 0 ∨ 64 ≤ idx → s' = s) ∧
  (s' = s ∨
   s' = set_selected None s ∨
   (s' = set_selected (Some idx) s ∧
      ∃ m, _ck_legal_moves s = Some m ∧ is_Some (m !! idx)) ∨
   (∃ sel m l cap,
      selected s = Some sel ∧ _ck_legal_moves s = Some m ∧
      m !! sel = Some l ∧ (idx, cap) ∈ l ∧
      _ck_apply_move s sel idx cap = Some s')).
Proof.
  intros Hc. split.
  - revert Hc. unfold _ck_click_cell. intros Hc [Hf|[Hneg|Hbig]].
    + rewrite Hf in Hc. simpl in Hc. congruence.
    + rewrite (bool_decide_eq_true_2 (idx < 0)) in Hc by done.
      rewrite orb_true_r in Hc. simpl in Hc. congruence.
    + rewrite (bool_decide_eq_true_2 (64 ≤ idx)) in Hc by done.
      rewrite orb_true_r in Hc. congruence.
  - destruct (click_cases s idx s' Hc)
      as [?|[[_ ?]|[(_ & _ & ? & ?)|(sel & m & l & cap & _ & _ & ?)]]]; auto.
    right; right; right. by exists sel, m, l, cap.
Qed.

(** In [chain_position] a click on 40 selects it, a click on 44 does
    nothing (the man on 44 has no listed move), and with 40 selected a
    click on 26 applies the jump. *)
Lemma click_cell_effect_witness :
  _ck_click_cell chain_position 44 = Some chain_position ∧
  _ck_click_cell chain_position 40 = Some (set_selected (Some 40) chain_position) ∧
  ∃ s', _ck_click_cell (set_selected (Some 40) chain_position) 26 = Some s' ∧
    ∃ sel m l cap,
      selected (set_selected (Some 40) chain_position) = Some sel ∧
      _ck_legal_moves (set_selected (Some 40) chain_position) = Some m ∧
      m !! sel = Some l ∧ (26, cap) ∈ l ∧
      _ck_apply_move (set_selected (Some 40) chain_position) sel 26 cap = Some s'.
Proof.
  split; [by vm_compute|]. split; [by vm_compute|].
  destruct (_ck_click_cell (set_selected (Some 40) chain_position) 26)
    as [s'|] eqn:E; [|by vm_compute in E].
  exists s'. split; [done|].
  destruct (click_cell_effect _ _ _ E) as [_ [Hs|[Hs|[[Hs _]|Hmove]]]]; [..|done];
    subst s'; by vm_compute in E.
Defined.

Lemma ck_inv_wf s : ck_inv s → wf s.
Proof. intros (Hb & _ & _ & Hf & _). by split. Qed.

Lemma new_board_dark i p :
  0 ≤ i → py_get _new_checkers_board i = Some p → p ≠ Empty → dark i.
Proof.
  intros Hi Hp Hne.
  assert (i < 64) as Hlt.
  { unfold py_get, py_index in Hp. case_bool_decide as H; [simpl in H; lia|].
    case_bool_decide; [lia|done]. }
  rewrite py_get_nonneg in Hp by (simpl; lia).
  assert (∃ n, (n < 64)%nat ∧ i = Z.of_nat n) as (n & Hn & ->).
  { exists (Z.to_nat i). lia. }
  rewrite Nat2Z.id in Hp. clear Hi Hlt.
  do 64 (destruct n as [|n];
         [vm_compute in Hp; first [by injection Hp as <- | by vm_compute]|]).
  lia.
Qed.

Lemma ck_inv_new bn gn : ck_inv (_new_checkers_state bn gn).
Proof.
  split_and!; try done.
  intros i p. apply new_board_dark.
Qed.

(** Changing fields other than the board, the turn, the chain cell and
    the finished flag keeps the invariant, if the selection stays in range. *)
Lemma ck_inv_same_position s s' :
  ck_inv s →
  board s' = board s → turn s' = turn s → forced_from s' = forced_from s →
  finished s' = finished s →
  (∀ sel, selected s' = Some sel → 0 ≤ sel < 64) →
  ck_inv s'.
Proof.
  intros (Hb & Hd & Hs & Hf & Hc) Eb Et Ef Efin Hsel.
  unfold ck_inv. rewrite Eb, Et, Ef, Efin. by split_and!.
Qed.

Lemma ck_inv_click s idx s' :
  ck_inv s → _ck_click_cell s idx = Some s' → ck_inv s'.
Proof.
  intros Hinv Hc. pose proof (ck_inv_wf s Hinv) as Hwf.
  destruct (click_cases s idx s' Hc)
    as [->|[[_ ->]|[(_ & Hr & -> & _)|(sel & m & l & cap & Hfin & Hr & Hsel & Hm & Hl & Hin & Happ)]]];
    [done| | |].
  { by apply (ck_inv_same_position s). }
  { apply (ck_inv_same_position s); try done. by intros ? [= <-]. }
  destruct Hinv as (Hb & Hd & Hs & Hf & Hchain).
  destruct (listed_move_board s m sel l idx cap Hwf Hm Hl Hin)
    as (p & pl & b' & Hi & Ht & _ & Hp & Ho & _ & Hdark & Hmove & Hb' & Hland & Hold & _).
  assert (p ≠ Empty) as Hne by (intros ->; done).
  assert (dark sel) as Hds.
  { apply (Hd sel p); [lia| |done]. by rewrite py_get_nonneg by lia. }
  assert (_ck_piece_owner p = Some (turn s)) as Hturn.
  { destruct (listed_move s m sel l idx cap Hwf Hm Hl Hin) as (_ & _ & p' & Hp' & Hown).
    assert (p' = p) as -> by congruence.
    destruct (forced_from s) as [f|] eqn:Hff; [|by apply Hown].
    destruct (Hchain Hfin f eq_refl) as (pf & c & cs & Hpf & Hof & _).
    assert (sel = f) as ->.
    { destruct (legal_moves_entries s m Hm) as [H|(? & _)]; [|congruence].
      destruct (H sel l Hl) as (Hsi & _). unfold piece_indexes in Hsi.
      rewrite Hff in Hsi. by apply list_elem_of_singleton in Hsi. }
    rewrite py_get_nonneg in Hpf by lia. congruence. }
  assert (Hd' : ∀ j x, 0 ≤ j → py_get b' j = Some x → x ≠ Empty → dark j).
  { intros j x Hj Hx Hxe.
    assert (j < 64) as Hlt.
    { unfold py_get, py_index in Hx. case_bool_decide as H; [lia|].
      case_bool_decide; [lia|done]. }
    rewrite py_get_nonneg in Hx by lia.
    destruct (Hold _ _ Hx Hxe) as [E|Hx'].
    - assert (j = idx) as -> by lia. by apply Hdark.
    - apply (Hd j x); [done| |done]. by rewrite py_get_nonneg by lia. }
  destruct (apply_listed_move s m sel l idx cap p b' Hwf Hm Hl Hin Hp Hmove Hb' Ht)
    as (s1 & Hs1 & Hbs1 & Hcase).
  assert (s1 = s') as -> by congruence.
  destruct Hcase as [(-> & Hpr & (c & nc & Hnc) & ->)|Hfinal].
  - split_and!; simpl; try done.
    + by intros ? [= <-].
    + by intros ? [= <-].
    + intros _ f [= <-]. exists p, c, nc. split_and!; [|done|done].
      rewrite py_get_nonneg by lia. by rewrite Hland, Hpr.
  - destruct (finalize_effects _ _ Hfinal) as (Ebf & Hself & Hff & _).
    simpl in *. split_and!.
    + by rewrite Ebf.
    + by rewrite Ebf.
    + intros x Hx. destruct Hself as [E|E]; rewrite E in Hx; [done|by apply Hs].
    + intros x Hx. destruct Hff as [E|[E _]]; rewrite E in Hx; [done|by apply Hf].
    + intros Hopen f Hx. destruct Hff as [E|[_ E]]; congruence.
Qed.

Lemma ck_inv_next s : ck_inv s → ck_inv (checkers_next_round s).
Proof.
  intros _. split_and!; try done.
  intros i p. apply new_board_dark.
Qed.

Lemma ck_reachable_inv s : ck_reachable s → ck_inv s.
Proof.
  induction 1 as [bn gn|s idx s' _ IH Hc|s _ IH|s _ IH|s gn msg _ IH].
  - apply ck_inv_new.
  - by eapply ck_inv_click.
  - by apply ck_inv_next.
  - apply (ck_inv_same_position s); try done. apply IH.
  - apply (ck_inv_same_position s); try done. apply IH.
Qed.

Lemma ck_inv_click_total s idx : ck_inv s → is_Some (_ck_click_cell s idx).
Proof.
  intros Hinv. pose proof (ck_inv_wf s Hinv) as Hwf.
  unfold _ck_click_cell.
  destruct (finished s || _ || _); [eauto|].
  destruct (legal_moves_total s Hwf) as [m Hm]. rewrite Hm. simpl.
  destruct (selected s) as [sel|]; [|case_bool_decide; eauto].
  destruct (targets_of (default [] (m !! sel)) !! idx) as [cap|] eqn:Ht;
    [|case_bool_decide; eauto].
  apply targets_of_elem in Ht.
  destruct (m !! sel) as [l|] eqn:Hl; simpl in Ht; [|by apply elem_of_nil in Ht].
  destruct (listed_move_board s m sel l idx cap Hwf Hm Hl Ht)
    as (p & pl & b' & Hi & Hti & _ & Hp & _ & _ & _ & Hmove & Hb' & _).
  destruct (apply_listed_move s m sel l idx cap p b' Hwf Hm Hl Ht Hp Hmove Hb' Hti)
    as (s1 & -> & _). eauto.
Qed.

(** X5. Every checkers record the handlers can produce from a new one (by
    clicks, next rounds, overlay dismissals and joins) has a 64-cell board
    with pieces on dark squares only and an in-range selection and chain
    cell; and while the game is not finished, a chain cell that is set
    holds a piece of the side to move that has a capture available. *)
Theorem reachable_states_well_formed s :
  ck_reachable s →
  length (board s) = 64%nat ∧
  (∀ i p, 0 ≤ i → py_get (board s) i = Some p → p ≠ Empty → dark i) ∧
  (∀ sel, selected s = Some sel → 0 ≤ sel < 64) ∧
  (∀ f, forced_from s = Some f → 0 ≤ f < 64) ∧
  (finished s = false → ∀ f, forced_from s = Some f →
     ∃ p c cs, py_get (board s) f = Some p ∧
       _ck_piece_owner p = Some (turn s) ∧
       captures (board s) f = Some (c :: cs)).
Proof. apply ck_reachable_inv. Qed.

Lemma ck_play_reachable s clicks s' :
  ck_reachable s → ck_play s clicks = Some s' → ck_reachable s'.
Proof.
  revert s. induction clicks as [|idx clicks IH]; intros s Hr; simpl.
  - by intros [= <-].
  - destruct (_ck_click_cell s idx) as [s1|] eqn:E; simpl; [|done].
    apply IH. by eapply ck_reach_click.
Qed.

(** After blue opens with 40 to 33 the record is well formed. *)
Lemma reachable_states_well_formed_witness :
  ∃ s, ck_play (_new_checkers_state "Azul" "Verde") [40; 33] = Some s ∧
    turn s = Green ∧ length (board s) = 64%nat ∧
    (∀ i p, 0 ≤ i → py_get (board s) i = Some p → p ≠ Empty → dark i) ∧
    (∀ f, forced_from s = Some f → 0 ≤ f < 64).
Proof.
  destruct (ck_play (_new_checkers_state "Azul" "Verde") [40; 33]) as [s|] eqn:E;
    [|by vm_compute in E].
  exists s. split; [done|].
  destruct (reachable_states_well_formed s) as (Hb & Hd & _ & Hf & _).
  { eapply ck_play_reachable; [apply ck_reach_new|exact E]. }
  split_and!; [|exact Hb|exact Hd|exact Hf].
  vm_compute in E. by injection E as <-.
Defined.

(** X6. On a record the handlers can produce, a click on any index
    returns: the list accesses of [_ck_click_cell], [_ck_legal_moves],
    [_ck_piece_moves] and [_ck_apply_move] are all within the board. *)
Theorem reachable_click_returns s idx :
  ck_reachable s →
  ∃ s', _ck_click_cell s idx = Some s' ∧ ck_reachable s'.
Proof.
  intros Hr. destruct (ck_inv_click_total s idx (ck_reachable_inv s Hr)) as [s' Hs'].
  exists s'. split; [done|]. by eapply ck_reach_click.
Qed.

(** A click far outside the board returns. *)
Lemma reachable_click_returns_witness :
  ∃ s', _ck_click_cell (_new_checkers_state "Azul" "Verde") (-70) = Some s' ∧
        ck_reachable s'.
Proof.
  apply (reachable_click_returns (_new_checkers_state "Azul" "Verde") (-70)).
  apply ck_reach_new.
Defined.
End checkers_more.

(** ** Further properties of the tic-tac-toe engine *)

Section tictactoe_more.
Import TicTacToe.

(** [_ttt_finalize], exactly. *)
Lemma finalize_exact s s' :
  _ttt_finalize s = Some s' →
  board s' = board s ∧ current s' = current s ∧ mode s' = mode s ∧
  ((∃ m, _ttt_check_winner (board s) = Some (Some m) ∧
      finished s' = true ∧ winner s' = Some (Win m) ∧
      score_x s' = score_x s + (if decide (m = X) then 1 else 0) ∧
      score_o s' = score_o s + (if decide (m = O) then 1 else 0) ∧
      score_draw s' = score_draw s) ∨
   (_ttt_check_winner (board s) = Some None ∧
      forallb (λ c : option mark, bool_decide (c ≠ None)) (board s) = true ∧
      finished s' = true ∧ winner s' = Some Draw ∧
      score_x s' = score_x s ∧ score_o s' = score_o s ∧
      score_draw s' = score_draw s + 1) ∨
   (_ttt_check_winner (board s) = Some None ∧
      forallb (λ c : option mark, bool_decide (c ≠ None)) (board s) = false ∧
      finished s' = false ∧ winner s' = None ∧
      score_x s' = score_x s ∧ score_o s' = score_o s ∧
      score_draw s' = score_draw s)).
Proof.
  unfold _ttt_finalize.
  destruct (_ttt_check_winner (board s)) as [[m|]|] eqn:Hw; simpl; [| |done].
  - intros [= <-]. split_and!; try (by destruct m).
    left. exists m. destruct m; simpl; split_and!; try done; lia.
  - destruct (forallb _ (board s)) eqn:Hfull; intros [= <-]; simpl.
    + split_and!; try done. right; left. split_and!; try done.
    + split_and!; try done. right; right. split_and!; try done.
Qed.

(** [_ttt_do_move], exactly: nothing, or one free cell filled with the
    current symbol followed by the verdict of [_ttt_finalize]. *)
Lemma do_move_exact s pos s' :
  _ttt_do_move s pos = Some s' →
  s' = s ∨
  (finished s = false ∧ 0 ≤ pos < 9 ∧ pos < Z.of_nat (length (board s)) ∧
   board s !! Z.to_nat pos = Some None ∧
   board s' = <[Z.to_nat pos:=Some (current s)]> (board s) ∧ mode s' = mode s ∧
   ((finished s' = true ∧ current s' = current s ∧
     ((∃ m, winner s' = Some (Win m) ∧
         _ttt_check_winner (board s') = Some (Some m) ∧
         score_x s' = score_x s + (if decide (m = X) then 1 else 0) ∧
         score_o s' = score_o s + (if decide (m = O) then 1 else 0) ∧
         score_draw s' = score_draw s) ∨
      (winner s' = Some Draw ∧ _ttt_check_winner (board s') = Some None ∧
         forallb (λ c : option mark, bool_decide (c ≠ None)) (board s') = true ∧
         score_x s' = score_x s ∧ score_o s' = score_o s ∧
         score_draw s' = score_draw s + 1))) ∨
    (finished s' = false ∧ current s' = flip (current s) ∧ winner s' = None ∧
       _ttt_check_winner (board s') = Some None ∧
       forallb (λ c : option mark, bool_decide (c ≠ None)) (board s') = false ∧
       score_x s' = score_x s ∧ score_o s' = score_o s ∧
       score_draw s' = score_draw s))).
Proof.
  unfold _ttt_do_move.
  destruct (finished s) eqn:Hf; [intros [= <-]; by left|].
  case_bool_decide as Hneg; simpl; [intros [= <-]; by left|].
  case_bool_decide as Hbig; simpl; [intros [= <-]; by left|].
  destruct (py_get (board s) pos) as [[m|]|] eqn:Hc; simpl;
    [intros [= <-]; by left| |done].
  assert (pos < Z.of_nat (length (board s))) as Hlen.
  { unfold py_get, py_index in Hc. case_bool_decide as H; [lia|].
    case_bool_decide; [lia|done]. }
  rewrite py_get_nonneg in Hc by lia.
  rewrite py_set_nonneg by lia. simpl.
  set (b' := <[Z.to_nat pos:=Some (current s)]> (board s)).
  destruct (_ttt_finalize (set_board b' s)) as [s1|] eqn:E1; simpl; [|done].
  destruct (finalize_exact _ _ E1) as (Hb1 & Hc1 & Hm1 & Hcase1). simpl in *.
  intros Hres. right.
  destruct Hcase1 as [(m & Hw & Hfin & Hwin & Hx & Ho & Hd)
                     |[(Hw & Hfull & Hfin & Hwin & Hx & Ho & Hd)
                      |(Hw & Hfull & Hfin & Hwin & Hx & Ho & Hd)]];
    rewrite Hfin in Hres.
  - injection Hres as <-. rewrite Hb1. split_and!; try done; try lia.
    left. split_and!; try done. left. by exists m.
  - injection Hres as <-. rewrite Hb1. split_and!; try done; try lia.
    left. split_and!; try done. by right.
  - destruct (finalize_exact _ _ Hres) as (Hb2 & Hc2 & Hm2 & Hcase2). simpl in *.
    rewrite Hb1 in *.
    destruct Hcase2 as [(m & Hw2 & _)|[(_ & Hfull2 & _)
                       |(_ & _ & Hfin2 & Hwin2 & Hx2 & Ho2 & Hd2)]];
      [congruence|congruence|].
    rewrite Hb2. split_and!; try done; try lia; try congruence.
    right. split_and!; try done; congruence.
Qed.

(** X7. The board only fills up: [_ttt_do_move] keeps the length of the
    board and every symbol already placed, and changes at most one cell,
    an empty one, which receives the current symbol. *)
Theorem do_move_fills_one_cell s pos s' :
  _ttt_do_move s pos = Some s' →
  length (board s') = length (board s) ∧
  (∀ i m, board s !! i = Some (Some m) → board s' !! i = Some (Some m)) ∧
  (board s' = board s ∨
   (0 ≤ pos < 9 ∧ board s !! Z.to_nat pos = Some None ∧
    board s' = <[Z.to_nat pos:=Some (current s)]> (board s))).
Proof.
  intros Hm.
  destruct (do_move_exact s pos s' Hm) as [->|(_ & Hpos & Hlen & Hc & Hb & _)].
  { split_and!; auto. }
  rewrite Hb. split_and!.
  - by rewrite length_insert.
  - intros i m Hi. destruct (decide (i = Z.to_nat pos)) as [->|Hne]; [congruence|].
    by rewrite list_lookup_insert_ne.
  - right. done.
Qed.

(** The third X goes on cell 2 and the other cells stay. *)
Lemma do_move_fills_one_cell_witness :
  ∃ s', _ttt_do_move two_in_a_row 2 = Some s' ∧
    length (board s') = 9%nat ∧
    board s' !! 0%nat = Some (Some X) ∧ board s' !! 3%nat = Some (Some O).
Proof.
  destruct (_ttt_do_move two_in_a_row 2) as [s'|] eqn:E; [|by vm_compute in E].
  exists s'. split; [done|].
  destruct (do_move_fills_one_cell _ _ _ E) as (Hlen & Hkeep & _).
  split_and!; [by rewrite Hlen|by apply Hkeep|by apply Hkeep].
Defined.

Lemma count_mark_insert m b k old x :
  b !! k = Some old →
  (count_mark m (<[k:=x]> b) + (if decide (old = Some m) then 1 else 0)
   = count_mark m b + (if decide (x = Some m) then 1 else 0))%nat.
Proof.
  intros Hk. unfold count_mark.
  exact (filter_length_insert (λ c, c = Some m) b k old x Hk).
Qed.

Lemma turn_inv_step s pos s' :
  turn_inv s → _ttt_do_move s pos = Some s' → turn_inv s'.
Proof.
  intros (Hlen & Hcnt & Hturn) Hm.
  destruct (do_move_exact s pos s' Hm)
    as [->|(Hf & Hpos & _ & Hc & Hb & _ & Hcase)]; [done|].
  pose proof (count_mark_insert X (board s) _ None (Some (current s)) Hc) as EX.
  pose proof (count_mark_insert O (board s) _ None (Some (current s)) Hc) as EO.
  rewrite <- Hb in EX, EO. specialize (Hturn Hf).
  assert (Hcur : current s' = current s ∨ current s' = flip (current s)).
  { destruct Hcase as [(_ & ? & _)|(_ & ? & _)]; auto. }
  assert (Hopen : finished s' = false → current s' = flip (current s)).
  { destruct Hcase as [(? & _)|(_ & ? & _)]; [congruence|done]. }
  unfold turn_inv. rewrite Hb at 1. rewrite length_insert.
  destruct (current s) eqn:Ecur; simpl in *;
    rewrite ?decide_True in * by done; rewrite ?decide_False in * by done.
  - assert (count_mark X (board s) = count_mark O (board s)) as E by (by apply Hturn).
    split_and!; [done|right; lia|].
    intros Hfin. rewrite (Hopen Hfin). split; [done|lia].
  - assert (count_mark X (board s) ≠ count_mark O (board s)) as E.
    { intros E. by apply Hturn in E. }
    split_and!; [done|left; lia|].
    intros Hfin. rewrite (Hopen Hfin). split; [lia|done].
Qed.

Lemma turn_inv_new md p1 p2 : turn_inv (_new_ttt_state md p1 p2).
Proof. by split_and!; [|left|]. Qed.

Lemma reachable_ttt_reachable s : reachable s → ttt_reachable s.
Proof.
  induction 1 as [md p1 p2|s pos s' _ IH Hmove].
  - apply ttt_reach_new.
  - by eapply ttt_reach_move.
Qed.

Lemma reachable_turn_inv s : ttt_reachable s → turn_inv s.
Proof.
  induction 1 as [md p1 p2|s pos s' _ IH Hmove|s _ IH|s _ IH|s p2 msg _ IH].
  - apply turn_inv_new.
  - by eapply turn_inv_step.
  - by split_and!; [|left|].
  - done.
  - done.
Qed.

(** X8. In every record the handlers produce, across rounds, the board
    has 9 cells, X has placed as many symbols as O or exactly one more, and
    while the game is open it is X's turn exactly when the two counts are
    equal. *)
Theorem symbols_alternate s :
  ttt_reachable s →
  length (board s) = 9%nat ∧
  (count_mark X (board s) = count_mark O (board s) ∨
   count_mark X (board s) = S (count_mark O (board s))) ∧
  (finished s = false →
     (current s = X ↔ count_mark X (board s) = count_mark O (board s))).
Proof. apply reachable_turn_inv. Qed.

(** In [double_line_state] X has five symbols and O four. *)
Lemma symbols_alternate_witness :
  count_mark X (board double_line_state) = 5%nat ∧
  count_mark O (board double_line_state) = 4%nat ∧
  (count_mark X (board double_line_state) = count_mark O (board double_line_state) ∨
   count_mark X (board double_line_state) = S (count_mark O (board double_line_state))).
Proof.
  destruct (symbols_alternate double_line_state
              (reachable_ttt_reachable _ double_line_reachable))
    as (_ & Hcnt & _).
  split_and!; [by vm_compute|by vm_compute|done].
Defined.

Lemma check_winner_has_line b :
  length b = 9%nat →
  (∀ m, _ttt_check_winner b = Some (Some m) → has_line b) ∧
  (_ttt_check_winner b = Some None → ¬ has_line b).
Proof.
  intros Hb. destruct (check_winner_spec b Hb) as (r & Hr & Hspec). split.
  - intros m Hm. rewrite Hm in Hr. injection Hr as <-.
    destruct Hspec as (ln & ? & ?). by exists ln, m.
  - intros Hn. rewrite Hn in Hr. injection Hr as <-.
    intros (ln & m & ? & ?). by eapply Hspec.
Qed.

Lemma verdict_inv_step s pos s' :
  verdict_inv s → _ttt_do_move s pos = Some s' → verdict_inv s'.
Proof.
  intros (Hlen & Hopen & Hdone) Hm.
  destruct (do_move_exact s pos s' Hm)
    as [->|(Hf & Hpos & _ & Hc & Hb & _ & Hcase)]; [done|].
  assert (length (board s') = 9%nat) as Hlen' by (by rewrite Hb, length_insert).
  destruct (check_winner_has_line (board s') Hlen') as [Hline Hnoline].
  split; [done|].
  destruct Hcase as [(Hfin & _ & [(m & Hw & Hcw & _)|(Hw & Hcw & Hfull & _)])
                    |(Hfin & _ & Hw & Hcw & Hfull & _)].
  - split; [congruence|]. intros _. left. exists m. split; [done|by eapply Hline].
  - split; [congruence|]. intros _. right.
    split_and!; [done|by apply forallb_full|by apply Hnoline].
  - split; [|congruence]. intros _. split_and!; [done|by apply Hnoline|].
    rewrite <- forallb_full. congruence.
Qed.

Lemma verdict_inv_new md p1 p2 : verdict_inv (_new_ttt_state md p1 p2).
Proof.
  split_and!; [done| |done]. intros _. split_and!; [done| |].
  - apply (play_inv_new md p1 p2). done.
  - intros H. unfold full in H. simpl in H. by inversion H.
Qed.

Lemma reachable_verdict_inv s : ttt_reachable s → verdict_inv s.
Proof.
  induction 1 as [md p1 p2|s pos s' _ IH Hmove|s _ IH|s _ IH|s p2 msg _ IH].
  - apply verdict_inv_new.
  - by eapply verdict_inv_step.
  - apply (verdict_inv_new "" "" "").
  - done.
  - done.
Qed.

(** X9. In every record the handlers produce the verdict agrees with the
    board: an
    open game has no winner recorded, no winning line and a free cell; a
    finished game has either a symbol as winner and a winning line, or a
    draw on a full board without any winning line. *)
Theorem verdict_matches_board s :
  ttt_reachable s →
  (finished s = false →
     winner s = None ∧ ¬ has_line (board s) ∧ ¬ full (board s)) ∧
  (finished s = true →
     (∃ m, winner s = Some (Win m) ∧ has_line (board s)) ∨
     (winner s = Some Draw ∧ full (board s) ∧ ¬ has_line (board s))).
Proof. intros Hr. by destruct (reachable_verdict_inv s Hr) as (_ & ? & ?). Qed.

(** [double_line_state] is finished with X as winner and a line on the
    board. *)
Lemma verdict_matches_board_witness :
  (∃ m, winner double_line_state = Some (Win m) ∧ has_line (board double_line_state)) ∨
  (winner double_line_state = Some Draw ∧ full (board double_line_state) ∧
   ¬ has_line (board double_line_state)).
Proof.
  destruct (verdict_matches_board double_line_state
              (reachable_ttt_reachable _ double_line_reachable)) as [_ H].
  by apply H.
Defined.

(** X10. A move changes the scores only when it ends the game, and then
    by exactly one point: [score_x] for a win of X, [score_o] for a win of
    O, [score_draw] for a draw, the other two staying as they were. *)
Theorem do_move_scores_one_point s pos s' :
  _ttt_do_move s pos = Some s' →
  (finished s' = finished s →
     score_x s' = score_x s ∧ score_o s' = score_o s ∧
     score_draw s' = score_draw s) ∧
  (finished s = false → finished s' = true →
     (winner s' = Some (Win X) ∧ score_x s' = score_x s + 1 ∧
        score_o s' = score_o s ∧ score_draw s' = score_draw s) ∨
     (winner s' = Some (Win O) ∧ score_x s' = score_x s ∧
        score_o s' = score_o s + 1 ∧ score_draw s' = score_draw s) ∨
     (winner s' = Some Draw ∧ score_x s' = score_x s ∧
        score_o s' = score_o s ∧ score_draw s' = score_draw s + 1)).
Proof.
  intros Hm.
  destruct (do_move_exact s pos s' Hm)
    as [->|(Hf & _ & _ & _ & _ & _ & Hcase)].
  { split; [done|]. congruence. }
  destruct Hcase as [(Hfin & _ & [(m & Hw & _ & Hx & Ho & Hd)|(Hw & _ & _ & Hx & Ho & Hd)])
                    |(Hfin & _ & _ & _ & _ & Hx & Ho & Hd)].
  - split; [congruence|]. intros _ _.
    destruct m; simpl in *; [left|right; left]; split_and!; try done; lia.
  - split; [congruence|]. intros _ _. right; right. done.
  - split; [done|]. congruence.
Qed.

(** The winning move of X adds one point to [score_x] only. *)
Lemma do_move_scores_one_point_witness :
  ∃ s', _ttt_do_move two_in_a_row 2 = Some s' ∧
    score_x s' = 1 ∧ score_o s' = 0 ∧ score_draw s' = 0.
Proof.
  destruct (_ttt_do_move two_in_a_row 2) as [s'|] eqn:E; [|by vm_compute in E].
  exists s'. split; [done|].
  destruct (do_move_scores_one_point _ _ _ E) as [_ Hend].
  assert (winner s' = Some (Win X)) as Hw.
  { vm_compute in E. by injection E as <-. }
  destruct Hend as [(_ & -> & -> & ->)|[(Hw' & _)|(Hw' & _)]];
    [done|vm_compute in E; by injection E as <-|done|congruence|congruence].
Defined.

Lemma enumerate_elem {A} (l : list A) i c :
  (i, c) ∈ enumerate l ↔ 0 ≤ i ∧ l !! Z.to_nat i = Some c.
Proof.
  unfold enumerate. rewrite list_elem_of_lookup. split.
  - intros [k Hk]. apply list_lookup_imap_Some in Hk as (x & Hx & [= -> ->]).
    rewrite Nat2Z.id. split; [lia|done].
  - intros [Hi Hc]. exists (Z.to_nat i). apply list_lookup_imap_Some.
    exists c. split; [done|]. f_equal. lia.
Qed.

Lemma empty_cells_elem (b : list (option mark)) pos :
  pos ∈ (filter (λ ic : Z * option mark, ic.2 = None) (enumerate b)).*1 ↔
  0 ≤ pos ∧ b !! Z.to_nat pos = Some None.
Proof.
  rewrite list_elem_of_fmap. split.
  - intros ([i c] & -> & [Hc Hin]%list_elem_of_filter). simpl in *. subst c.
    by apply enumerate_elem in Hin.
  - intros [Hi Hc]. exists (pos, None). split; [done|].
    apply list_elem_of_filter. split; [done|]. by apply enumerate_elem.
Qed.

(** X11. On a 9-cell board [_ttt_bot_turn] returns.  It leaves the state
    alone unless the mode is solo, the game is open, it is O's turn and a
    cell is free; in that case it plays [_ttt_do_move] on a free cell, so
    exactly one empty cell receives an O. *)
Theorem bot_turn_effect s k :
  length (board s) = 9%nat →
  ∃ s', _ttt_bot_turn s k = Some s' ∧
    (mode s ≠ "solo" ∨ finished s = true ∨ current s ≠ O ∨ full (board s) →
     s' = s) ∧
    (mode s = "solo" → finished s = false → current s = O → ¬ full (board s) →
     ∃ pos, 0 ≤ pos < 9 ∧ board s !! Z.to_nat pos = Some None ∧
       _ttt_do_move s pos = Some s' ∧
       board s' = <[Z.to_nat pos:=Some O]> (board s)).
Proof.
  intros Hlen. unfold _ttt_bot_turn.
  destruct (bool_decide (mode s ≠ "solo") || finished s || bool_decide (current s ≠ O))
    eqn:Hguard.
  { exists s. split; [done|]. split; [done|]. intros Hm Hf Hc _.
    rewrite Hf, orb_false_r in Hguard.
    apply orb_true_iff in Hguard as [H|H]; apply bool_decide_eq_true in H; done. }
  apply orb_false_iff in Hguard as [Hg Hcur].
  apply orb_false_iff in Hg as [Hmode Hfin].
  apply bool_decide_eq_false in Hmode, Hcur.
  apply dec_stable in Hmode, Hcur.
  set (empty := (filter (λ ic : Z * option mark, ic.2 = None) (enumerate (board s))).*1).
  destruct empty as [|e es] eqn:Hempty.
  { exists s. split; [done|]. split; [done|]. intros _ _ _ Hnf. destruct Hnf.
    apply Forall_forall. intros c Hc ->.
    apply list_elem_of_lookup in Hc as [i Hi].
    assert (Z.of_nat i ∈ empty) as Hin.
    { apply empty_cells_elem. rewrite Nat2Z.id. split; [lia|done]. }
    rewrite Hempty in Hin. by apply elem_of_nil in Hin. }
  rewrite <- Hempty.
  destruct (lookup_lt_is_Some_2 empty (k `mod` length empty)%nat) as [pos Hpos].
  { apply Nat.mod_upper_bound. by rewrite Hempty. }
  rewrite Hpos. simpl.
  assert (pos ∈ empty) as Hin by (by eapply list_elem_of_lookup_2).
  apply empty_cells_elem in Hin as [Hp0 Hcell].
  assert (0 ≤ pos < 9) as Hr.
  { apply lookup_lt_Some in Hcell. lia. }
  destruct (do_move_places s pos Hlen Hfin Hr) as (s' & Hs' & Hb & _).
  { by rewrite py_get_nonneg by lia. }
  exists s'. split; [done|]. split.
  - intros [?|[?|[?|Hfull]]]; try congruence.
    unfold full in Hfull. rewrite Forall_forall in Hfull.
    destruct (Hfull None); [by eapply list_elem_of_lookup_2|done].
  - intros _ _ _ _. exists pos. rewrite Hcur in Hb. done.
Qed.

(** In a solo game after X's opening, the computer answers on a free
    cell; in a two-player game it does not move. *)
Lemma bot_turn_effect_witness :
  (∃ s' pos, _ttt_bot_turn (set_mode "solo" (set_current O two_in_a_row)) 7 = Some s' ∧
     board (set_mode "solo" (set_current O two_in_a_row)) !! Z.to_nat pos = Some None ∧
     board s' = <[Z.to_nat pos:=Some O]> (board two_in_a_row)) ∧
  _ttt_bot_turn (set_current O two_in_a_row) 7 = Some (set_current O two_in_a_row).
Proof.
  split.
  - destruct (bot_turn_effect (set_mode "solo" (set_current O two_in_a_row)) 7 eq_refl)
      as (s' & Hs' & _ & Hact).
    destruct Hact as (pos & _ & Hc & _ & Hb); try done.
    { intros H. unfold full in H. rewrite Forall_forall in H.
      by destruct (H None); [do 2 right; left|]. }
    by exists s', pos.
  - by vm_compute.
Defined.
End tictactoe_more.

(** ** Further properties of the session store and the room codes *)

Lemma save_id_truthy slot uuid :
  uuid ≠ "" → truthy (Some (save_id slot uuid)) = Some (save_id slot uuid).
Proof.
  intros Hu.
  assert (save_id slot uuid ≠ "") as Hne.
  { unfold save_id, truthy. destruct slot as [x|]; simpl; [|done].
    by case_bool_decide. }
  unfold truthy at 1. by rewrite bool_decide_eq_false_2.
Qed.

Lemma save_checkers_get w ss uuid c :
  uuid ≠ "" →
  _get_checkers_state (_save_checkers_state w ss uuid c).1
                      (_save_checkers_state w ss uuid c).2
  = store_get (save_id (checkers_id ss) uuid)
      (save_entry (save_id (checkers_id ss) uuid) (CkGame c) (GAME_STORE w)).
Proof.
  intros Hu. unfold _get_checkers_state, _save_checkers_state.
  cbn [fst snd checkers_id set_checkers_id GAME_STORE set_GAME_STORE].
  by rewrite save_id_truthy.
Qed.

Lemma save_ttt_get w ss uuid t :
  uuid ≠ "" →
  _get_ttt_state (_save_ttt_state w ss uuid t).1 (_save_ttt_state w ss uuid t).2
  = store_get (save_id (ttt_id ss) uuid)
      (save_entry (save_id (ttt_id ss) uuid) (TttGame t) (GAME_STORE w)).
Proof.
  intros Hu. unfold _get_ttt_state, _save_ttt_state.
  cbn [fst snd ttt_id set_ttt_id GAME_STORE set_GAME_STORE].
  by rewrite save_id_truthy.
Qed.

(** X12. A record saved into a store of at most 500 distinct sessions can
    be read back through the session that saved it, for checkers and for
    tic-tac-toe, and every other record found afterwards is as it was
    before the save. *)
Theorem save_then_get w ss uuid :
  uuid ≠ "" → NoDup (GAME_STORE w).*1 → Z.of_nat (length (GAME_STORE w)) ≤ 500 →
  (∀ c, let r := _save_checkers_state w ss uuid c in
     _get_checkers_state r.1 r.2 = Some (CkGame c) ∧
     ∀ k g, store_get k (GAME_STORE r.1) = Some g →
       k = save_id (checkers_id ss) uuid ∨ store_get k (GAME_STORE w) = Some g) ∧
  (∀ t, let r := _save_ttt_state w ss uuid t in
     _get_ttt_state r.1 r.2 = Some (TttGame t) ∧
     ∀ k g, store_get k (GAME_STORE r.1) = Some g →
       k = save_id (ttt_id ss) uuid ∨ store_get k (GAME_STORE w) = Some g).
Proof.
  intros Hu Hnd Hlen. split.
  - intros c. cbv zeta. split.
    + rewrite save_checkers_get by done. by apply save_entry_get_same.
    + intros k g. apply save_entry_get_other.
  - intros t. cbv zeta. split.
    + rewrite save_ttt_get by done. by apply save_entry_get_same.
    + intros k g. apply save_entry_get_other.
Qed.

(** Blue saves into [paired_world] and reads the record back. *)
Lemma save_then_get_witness :
  let r := _save_checkers_state paired_world blue_session (uuid_hex_of 9)
             Checkers.crowning_position in
  _get_checkers_state r.1 r.2 = Some (CkGame Checkers.crowning_position).
Proof.
  destruct (save_then_get paired_world blue_session (uuid_hex_of 9)) as [Hck _].
  - done.
  - apply (bool_decide_unpack _). by vm_compute.
  - simpl. lia.
  - apply Hck.
Defined.

(** X13. A save runs the eviction check on its own record too: when the
    store is above the ceiling (sessions were started without being saved)
    and the saving session owns the oldest record, the save drops the
    record it has just written and the session finds no state afterwards. *)
Theorem save_can_drop_own_record w ss uuid cid g0 rest c :
  GAME_STORE w = (cid, g0) :: rest → NoDup (GAME_STORE w).*1 →
  500 ≤ Z.of_nat (length rest) → truthy (checkers_id ss) = Some cid →
  let r := _save_checkers_state w ss uuid c in
  _get_checkers_state r.1 r.2 = None ∧ GAME_STORE r.1 = rest.
Proof.
  intros Hst Hnd Hlen Hid. cbv zeta.
  assert (save_id (checkers_id ss) uuid = cid) as Hsid.
  { unfold save_id. by rewrite Hid. }
  assert (truthy (Some cid) = Some cid) as Htr.
  { unfold truthy in *. destruct (checkers_id ss) as [x|]; [|done].
    case_bool_decide; [done|]. injection Hid as ->. by rewrite bool_decide_eq_false_2. }
  rewrite Hst in Hnd. split.
  - unfold _get_checkers_state, _save_checkers_state.
    cbn [fst snd checkers_id set_checkers_id GAME_STORE set_GAME_STORE].
    rewrite Hsid, Htr, Hst. cbn [mbind option_bind].
    by apply save_entry_drops_itself.
  - unfold _save_checkers_state. cbn [fst GAME_STORE set_GAME_STORE].
    rewrite Hsid, Hst. unfold save_entry. cbn [store_set].
    rewrite decide_True by done.
    unfold evict_oldest. rewrite bool_decide_eq_true_2 by (simpl; lia).
    by apply store_pop_head.
Qed.

Lemma overfull_store_NoDup : NoDup overfull_store.*1.
Proof. apply (bool_decide_unpack _). by vm_compute. Qed.

(** After 502 starts, the session that started first saves and loses its
    record. *)
Lemma save_can_drop_own_record_witness :
  let ss := Session None None None None (Some (uuid_hex_of 0)) None None [] in
  let r := _save_checkers_state (World overfull_store ∅ ∅ ∅) ss (uuid_hex_of 600)
             Checkers.chain_position in
  _get_checkers_state r.1 r.2 = None ∧ length (GAME_STORE r.1) = 501%nat.
Proof.
  intros ss.
  destruct (save_can_drop_own_record (World overfull_store ∅ ∅ ∅) ss (uuid_hex_of 600)
              (uuid_hex_of 0) fresh_game (tail overfull_store) Checkers.chain_position)
    as [Hget Hst].
  - by vm_compute.
  - apply overfull_store_NoDup.
  - by vm_compute.
  - by vm_compute.
  - split; [exact Hget|].
    transitivity (length (tail overfull_store)); [exact (f_equal length Hst)|].
    by vm_compute.
Defined.

Lemma upper_length s : String.length (upper s) = String.length s.
Proof. induction s as [|c s IH]; simpl; [done|by rewrite IH]. Qed.

Lemma substring_prefix_length n s :
  String.length (String.substring 0 n s) = (n `min` String.length s)%nat.
Proof.
  revert s. induction n as [|n IH]; intros [|c s]; simpl; try done.
  by rewrite IH.
Qed.

Lemma random_choice_alphabet r : random_choice r ∈ alphabet.
Proof.
  unfold random_choice. apply list_elem_of_In, nth_In.
  apply Nat.mod_upper_bound. done.
Qed.

Lemma draw_code_alphabet rnd j :
  Forall (λ c, c ∈ alphabet) (String.list_ascii_of_string (draw_code rnd j)).
Proof.
  unfold draw_code. rewrite String.list_ascii_of_string_of_list_ascii.
  apply Forall_fmap, Forall_forall. intros i _. apply random_choice_alphabet.
Qed.

(** The loop returns the first draw that is not in use. *)
Lemma try_codes_first_unused w rnd j0 n j :
  (j0 ≤ j < j0 + n)%nat →
  code_in_use w (draw_code rnd j) = false →
  (∀ i, (j0 ≤ i < j)%nat → code_in_use w (draw_code rnd i) = true) →
  try_codes w rnd j0 n = Some (draw_code rnd j).
Proof.
  revert j0. induction n as [|n IH]; intros j0 Hj Hfree Hused; [lia|]. simpl.
  destruct (decide (j0 = j)) as [->|Hne].
  - by rewrite Hfree.
  - rewrite Hused by lia. apply IH; [lia|done|]. intros i Hi. apply Hused. lia.
Qed.

Lemma try_codes_length w rnd j0 n code :
  try_codes w rnd j0 n = Some code → String.length code = 6%nat.
Proof.
  revert j0. induction n as [|n IH]; intros j0; simpl; [done|].
  destruct (code_in_use _ _); [apply IH|]. by intros [= <-].
Qed.

(** X14. [_new_room_code] always returns six characters (the uuid has at
    least six digits).  When one of the 200 draws is not in use, it returns
    the first such draw, whose characters are upper-case letters and digits
    and which is a key of none of the three room stores. *)
Theorem new_room_code_shape w rnd uuid_hex :
  (6 ≤ String.length uuid_hex)%nat →
  String.length (_new_room_code w rnd uuid_hex) = 6%nat ∧
  ∀ j, (j < 200)%nat →
    code_in_use w (draw_code rnd j) = false →
    (∀ i, (i < j)%nat → code_in_use w (draw_code rnd i) = true) →
    _new_room_code w rnd uuid_hex = draw_code rnd j ∧
    Forall (λ c, c ∈ alphabet) (String.list_ascii_of_string (draw_code rnd j)) ∧
    ROOM_STORE w !! draw_code rnd j = None ∧
    CHECKERS_ROOM_STORE w !! draw_code rnd j = None ∧
    TTT_ROOM_STORE w !! draw_code rnd j = None.
Proof.
  intros Hlen. split.
  - unfold _new_room_code. destruct (try_codes w rnd 0 200) as [code|] eqn:E.
    + by eapply try_codes_length.
    + rewrite upper_length, substring_prefix_length. lia.
  - intros j Hj Hfree Hused.
    assert (try_codes w rnd 0 200 = Some (draw_code rnd j)) as E.
    { apply try_codes_first_unused; [lia|done|]. intros i Hi. apply Hused. lia. }
    unfold _new_room_code. rewrite E. split; [done|].
    split; [apply draw_code_alphabet|]. by apply code_in_use_false.
Qed.

(** In [colliding_world], with draws that give [ABCDEF] (in use) first
    and [GHIJKL] next, the second draw is returned. *)
Lemma new_room_code_shape_witness :
  _new_room_code colliding_world (λ n, n) "abcdef0123454000800000000000beef"
  = "GHIJKL" ∧
  ROOM_STORE colliding_world !! "GHIJKL" = None.
Proof.
  destruct (new_room_code_shape colliding_world (λ n, n)
              "abcdef0123454000800000000000beef") as [_ Hfirst].
  { simpl. lia. }
  destruct (Hfirst 1%nat) as (Hcode & _ & Hroom & _).
  - lia.
  - by vm_compute.
  - intros i Hi. assert (i = 0%nat) as -> by lia. by vm_compute.
  - split; [by rewrite Hcode|done].
Defined.

(** ** Further properties of the turn gate and the rooms *)

(** X15. For a session bound to a tic-tac-toe room, the gate denies
    exactly when O has not joined, the role is neither X nor O, or the
    role is not the current symbol; and when it denies, [tictactoe_move]
    returns the stores unchanged, with a flash message in the cookie. *)
Theorem tictactoe_move_gate_denied w ss uuid pos k t r :
  _get_ttt_state w ss = Some (TttGame t) →
  (_get_ttt_room w ss).1 = Some r →
  (_ttt_room_can_play t (Some r) ss = false ↔
     joined r = false ∨
     (ttt_room_role ss ≠ Some "X" ∧ ttt_room_role ss ≠ Some "O") ∨
     ttt_room_role ss ≠ Some (TicTacToe.mark_str (TicTacToe.current t))) ∧
  (_ttt_room_can_play t (Some r) ss = false →
   tictactoe_move w ss uuid pos k = Some (w, flash "Aguarde seu turno." ss)).
Proof.
  intros Hst Hroom. split.
  - unfold _ttt_room_can_play, _ttt_room_ready.
    destruct (joined r); simpl; [|split; [by left|done]].
    destruct (ttt_room_role ss) as [role|].
    2:{ split; [|done]. intros _. right; left. done. }
    case_bool_decide as Hrole; simpl.
    + rewrite bool_decide_eq_false. split.
      * intros Hne. right; right. congruence.
      * intros [?|[[H1 H2]|H3]]; [done| |congruence].
        destruct Hrole as [->| ->]; done.
    + split; [|done]. intros _. right; left.
      split; intros [= ->]; apply Hrole; auto.
  - intros Hdeny. unfold tictactoe_move. rewrite Hst. simpl.
    destruct (_get_ttt_room w ss) as [r' ss'] eqn:Hr. simpl in Hroom. subst r'.
    assert (ss' = ss) as ->.
    { unfold _get_ttt_room in Hr.
      destruct (truthy (ttt_room_code ss)) as [code|]; [|congruence].
      destruct (TTT_ROOM_STORE w !! code); congruence. }
    by rewrite Hdeny.
Qed.

(** O moves while it is X's turn: nothing is stored. *)
Lemma tictactoe_move_gate_denied_witness :
  tictactoe_move paired_ttt_world o_session (uuid_hex_of 9) 2 0
  = Some (paired_ttt_world, flash "Aguarde seu turno." o_session).
Proof.
  destruct (tictactoe_move_gate_denied paired_ttt_world o_session (uuid_hex_of 9) 2 0
              TicTacToe.two_in_a_row (Room (uuid_hex_of 8) true)) as [_ Hdeny].
  - by vm_compute.
  - by vm_compute.
  - apply Hdeny. by vm_compute.
Defined.

(** X16. In a room whose second party has joined, exactly one of the two
    roles passes the gate, the one whose ply it is; in a room still waiting
    for the second party nobody passes it.  The same holds for checkers
    (blue, green) and tic-tac-toe (X, O). *)
Theorem one_role_at_a_time r :
  (∀ c ssb ssg,
     ck_room_role ssb = Some "b" → ck_room_role ssg = Some "g" →
     if joined r then
       _checkers_room_can_play c (Some r) ssb = bool_decide (Checkers.turn c = Checkers.Blue) ∧
       _checkers_room_can_play c (Some r) ssg = bool_decide (Checkers.turn c = Checkers.Green) ∧
       _checkers_room_can_play c (Some r) ssb = negb (_checkers_room_can_play c (Some r) ssg)
     else
       _checkers_room_can_play c (Some r) ssb = false ∧
       _checkers_room_can_play c (Some r) ssg = false) ∧
  (∀ t ssx sso,
     ttt_room_role ssx = Some "X" → ttt_room_role sso = Some "O" →
     if joined r then
       _ttt_room_can_play t (Some r) ssx = bool_decide (TicTacToe.current t = TicTacToe.X) ∧
       _ttt_room_can_play t (Some r) sso = bool_decide (TicTacToe.current t = TicTacToe.O) ∧
       _ttt_room_can_play t (Some r) ssx = negb (_ttt_room_can_play t (Some r) sso)
     else
       _ttt_room_can_play t (Some r) ssx = false ∧
       _ttt_room_can_play t (Some r) sso = false).
Proof.
  split.
  - intros c ssb ssg Hb Hg. unfold _checkers_room_can_play, _checkers_room_ready.
    rewrite Hb, Hg. destruct (joined r); simpl; [|done].
    by destruct (Checkers.turn c).
  - intros t ssx sso Hx Ho. unfold _ttt_room_can_play, _ttt_room_ready.
    rewrite Hx, Ho. destruct (joined r); simpl; [|done].
    by destruct (TicTacToe.current t).
Qed.

(** In the paired match it is blue's ply: blue passes the gate and green
    does not. *)
Lemma one_role_at_a_time_witness :
  _checkers_room_can_play Checkers.chain_position
    (Some (Room (uuid_hex_of 7) true)) blue_session = true ∧
  _checkers_room_can_play Checkers.chain_position
    (Some (Room (uuid_hex_of 7) true)) green_session = false.
Proof.
  destruct (one_role_at_a_time (Room (uuid_hex_of 7) true)) as [Hck _].
  specialize (Hck Checkers.chain_position blue_session green_session eq_refl eq_refl).
  cbn [joined] in Hck. destruct Hck as (Hb & Hg & _).
  rewrite Hb, Hg. by vm_compute.
Defined.

Lemma get_checkers_room_Some w ss r :
  (_get_checkers_room w ss).1 = Some r → _get_checkers_room w ss = (Some r, ss).
Proof.
  unfold _get_checkers_room.
  destruct (truthy (ck_room_code ss)) as [code|]; [|done].
  destruct (CHECKERS_ROOM_STORE w !! code); [|done]. by intros [= ->].
Qed.

Lemma get_ttt_room_Some w ss r :
  (_get_ttt_room w ss).1 = Some r → _get_ttt_room w ss = (Some r, ss).
Proof.
  unfold _get_ttt_room.
  destruct (truthy (ttt_room_code ss)) as [code|]; [|done].
  destruct (TTT_ROOM_STORE w !! code); [|done]. by intros [= ->].
Qed.

(** X17. In a room only the host role may start the next round: for any
    other role [checkers_next] and [tictactoe_next] leave every store as it
    was and flash a message.  For the host the fresh round is saved
    whatever the state of the match: the handlers do not look at
    [finished], nor at whether the second party has joined. *)
Theorem next_round_host_only w ss uuid r :
  (∀ c, _get_checkers_state w ss = Some (CkGame c) →
        (_get_checkers_room w ss).1 = Some r →
     (ck_room_role ss ≠ Some "b" →
      checkers_next w ss uuid
      = Some (w, flash "Apenas o Time Azul pode iniciar a próxima rodada na sala." ss)) ∧
     (ck_room_role ss = Some "b" →
      checkers_next w ss uuid
      = Some (_save_checkers_state w ss uuid (checkers_next_round c)))) ∧
  (∀ t, _get_ttt_state w ss = Some (TttGame t) →
        (_get_ttt_room w ss).1 = Some r →
     (ttt_room_role ss ≠ Some "X" →
      tictactoe_next w ss uuid
      = Some (w, flash "Apenas o Jogador X pode iniciar a próxima rodada." ss)) ∧
     (ttt_room_role ss = Some "X" →
      tictactoe_next w ss uuid
      = Some (_save_ttt_state w ss uuid (tictactoe_next_round t)))).
Proof.
  split.
  - intros c Hst Hroom%get_checkers_room_Some. unfold checkers_next.
    rewrite Hst. simpl. rewrite Hroom. split; intros Hrole.
    + by rewrite (bool_decide_eq_true_2 _ Hrole).
    + rewrite (bool_decide_eq_false_2 (ck_room_role ss ≠ Some "b")) by (by intros ?).
      by rewrite andb_false_r.
  - intros t Hst Hroom%get_ttt_room_Some. unfold tictactoe_next.
    rewrite Hst. simpl. rewrite Hroom. split; intros Hrole.
    + by rewrite (bool_decide_eq_true_2 _ Hrole).
    + rewrite (bool_decide_eq_false_2 (ttt_room_role ss ≠ Some "X")) by (by intros ?).
      by rewrite andb_false_r.
Qed.

(** Green asks for the next round of a paired match: refused. *)
Lemma next_round_host_only_witness :
  checkers_next paired_world green_session (uuid_hex_of 9)
  = Some (paired_world,
          flash "Apenas o Time Azul pode iniciar a próxima rodada na sala." green_session).
Proof.
  destruct (next_round_host_only paired_world green_session (uuid_hex_of 9)
              (Room (uuid_hex_of 7) true)) as [Hck _].
  destruct (Hck Checkers.chain_position) as [Hguest _].
  - by vm_compute.
  - by vm_compute.
  - apply Hguest. by vm_compute.
Defined.

(** X18. Joining fails without touching a match: with an empty or unknown
    code the stores are unchanged; when the room names a record that is no
    longer stored (or names none) only that room entry is deleted.  Both
    join handlers behave so, and the session only gains a flash message. *)
Theorem room_join_failures w ss code name :
  (code = "" ∨ CHECKERS_ROOM_STORE w !! code = None →
   ∃ msg, checkers_room_join w ss code name = Some (w, flash msg ss)) ∧
  (∀ r, code ≠ "" → CHECKERS_ROOM_STORE w !! code = Some r →
        room_game r = "" ∨ store_get (room_game r) (GAME_STORE w) = None →
   ∃ msg, checkers_room_join w ss code name
          = Some (set_CHECKERS_ROOM_STORE (delete code (CHECKERS_ROOM_STORE w)) w,
                  flash msg ss)) ∧
  (code = "" ∨ TTT_ROOM_STORE w !! code = None →
   ∃ msg, tictactoe_room_join w ss code name = Some (w, flash msg ss)) ∧
  (∀ r, code ≠ "" → TTT_ROOM_STORE w !! code = Some r →
        room_game r = "" ∨ store_get (room_game r) (GAME_STORE w) = None →
   ∃ msg, tictactoe_room_join w ss code name
          = Some (set_TTT_ROOM_STORE (delete code (TTT_ROOM_STORE w)) w,
                  flash msg ss)).
Proof.
  split_and!.
  - intros H. unfold checkers_room_join. case_bool_decide; [by eexists|].
    destruct H as [?| ->]; [done|]. by eexists.
  - intros r Hcode Hr Hgone. unfold checkers_room_join.
    rewrite bool_decide_eq_false_2 by done. rewrite Hr.
    case_bool_decide; [by eexists|].
    destruct Hgone as [?| ->]; [done|]. by eexists.
  - intros H. unfold tictactoe_room_join. case_bool_decide; [by eexists|].
    destruct H as [?| ->]; [done|]. by eexists.
  - intros r Hcode Hr Hgone. unfold tictactoe_room_join.
    rewrite bool_decide_eq_false_2 by done. rewrite Hr.
    case_bool_decide; [by eexists|].
    destruct Hgone as [?| ->]; [done|]. by eexists.
Qed.

(** Joining a room whose record is gone deletes the room. *)
Lemma room_join_failures_witness :
  ∃ msg, checkers_room_join stale_room_world no_session "K3Y9QZ" "Bia"
         = Some (set_CHECKERS_ROOM_STORE
                   (delete "K3Y9QZ" (CHECKERS_ROOM_STORE stale_room_world))
                   stale_room_world,
                 flash msg no_session).
Proof.
  destruct (room_join_failures stale_room_world no_session "K3Y9QZ" "Bia")
    as (_ & Hexpired & _ & _).
  apply (Hexpired (Room (uuid_hex_of 7) true)).
  - done.
  - by vm_compute.
  - right. by vm_compute.
Defined.

(** X19. A successful [checkers_room_join] binds the session to the
    host's record as green and marks the room joined.  The record keeps its
    board, turn, scores and blue name and takes the joiner's name (or the
    default); no other record changes.  Afterwards the joiner passes the
    turn gate exactly when it is green's ply.  Nothing asks whether the
    room was already joined. *)
Theorem checkers_room_join_success w ss code name r c :
  code ≠ "" →
  CHECKERS_ROOM_STORE w !! code = Some r →
  room_game r ≠ "" →
  store_get (room_game r) (GAME_STORE w) = Some (CkGame c) →
  ∃ w' ss' c',
    checkers_room_join w ss code name = Some (w', ss') ∧
    _get_checkers_state w' ss' = Some (CkGame c') ∧
    Checkers.board c' = Checkers.board c ∧
    Checkers.turn c' = Checkers.turn c ∧
    Checkers.score_blue c' = Checkers.score_blue c ∧
    Checkers.score_green c' = Checkers.score_green c ∧
    Checkers.blue_name c' = Checkers.blue_name c ∧
    Checkers.green_name c' = (if bool_decide (name = "") then "Time Verde" else name) ∧
    (∀ k, k ≠ room_game r →
          store_get k (GAME_STORE w') = store_get k (GAME_STORE w)) ∧
    CHECKERS_ROOM_STORE w' = <[code := Room (room_game r) true]> (CHECKERS_ROOM_STORE w) ∧
    checkers_id ss' = Some (room_game r) ∧
    ck_room_code ss' = Some code ∧
    ck_room_role ss' = Some "g" ∧
    (_get_checkers_room w' ss').1 = Some (Room (room_game r) true) ∧
    _checkers_room_can_play c' (_get_checkers_room w' ss').1 ss'
    = bool_decide (Checkers.turn c = Checkers.Green).
Proof.
  intros Hcode Hr Hcid Hst. unfold checkers_room_join.
  rewrite (bool_decide_eq_false_2 (code = "")) by done. rewrite Hr.
  rewrite (bool_decide_eq_false_2 (room_game r = "")) by done. rewrite Hst.
  cbn [as_checkers mbind option_bind].
  eexists _, _, _. split; [reflexivity|].
  assert (∀ w0 ss0, _get_checkers_room
            (set_CHECKERS_ROOM_STORE
               (<[code := Room (room_game r) true]> (CHECKERS_ROOM_STORE w)) w0)
            (flash ss0 (set_ck_room_role (Some "g")
               (set_ck_room_code (Some code) (set_checkers_id (Some (room_game r)) ss))))
          = (Some (Room (room_game r) true),
             flash ss0 (set_ck_room_role (Some "g")
               (set_ck_room_code (Some code) (set_checkers_id (Some (room_game r)) ss)))))
    as Hroom.
  { intros w0 ss0. unfold _get_checkers_room.
    cbn [flash ck_room_code set_ck_room_role set_ck_room_code set_checkers_id truthy].
    rewrite (bool_decide_eq_false_2 (code = "")) by done.
    cbn [CHECKERS_ROOM_STORE set_CHECKERS_ROOM_STORE].
    by rewrite lookup_insert_eq. }
  split.
  { unfold _get_checkers_state.
    cbn [flash checkers_id set_ck_room_role set_ck_room_code set_checkers_id truthy].
    rewrite (bool_decide_eq_false_2 (room_game r = "")) by done.
    cbn [mbind option_bind GAME_STORE set_CHECKERS_ROOM_STORE set_GAME_STORE].
    rewrite store_get_set. rewrite decide_True by done. reflexivity. }
  split_and!; try done.
  - intros k Hk. cbn [GAME_STORE set_CHECKERS_ROOM_STORE set_GAME_STORE].
    rewrite store_get_set. by rewrite decide_False.
  - by rewrite Hroom.
  - rewrite Hroom. cbn [fst]. unfold _checkers_room_can_play, _checkers_room_ready.
    cbn [joined negb flash ck_room_role set_ck_room_role].
    rewrite (bool_decide_eq_true_2 ("g" = "b" ∨ "g" = "g")) by auto.
    cbn [negb Checkers.turn Checkers.set_message Checkers.set_green_name].
    by destruct (Checkers.turn c).
Qed.

(** A visitor joins the waiting room as green; it is blue's ply, so the
    gate keeps the joiner waiting. *)
Lemma checkers_room_join_success_witness :
  ∃ w' ss' c',
    checkers_room_join waiting_world no_session "K3Y9QZ" "Bia" = Some (w', ss') ∧
    _get_checkers_state w' ss' = Some (CkGame c') ∧
    Checkers.green_name c' = "Bia" ∧
    ck_room_role ss' = Some "g" ∧
    _checkers_room_can_play c' (_get_checkers_room w' ss').1 ss' = false.
Proof.
  destruct (checkers_room_join_success waiting_world no_session "K3Y9QZ" "Bia"
              (Room (uuid_hex_of 7) false)
              (Checkers._new_checkers_state "Ana" "Time Verde"))
    as (w' & ss' & c' & Hjoin & Hget & _ & _ & _ & _ & _ & Hname & _ & _ & _ & _ & Hrole & _ & Hgate).
  - done.
  - by vm_compute.
  - by vm_compute.
  - by vm_compute.
  - exists w', ss', c'. split_and!; try done.
Defined.

Lemma truthy_Some o s : truthy o = Some s ↔ o = Some s ∧ s ≠ "".
Proof.
  unfold truthy. destruct o as [x|]; [|by split; [|intros [? _]]].
  case_bool_decide as Hx.
  - split; [done|]. intros [[= ->] ?]. done.
  - split; [by intros [= ->]|]. by intros [[= ->] _].
Qed.

(** X20. Leaving a checkers room always clears the three session keys.
    When the session's room exists, the host's leave deletes the room and
    the match record and nothing else; the guest's leave only clears the
    joined flag, so the record and its scores stay and the host is back
    to waiting; any other role changes nothing. *)
Theorem checkers_room_leave_effect w ss :
  let r := checkers_room_leave w ss in
  (checkers_id r.2 = None ∧ ck_room_code r.2 = None ∧ ck_room_role r.2 = None) ∧
  (truthy (ck_room_code ss) = None → r.1 = w) ∧
  (∀ code, truthy (ck_room_code ss) = Some code →
     match CHECKERS_ROOM_STORE w !! code with
     | None => r.1 = w
     | Some rm =>
         (ck_room_role ss = Some "b" →
            CHECKERS_ROOM_STORE r.1 = delete code (CHECKERS_ROOM_STORE w) ∧
            (room_game rm ≠ "" → store_get (room_game rm) (GAME_STORE r.1) = None) ∧
            (∀ k, k ≠ room_game rm →
               store_get k (GAME_STORE r.1) = store_get k (GAME_STORE w))) ∧
         (ck_room_role ss = Some "g" →
            GAME_STORE r.1 = GAME_STORE w ∧
            CHECKERS_ROOM_STORE r.1
            = <[code := Room (room_game rm) false]> (CHECKERS_ROOM_STORE w) ∧
            ∀ c host, ck_room_code host = Some code →
              _checkers_room_can_play c (_get_checkers_room r.1 host).1 host = false) ∧
         (ck_room_role ss ≠ Some "b" → ck_room_role ss ≠ Some "g" → r.1 = w)
     end).
Proof.
  cbv zeta. unfold checkers_room_leave. cbn [fst snd]. split_and!; try done.
  - by intros ->.
  - intros code Hcode. rewrite Hcode.
    destruct (CHECKERS_ROOM_STORE w !! code) as [rm|] eqn:Hrm; [|done].
    cbv beta iota. split_and!.
    + intros Hb. rewrite (bool_decide_eq_true_2 _ Hb).
      case_bool_decide as Hcid; cbn [GAME_STORE CHECKERS_ROOM_STORE
        set_CHECKERS_ROOM_STORE set_GAME_STORE]; split_and!; try done.
      * intros _. rewrite store_get_pop. by rewrite decide_True.
      * intros k Hk. rewrite store_get_pop. by rewrite decide_False.
    + intros Hg. rewrite (bool_decide_eq_false_2 (ck_room_role ss = Some "b"))
        by (rewrite Hg; by intros [=]).
      rewrite (bool_decide_eq_true_2 _ Hg).
      cbn [GAME_STORE CHECKERS_ROOM_STORE set_CHECKERS_ROOM_STORE].
      split_and!; try done.
      intros c host Hhost. unfold _get_checkers_room. rewrite Hhost.
      apply truthy_Some in Hcode as [_ Hne].
      cbn [truthy]. rewrite (bool_decide_eq_false_2 (code = "")) by done.
      cbn [CHECKERS_ROOM_STORE set_CHECKERS_ROOM_STORE].
      by rewrite lookup_insert_eq.
    + intros Hb Hg. by rewrite !bool_decide_eq_false_2.
Qed.

(** Green leaves the paired match: the record stays, the room waits again. *)
Lemma checkers_room_leave_effect_witness :
  let r := checkers_room_leave paired_world green_session in
  GAME_STORE r.1 = GAME_STORE paired_world ∧
  CHECKERS_ROOM_STORE r.1 !! "K3Y9QZ" = Some (Room (uuid_hex_of 7) false) ∧
  _checkers_room_can_play Checkers.chain_position
    (_get_checkers_room r.1 blue_session).1 blue_session = false.
Proof.
  intros r.
  destruct (checkers_room_leave_effect paired_world green_session) as (_ & _ & Hroom).
  specialize (Hroom "K3Y9QZ" eq_refl).
  change (CHECKERS_ROOM_STORE paired_world !! "K3Y9QZ")
    with (Some (Room (uuid_hex_of 7) true)) in Hroom.
  cbv beta iota in Hroom. destruct Hroom as (_ & Hguest & _).
  destruct (Hguest eq_refl) as (Hst & Hrooms & Hgate).
  split_and!.
  - exact Hst.
  - fold r in Hrooms. rewrite Hrooms. apply lookup_insert_eq.
  - apply Hgate. reflexivity.
Defined.

(** X21. [checkers_reset] discards the session's record but leaves the
    room entry that points to it.  Whoever joins with that code afterwards
    is told that the room has expired, and that join is what deletes the
    room. *)
Theorem reset_leaves_stale_room w ss cid code r joiner name :
  truthy (checkers_id ss) = Some cid →
  code ≠ "" →
  CHECKERS_ROOM_STORE w !! code = Some r →
  room_game r = cid →
  let w1 := (checkers_reset w ss).1 in
  CHECKERS_ROOM_STORE w1 = CHECKERS_ROOM_STORE w ∧
  store_get cid (GAME_STORE w1) = None ∧
  checkers_room_join w1 joiner code name
  = Some (set_CHECKERS_ROOM_STORE (delete code (CHECKERS_ROOM_STORE w)) w1,
          flash "Sala expirada. Crie uma nova sala." joiner).
Proof.
  intros Hid Hcode Hr Hcid. cbv zeta. unfold checkers_reset.
  cbn [fst checkers_id set_ck_room_role set_ck_room_code]. rewrite Hid.
  cbn [CHECKERS_ROOM_STORE GAME_STORE set_GAME_STORE].
  assert (store_get cid (store_pop cid (GAME_STORE w)) = None) as Hgone.
  { rewrite store_get_pop. by rewrite decide_True. }
  split_and!; [done|done|].
  unfold checkers_room_join. rewrite (bool_decide_eq_false_2 (code = "")) by done.
  cbn [CHECKERS_ROOM_STORE GAME_STORE set_GAME_STORE]. rewrite Hr, Hcid, Hgone.
  by case_bool_decide.
Qed.

(** Blue resets the paired match; a visitor then joins with the old code. *)
Lemma reset_leaves_stale_room_witness :
  let w1 := (checkers_reset paired_world blue_session).1 in
  GAME_STORE w1 = [] ∧
  checkers_room_join w1 no_session "K3Y9QZ" "Bia"
  = Some (World [] ∅ ∅ ∅, flash "Sala expirada. Crie uma nova sala." no_session).
Proof.
  intros w1.
  destruct (reset_leaves_stale_room paired_world blue_session (uuid_hex_of 7) "K3Y9QZ"
              (Room (uuid_hex_of 7) true) no_session "Bia")
    as (_ & _ & Hjoin).
  - by vm_compute.
  - done.
  - by vm_compute.
  - done.
  - split; [by vm_compute|]. fold w1 in Hjoin. rewrite Hjoin. by vm_compute.
Defined.

Lemma new_room_code_length w rnd uuid_hex :
  (6 ≤ String.length uuid_hex)%nat → String.length (_new_room_code w rnd uuid_hex) = 6%nat.
Proof.
  intros Hlen. unfold _new_room_code.
  destruct (try_codes w rnd 0 200) as [code|] eqn:E.
  - by eapply try_codes_length.
  - rewrite upper_length, substring_prefix_length. lia.
Qed.

(** X22. [checkers_room_create] stores a fresh record under the new id,
    opens a room of six characters that points to it, not yet joined, and
    makes the session its blue host.  Until somebody joins, every click of
    the host is turned away by the gate and nothing is stored. *)
Theorem room_create_then_wait w ss uuid rnd uuid_hex blue green uuid2 idx :
  uuid ≠ "" →
  (6 ≤ String.length uuid_hex)%nat →
  let r := checkers_room_create w ss uuid rnd uuid_hex blue green in
  ∃ code c,
    ck_room_code r.2 = Some code ∧ String.length code = 6%nat ∧
    ck_room_role r.2 = Some "b" ∧ checkers_id r.2 = Some uuid ∧
    CHECKERS_ROOM_STORE r.1 !! code = Some (Room uuid false) ∧
    _get_checkers_state r.1 r.2 = Some (CkGame c) ∧
    Checkers.board c = Checkers._new_checkers_board ∧
    Checkers.turn c = Checkers.Blue ∧
    checkers_click r.1 r.2 uuid2 idx = Some (r.1, flash "Aguarde seu turno." r.2).
Proof.
  intros Hu Hlen. cbv zeta. unfold checkers_room_create, _start_new_checkers_state.
  cbn [checkers_id set_checkers_id default from_option id].
  set (host_name := if bool_decide (blue = "") then "Time Azul" else blue).
  set (green_name := if bool_decide (green = "") then "Time Verde" else green).
  set (c := Checkers._new_checkers_state host_name green_name).
  set (w1 := set_GAME_STORE (store_set uuid (CkGame c) (GAME_STORE w)) w).
  set (code := _new_room_code w1 rnd uuid_hex).
  assert (String.length code = 6%nat) as Hcl by (by apply new_room_code_length).
  assert (code ≠ "") as Hcode by (by intros E; rewrite E in Hcl).
  cbn [fst snd].
  assert (_get_checkers_state
            (set_CHECKERS_ROOM_STORE (<[code:=Room uuid false]> (CHECKERS_ROOM_STORE w1)) w1)
            (flash ("Sala de damas criada: " +:+ code +:+ ". Compartilhe com o Time Verde.")
               (set_ck_room_role (Some "b")
                  (set_ck_room_code (Some code) (set_checkers_id (Some uuid) ss))))
          = Some (CkGame c)) as Hget.
  { unfold _get_checkers_state.
    cbn [flash checkers_id set_ck_room_role set_ck_room_code set_checkers_id truthy].
    rewrite (bool_decide_eq_false_2 (uuid = "")) by done.
    cbn [mbind option_bind GAME_STORE set_CHECKERS_ROOM_STORE w1 set_GAME_STORE].
    unfold w1. cbn [GAME_STORE set_GAME_STORE].
    rewrite store_get_set. by rewrite decide_True. }
  exists code, c. split_and!; try done.
  - cbn [CHECKERS_ROOM_STORE set_CHECKERS_ROOM_STORE]. apply lookup_insert_eq.
  - unfold checkers_click. rewrite Hget. cbn [as_checkers mbind option_bind].
    unfold _get_checkers_room.
    cbn [flash ck_room_code set_ck_room_role set_ck_room_code set_checkers_id truthy].
    rewrite (bool_decide_eq_false_2 (code = "")) by done.
    cbn [CHECKERS_ROOM_STORE set_CHECKERS_ROOM_STORE]. rewrite lookup_insert_eq.
    reflexivity.
Qed.

(** A host opens a room in an empty world and clicks a piece at once. *)
Lemma room_create_then_wait_witness :
  let r := checkers_room_create (World [] ∅ ∅ ∅) no_session (uuid_hex_of 7)
             (λ n, n) (uuid_hex_of 3) "Ana" "" in
  checkers_click r.1 r.2 (uuid_hex_of 9) 40 = Some (r.1, flash "Aguarde seu turno." r.2).
Proof.
  intros r.
  destruct (room_create_then_wait (World [] ∅ ∅ ∅) no_session (uuid_hex_of 7)
              (λ n, n) (uuid_hex_of 3) "Ana" "" (uuid_hex_of 9) 40)
    as (code & c & _ & _ & _ & _ & _ & _ & _ & _ & Hclick).
  - done.
  - vm_compute. lia.
  - exact Hclick.
Defined.

(** ** The quiz engine *)

Section quiz_facts.
Import Quiz.
Variables countries capitals : gmap string (list string).
Implicit Types (s : state) (c : config).


Lemma current_code_over s :
  Z.of_nat (length (order s)) ≤ round_index s → _current_code s = Some None.
Proof. intros H. unfold _current_code. by rewrite bool_decide_eq_true_2. Qed.

Lemma current_code_open s :
  0 ≤ round_index s < Z.of_nat (length (order s)) →
  ∃ code, order s !! Z.to_nat (round_index s) = Some code ∧
          _current_code s = Some (Some code).
Proof.
  intros H. unfold _current_code. rewrite bool_decide_eq_false_2 by lia.
  rewrite py_get_nonneg by lia.
  destruct (lookup_lt_is_Some_2 (order s) (Z.to_nat (round_index s))) as [code Hc]; [lia|].
  exists code. by rewrite Hc.
Qed.

Lemma current_code_Some s code :
  0 ≤ round_index s → _current_code s = Some (Some code) →
  round_index s < Z.of_nat (length (order s)) ∧
  order s !! Z.to_nat (round_index s) = Some code.
Proof.
  intros H0. unfold _current_code. case_bool_decide as Hlen; [done|].
  rewrite py_get_nonneg by lia.
  destruct (order s !! Z.to_nat (round_index s)) as [c'|] eqn:E; [|done].
  intros [= ->]. split; [lia|done].
Qed.

Lemma advance_turn_fields s :
  st_config (_advance_turn s) = st_config s ∧ order (_advance_turn s) = order s ∧
  round_index (_advance_turn s) = round_index s + 1 ∧
  attempts_left (_advance_turn s) = max_attempts (st_config s) ∧
  results (_advance_turn s) = results s ∧
  score_p1 (_advance_turn s) = score_p1 s ∧ score_p2 (_advance_turn s) = score_p2 s ∧
  current_player (_advance_turn s)
  = (if bool_decide (mode (st_config s) = "versus")
     then if bool_decide (current_player s = 1) then 2 else 1
     else current_player s).
Proof. unfold _advance_turn. simpl. by case_bool_decide. Qed.

Lemma register_answer_cases s sel lab forced s' :
  _register_answer countries capitals s sel lab forced = Some s' →
  st_config s' = st_config s ∧ order s' = order s ∧
  ((_current_code s = Some None ∧ s' = s) ∨
   ∃ cur, _current_code s = Some (Some cur) ∧
     ((sel ≠ Some cur ∧ forced = false ∧ 1 < attempts_left s ∧
       round_index s' = round_index s ∧ results s' = results s ∧
       attempts_left s' = attempts_left s - 1 ∧
       current_player s' = current_player s ∧
       score_p1 s' = score_p1 s ∧ score_p2 s' = score_p2 s) ∨
      ((sel = Some cur ∨ forced = true ∨ attempts_left s ≤ 1) ∧
       round_index s' = round_index s + 1 ∧
       attempts_left s' = max_attempts (st_config s) ∧
       current_player s'
       = (if bool_decide (mode (st_config s) = "versus")
          then if bool_decide (current_player s = 1) then 2 else 1
          else current_player s) ∧
       (∃ r, results s' = results s ++ [r] ∧
             round_no r = round_index s + 1 ∧ code r = cur ∧
             player r = _player_label s ∧ selected r = lab ∧
             correct r = bool_decide (sel = Some cur)) ∧
       score_p1 s' = score_p1 s + gain1 s (bool_decide (sel = Some cur)) ∧
       score_p2 s' = score_p2 s + gain2 s (bool_decide (sel = Some cur))))).
Proof.
  unfold _register_answer.
  destruct (_current_code s) as [[cur|]|] eqn:Hcur; cbn [mbind option_bind]; [| |done].
  2:{ intros [= <-]. split_and!; auto. }
  destruct (_correct_answer_label countries capitals (quiz_type (st_config s)) cur)
    as [cl|]; cbn [mbind option_bind]; [|done].
  destruct (decide (sel = Some cur)) as [Hsel|Hsel].
  - (* a hit *)
    rewrite !(bool_decide_eq_true_2 (sel = Some cur)) by done.
    match goal with |- context [result_entry _ _ ?s0 _ _ _ _] => set (s1 := s0) end.
    assert (st_config s1 = st_config s ∧ order s1 = order s ∧
            round_index s1 = round_index s ∧ results s1 = results s ∧
            _player_label s1 = _player_label s ∧
            current_player s1 = current_player s ∧
            score_p1 s1 = score_p1 s + gain1 s true ∧
            score_p2 s1 = score_p2 s + gain2 s true)
      as (Hc & Ho & Hi & Hr & Hl & Hp & H1 & H2).
    { unfold s1, gain1, gain2, _player_label.
      repeat case_bool_decide; simpl; split_and!; try done; lia. }
    unfold result_entry.
    destruct (country_name countries cur) as [cn|]; cbn [mbind option_bind]; [|done].
    destruct (if bool_decide (is_Some (capitals !! cur))
              then capital_name capitals cur else Some "-") as [cap|];
      cbn [mbind option_bind]; [|done].
    intros [= <-].
    match goal with |- context [_advance_turn ?s0] =>
      destruct (advance_turn_fields s0) as (Ac & Ao & Ai & Aa & Ar & A1 & A2 & Ap) end.
    rewrite Ac, Ao, Ai, Aa, Ar, A1, A2, Ap. simpl.
    rewrite Hc, Ho, Hi, Hr, Hl. split_and!; try done.
    right. exists cur. split; [done|]. right.
    split_and!; auto.
    + by rewrite Hp.
    + eexists. split; [reflexivity|]. simpl. rewrite ?Hi, ?Hl. split_and!; try done.
      by rewrite bool_decide_eq_true_2.
    + rewrite H1. by rewrite bool_decide_eq_true_2.
    + rewrite H2. by rewrite bool_decide_eq_true_2.
  - (* a miss *)
    rewrite !(bool_decide_eq_false_2 (sel = Some cur)) by done.
    change (gain1 s false) with 0. change (gain2 s false) with 0.
    cbn [attempts_left set_attempts_left set_overlay_effect set_show_correct_overlay].
    destruct (bool_decide (0 < attempts_left s - 1) && negb forced) eqn:Hretry.
    + intros [= <-]. simpl. split_and!; try done.
      right. exists cur. split; [done|]. left.
      apply andb_true_iff in Hretry as [Ha%bool_decide_eq_true Hf%negb_true_iff].
      split_and!; try done; lia.
    + unfold result_entry.
      destruct (country_name countries cur) as [cn|]; cbn [mbind option_bind]; [|done].
      destruct (if bool_decide (is_Some (capitals !! cur))
                then capital_name capitals cur else Some "-") as [cap|];
        cbn [mbind option_bind]; [|done].
      intros [= <-].
      match goal with |- context [_advance_turn ?s0] =>
        destruct (advance_turn_fields s0) as (Ac & Ao & Ai & Aa & Ar & A1 & A2 & Ap) end.
      rewrite Ac, Ao, Ai, Aa, Ar, A1, A2, Ap.
      destruct (bool_decide (lab = "<pulou>")); simpl.
      all: split_and!; [done|done|].
      all: right; exists cur; (split; [done|]); right.
      all: rewrite ?(bool_decide_eq_false_2 (sel = Some cur)) by done.
      all: split_and!; try done; try lia.
      all: try (eexists; split_and!; done).
      all: try (unfold gain1, gain2; simpl; lia).
      all: apply andb_false_iff in Hretry as [Ha%bool_decide_eq_false|Hf%negb_false_iff];
        [right; right; lia|right; by left].
Qed.

Lemma hits_snoc rs r :
  hits (rs ++ [r]) = hits rs + (if correct r then 1 else 0).
Proof.
  unfold hits. rewrite filter_app, length_app, filter_cons, filter_nil.
  destruct (decide (correct r = true)) as [Hr|Hr]; rewrite Nat2Z.inj_add.
  - rewrite Hr. simpl. lia.
  - apply not_true_is_false in Hr. rewrite Hr. simpl. lia.
Qed.

Lemma gain_sum s hit :
  gain1 s hit + gain2 s hit = if hit then points_per_hit (st_config s) else 0.
Proof.
  unfold gain1, gain2. destruct hit; simpl; [|done].
  by repeat case_bool_decide; simpl; try lia.
Qed.

Lemma inv_new c sample : inv c sample (_new_state c sample).
Proof.
  unfold inv, same_rules. simpl. split_and!; try done; try lia.
  - unfold hits. simpl. lia.
  - by case_bool_decide.
Qed.

Lemma inv_step c sample s sel lab forced s' :
  inv c sample s →
  _register_answer countries capitals s sel lab forced = Some s' →
  inv c sample s'.
Proof.
  intros (Hrules & Ho & Hi & Hl & Hr & Hs & Hp & H2 & Ha) Hreg.
  apply register_answer_cases in Hreg as (Hc' & Ho' & Hcases).
  destruct Hcases as [[_ ->]|(cur & Hcur & Hcases)].
  { by unfold inv. }
  destruct c as [m q n1 n2 p a]. destruct Hrules as (Hm & Hq & Hn & Hpt & Hmx).
  cbn [mode quiz_type player1_name points_per_hit max_attempts] in *.
  subst m q n1 p a.
  apply current_code_Some in Hcur as [Hlt Hcur]; [|lia].
  rewrite Ho in Hlt, Hcur.
  destruct Hcases as [(Hsel & Hf & Hatt & Ei & Er & Ea & Ep & E1 & E2)
                     |(_ & Ei & Ea & Ep & (r & Er & Hno & Hcode & _ & _ & Hcorr) & E1 & E2)].
  - unfold inv, same_rules.
    cbn [mode quiz_type player1_name points_per_hit max_attempts].
    rewrite Ei, Er, Ea, Ep, E1, E2, Hc', Ho'.
    split_and!; try done; lia.
  - unfold inv, same_rules.
    cbn [mode quiz_type player1_name points_per_hit max_attempts].
    rewrite Ei, Er, Ea, Ep, E1, E2, Hc', Ho'.
    split_and!; try done; try lia.
    + rewrite length_app. simpl. lia.
    + intros i r' Hlook. apply lookup_app_Some in Hlook as [Hlook|[Hge Hlook]].
      { by apply Hr. }
      apply list_lookup_singleton_Some in Hlook as [Hi0 <-].
      assert (i = Z.to_nat (round_index s)) as -> by lia.
      rewrite Hno, Hcode. split; [lia|done].
    + rewrite hits_snoc, Hcorr.
      pose proof (gain_sum s (bool_decide (sel = Some cur))) as Hg.
      destruct (bool_decide (sel = Some cur)); lia.
    + rewrite Hp. destruct (bool_decide (mode (st_config s) = "versus")); [|done].
      replace (round_index s + 1) with (Z.succ (round_index s)) by lia.
      rewrite Z.even_succ, <- Z.negb_even.
      by destruct (Z.even (round_index s)).
    + intros Hv. unfold gain2.
      rewrite (bool_decide_eq_false_2 (mode (st_config s) = "versus")) by done.
      rewrite andb_false_r. simpl. rewrite H2 by done. lia.
Qed.

Lemma inv_view c sample s built s' :
  inv c sample s → round_view s built = Some s' → inv c sample s'.
Proof.
  intros Hinv. unfold round_view, _ensure_options.
  destruct (_current_code s) as [[cur|]|]; cbn [mbind option_bind]; [| |done].
  - case_bool_decide; cbn [mbind option_bind]; by intros [= <-].
  - by intros [= <-].
Qed.

Lemma reachable_inv_quiz c sample s :
  reachable countries capitals c sample s → inv c sample s.
Proof.
  induction 1 as [|s i s' _ IH Hreg|s built s' _ IH Hview|s p2_name _ IH Hv];
    [apply inv_new| |by eapply inv_view|].
  - destruct i; simpl in Hreg; by eapply inv_step.
  - destruct IH as ((Hm & Hrules) & Hinv). unfold inv, same_rules, room_join. simpl.
    split; [|done]. split; [congruence|done].
Qed.

Lemma register_answer_total s sel lab forced :
  0 ≤ round_index s →
  Forall (known countries capitals (quiz_type (st_config s))) (order s) →
  is_Some (_register_answer countries capitals s sel lab forced).
Proof.
  intros H0 Hknown. unfold _register_answer.
  destruct (decide (Z.of_nat (length (order s)) ≤ round_index s)) as [Hover|Hopen].
  { rewrite current_code_over by done. by eexists. }
  destruct (current_code_open s) as (cur & Hlook & ->); [lia|].
  cbn [mbind option_bind].
  rewrite Forall_forall in Hknown.
  destruct (Hknown cur) as ([cn Hcn] & Hcap & Hqt).
  { by eapply list_elem_of_lookup_2. }
  assert (is_Some (_correct_answer_label countries capitals
                     (quiz_type (st_config s)) cur)) as [cl ->].
  { unfold _correct_answer_label, _label_for_code.
    case_bool_decide as Hq; [|by eexists]. apply Hcap. by apply Hqt. }
  cbn [mbind option_bind].
  assert (∀ s0 l b, is_Some (result_entry countries capitals s0 cur l cl b)) as Hres.
  { intros s0 l b. unfold result_entry. rewrite Hcn. cbn [mbind option_bind].
    case_bool_decide as Hin.
    - destruct (Hcap Hin) as [cap ->]. by eexists.
    - by eexists. }
  case_bool_decide.
  - match goal with |- context [result_entry _ _ ?s0 _ ?l _ ?b] =>
      destruct (Hres s0 l b) as [r ->] end.
    by eexists.
  - destruct (_ && _); [by eexists|].
    match goal with |- context [result_entry _ _ ?s0 _ ?l _ ?b] =>
      destruct (Hres s0 l b) as [r ->] end.
    by eexists.
Qed.

Lemma skip_step c sample s :
  inv c sample s →
  Forall (known countries capitals (quiz_type c)) sample →
  round_index s < Z.of_nat (length sample) →
  ∃ s', register countries capitals s Skip = Some s' ∧
        round_index s' = round_index s + 1 ∧
        score_p1 s' = score_p1 s ∧ score_p2 s' = score_p2 s.
Proof.
  intros Hinv Hknown Hlt.
  destruct Hinv as ((_ & Hq & _) & Ho & Hi & _).
  destruct (register_answer_total s None "<pulou>" true) as [s' Hs'].
  { lia. }
  { by rewrite Hq, Ho. }
  exists s'. split; [done|].
  destruct (current_code_open s) as (cur & _ & Hcur); [rewrite Ho; lia|].
  apply register_answer_cases in Hs' as (_ & _ & [[Hover _]|(cur' & _ & Hcases)]).
  { congruence. }
  destruct Hcases as [(_ & [=] & _)|(_ & Ei & _ & _ & _ & E1 & E2)].
  rewrite bool_decide_eq_false_2 in E1, E2 by done.
  unfold gain1, gain2 in *. simpl in *. split_and!; [done|lia|lia].
Qed.

Lemma run_cons s i l :
  run countries capitals s (i :: l)
  = register countries capitals s i ≫= λ s1, run countries capitals s1 l.
Proof. done. Qed.

Lemma skips_run c sample n s :
  Forall (known countries capitals (quiz_type c)) sample →
  reachable countries capitals c sample s →
  Z.of_nat n = Z.of_nat (length sample) - round_index s →
  ∃ s', run countries capitals s (replicate n Skip) = Some s' ∧
        reachable countries capitals c sample s' ∧
        round_index s' = Z.of_nat (length sample) ∧
        score_p1 s' = score_p1 s ∧ score_p2 s' = score_p2 s.
Proof.
  intros Hknown. revert s. induction n as [|n IH]; intros s Hr Hn.
  { exists s. simpl. split_and!; try done. lia. }
  destruct (skip_step c sample s) as (s1 & Hs1 & Hi1 & H1 & H2);
    [by apply reachable_inv_quiz|done|lia|].
  destruct (IH s1) as (s' & Hrun & Hr' & Hi' & H1' & H2').
  { by eapply reach_register. }
  { lia. }
  exists s'. cbn [replicate]. rewrite run_cons, Hs1. cbn [mbind option_bind].
  split_and!; try done; congruence.
Qed.

(** X23. [_register_answer] returns a finished quiz as it is.  On an open
    round a wrong answer that is not a skip, with more than one attempt
    left, uses up one attempt and nothing else moves; every other answer
    closes the round: the round index goes up by one, the attempts are
    refilled and one entry for the current code is appended to the
    results, marked correct exactly when the chosen code is the current
    one. *)
Theorem register_answer_round s sel lab forced s' :
  _register_answer countries capitals s sel lab forced = Some s' →
  match _current_code s with
  | None => False
  | Some None => s' = s
  | Some (Some cur) =>
      if bool_decide (sel ≠ Some cur) && bool_decide (1 < attempts_left s) && negb forced
      then round_index s' = round_index s ∧ results s' = results s ∧
           attempts_left s' = attempts_left s - 1 ∧
           current_player s' = current_player s
      else round_index s' = round_index s + 1 ∧
           attempts_left s' = max_attempts (st_config s) ∧
           ∃ r, results s' = results s ++ [r] ∧
                round_no r = round_index s + 1 ∧ code r = cur ∧
                player r = _player_label s ∧ selected r = lab ∧
                correct r = bool_decide (sel = Some cur)
  end.
Proof.
  intros Hreg.
  apply register_answer_cases in Hreg as (_ & _ & [[-> ->]|(cur & -> & Hcases)]); [done|].
  destruct Hcases as [(Hsel & -> & Hatt & Ei & Er & Ea & Ep & _)
                     |(Hclose & Ei & Ea & _ & Hr & _)].
  - rewrite bool_decide_eq_true_2 by done. by rewrite bool_decide_eq_true_2 by done.
  - assert (bool_decide (sel ≠ Some cur) && bool_decide (1 < attempts_left s) && negb forced
            = false) as ->; [|done].
    destruct Hclose as [Hsel|[-> |Hatt]].
    + by rewrite bool_decide_eq_false_2 by (by intros ?).
    + by rewrite andb_false_r.
    + rewrite (bool_decide_eq_false_2 (1 < attempts_left s)) by lia.
      by rewrite andb_false_r.
Qed.

(** X24. Only the right answer scores.  It adds [points_per_hit] to
    exactly one score: player two's in a versus quiz when the current
    player is not 1, player one's otherwise.  A wrong answer, a skip or an
    answer to a finished quiz leaves both scores as they were. *)
Theorem register_answer_scores s sel lab forced s' :
  _register_answer countries capitals s sel lab forced = Some s' →
  match _current_code s with
  | Some (Some cur) =>
      if bool_decide (sel = Some cur) then
        if bool_decide (mode (st_config s) = "versus")
           && negb (bool_decide (current_player s = 1))
        then score_p1 s' = score_p1 s ∧
             score_p2 s' = score_p2 s + points_per_hit (st_config s)
        else score_p1 s' = score_p1 s + points_per_hit (st_config s) ∧
             score_p2 s' = score_p2 s
      else score_p1 s' = score_p1 s ∧ score_p2 s' = score_p2 s
  | _ => score_p1 s' = score_p1 s ∧ score_p2 s' = score_p2 s
  end.
Proof.
  intros Hreg.
  apply register_answer_cases in Hreg as (_ & _ & [[-> ->]|(cur & -> & Hcases)]); [done|].
  destruct Hcases as [(Hsel & _ & _ & _ & _ & _ & _ & E1 & E2)
                     |(_ & _ & _ & _ & _ & E1 & E2)].
  - by rewrite bool_decide_eq_false_2 by done.
  - unfold gain1, gain2 in *.
    destruct (bool_decide (sel = Some cur)); simpl in *; [|lia].
    destruct (bool_decide (mode (st_config s) = "versus")),
             (bool_decide (current_player s = 1)); simpl in *; lia.
Qed.

(** X25. Every record a quiz goes through keeps its sample and its
    configuration (but for the name of player two, which a join sets),
    has a round index between 0 and the number of codes, and one result
    per closed round, numbered from 1 and in the order of the sample.  The two scores add up to [points_per_hit] times the number of
    correct results.  In a versus quiz player 1 answers the even rounds
    and player 2 the odd ones; otherwise the player stays 1 and player
    two scores nothing.  With at least one attempt configured, at least
    one attempt is left. *)
Theorem quiz_records_invariant c sample s :
  reachable countries capitals c sample s →
  (mode (st_config s) = mode c ∧ quiz_type (st_config s) = quiz_type c ∧
   player1_name (st_config s) = player1_name c ∧
   points_per_hit (st_config s) = points_per_hit c ∧
   max_attempts (st_config s) = max_attempts c) ∧
  order s = sample ∧
  0 ≤ round_index s ≤ Z.of_nat (length sample) ∧
  Z.of_nat (length (results s)) = round_index s ∧
  (∀ i r, results s !! i = Some r →
          round_no r = Z.of_nat i + 1 ∧ sample !! i = Some (code r)) ∧
  score_p1 s + score_p2 s = points_per_hit c * hits (results s) ∧
  current_player s
  = (if bool_decide (mode c = "versus")
     then if Z.even (round_index s) then 1 else 2 else 1) ∧
  (mode c ≠ "versus" → score_p2 s = 0) ∧
  (1 ≤ max_attempts c → 1 ≤ attempts_left s ≤ max_attempts c).
Proof. apply reachable_inv_quiz. Qed.

(** X26. When every code of the sample has its names in the repository
    (a country name, and a capital when the quiz asks for capitals), no
    sequence of answers and skips makes [_register_answer] raise: the
    lookups never miss and the index into the order stays in range. *)
Theorem quiz_never_raises c sample s l :
  Forall (known countries capitals (quiz_type c)) sample →
  reachable countries capitals c sample s →
  ∃ s', run countries capitals s l = Some s' ∧ reachable countries capitals c sample s'.
Proof.
  intros Hknown. revert s. induction l as [|i l IH]; intros s Hr.
  { by exists s. }
  destruct (reachable_inv_quiz c sample s Hr) as ((_ & Hq & _) & Ho & Hi & _).
  assert (is_Some (register countries capitals s i)) as [s1 Hs1].
  { destruct i; simpl; apply register_answer_total; try lia; by rewrite Hq, Ho. }
  destruct (IH s1) as (s' & Hrun & Hr'); [by eapply reach_register|].
  exists s'. rewrite run_cons, Hs1. by cbn [mbind option_bind].
Qed.

(** X27. Skipping closes a round whatever attempts are left, and scores
    nothing: from any record of the quiz, as many skips as there are
    rounds left end the quiz with both scores unchanged. *)
Theorem skips_end_quiz c sample s :
  Forall (known countries capitals (quiz_type c)) sample →
  reachable countries capitals c sample s →
  ∃ s', run countries capitals s
          (replicate (length sample - Z.to_nat (round_index s)) Skip) = Some s' ∧
        _current_code s' = Some None ∧
        round_index s' = Z.of_nat (length sample) ∧
        score_p1 s' = score_p1 s ∧ score_p2 s' = score_p2 s.
Proof.
  intros Hknown Hr.
  destruct (reachable_inv_quiz c sample s Hr) as (_ & _ & Hi & _).
  destruct (skips_run c sample (length sample - Z.to_nat (round_index s)) s)
    as (s' & Hrun & Hr' & Hi' & H1 & H2); [done|done|lia|].
  exists s'. split_and!; try done.
  destruct (reachable_inv_quiz c sample s' Hr') as (_ & Ho' & _).
  apply current_code_over. rewrite Ho'. lia.
Qed.

End quiz_facts.

(** X28. In a quiz room a session passes the gate exactly when the second
    player has joined, the quiz is a versus quiz, and the session's role
    is the current player's: p1 for player 1, p2 for player 2.  So a room
    whose quiz is not a versus quiz lets nobody answer. *)
Theorem quiz_room_gate (s : Quiz.state) (r : room) (role : option string) :
  Quiz._room_can_play s (Some r) role = true ↔
  joined r = true ∧ Quiz.mode (Quiz.st_config s) = "versus" ∧
  ((role = Some "p1" ∧ Quiz.current_player s = 1) ∨
   (role = Some "p2" ∧ Quiz.current_player s = 2)).
Proof.
  unfold Quiz._room_can_play, Quiz._room_ready.
  destruct (joined r); simpl; [|by split; [|intros [? _]]].
  case_bool_decide as Hrole; simpl.
  2:{ split; [done|]. intros (_ & _ & [[-> _]|[-> _]]); destruct Hrole; auto. }
  case_bool_decide as Hmode; simpl.
  { split; [done|]. by intros (_ & ? & _). }
  case_bool_decide as Hp1; rewrite bool_decide_eq_true.
  - subst role. split.
    + intros Hcp. split_and!; auto.
    + intros (_ & _ & [[_ ?]|[[=] _]]). done.
  - destruct Hrole as [->| ->]; [done|]. split.
    + intros Hcp. split_and!; auto.
    + intros (_ & _ & [[[=] _]|[_ ?]]). done.
Qed.

(** Ana has two attempts and picks Portugal for the flag of Brazil: one
    attempt is used up and the round stays open. *)
Lemma register_answer_round_witness :
  ∃ s', Quiz._register_answer Quiz.example_countries Quiz.example_capitals
          (Quiz._new_state Quiz.example_config Quiz.example_order)
          (Some "pt") "Portugal" false = Some s' ∧
        Quiz.round_index s' = 0 ∧ Quiz.results s' = [] ∧ Quiz.attempts_left s' = 1.
Proof.
  destruct (Quiz._register_answer Quiz.example_countries Quiz.example_capitals
              (Quiz._new_state Quiz.example_config Quiz.example_order)
              (Some "pt") "Portugal" false) as [s'|] eqn:E; [|by vm_compute in E].
  exists s'. split; [done|].
  pose proof (register_answer_round _ _ _ _ _ _ _ E) as H.
  vm_compute in H. destruct H as (Hi & Hr & Ha & _). done.
Defined.

(** Ana picks Brazil for the flag of Brazil and scores ten points. *)
Lemma register_answer_scores_witness :
  ∃ s', Quiz._register_answer Quiz.example_countries Quiz.example_capitals
          (Quiz._new_state Quiz.example_config Quiz.example_order)
          (Some "br") "Brasil" false = Some s' ∧
        Quiz.score_p1 s' = 10 ∧ Quiz.score_p2 s' = 0.
Proof.
  destruct (Quiz._register_answer Quiz.example_countries Quiz.example_capitals
              (Quiz._new_state Quiz.example_config Quiz.example_order)
              (Some "br") "Brasil" false) as [s'|] eqn:E; [|by vm_compute in E].
  exists s'. split; [done|].
  pose proof (register_answer_scores _ _ _ _ _ _ _ E) as H.
  vm_compute in H. done.
Defined.

Lemma example_known :
  Forall (Quiz.known Quiz.example_countries Quiz.example_capitals
            (Quiz.quiz_type Quiz.example_config)) Quiz.example_order.
Proof.
  unfold Quiz.example_order. repeat apply Forall_cons_2; [| | |apply Forall_nil_2].
  all: split_and!; [vm_compute; by eexists| |by intros [=]].
  all: intros [x Hx]; vm_compute in Hx; vm_compute; first [discriminate Hx|by eexists].
Qed.

(** After a right answer by Ana and a skip by Bia, two results are
    recorded and the ten points are Ana's. *)
Lemma quiz_records_invariant_witness :
  ∃ s, Quiz.run Quiz.example_countries Quiz.example_capitals
         (Quiz._new_state Quiz.example_config Quiz.example_order)
         [Quiz.Answer "br" "Brasil"; Quiz.Skip] = Some s ∧
       Quiz.round_index s = 2 ∧ length (Quiz.results s) = 2%nat ∧
       Quiz.score_p1 s + Quiz.score_p2 s = 10 * Quiz.hits (Quiz.results s) ∧
       Quiz.current_player s = 1.
Proof.
  destruct (Quiz.run Quiz.example_countries Quiz.example_capitals
              (Quiz._new_state Quiz.example_config Quiz.example_order)
              [Quiz.Answer "br" "Brasil"; Quiz.Skip]) as [s|] eqn:E;
    [|by vm_compute in E].
  exists s. split; [done|].
  assert (Quiz.reachable Quiz.example_countries Quiz.example_capitals
            Quiz.example_config Quiz.example_order s) as Hr.
  { cbn [Quiz.run] in E.
    destruct (Quiz.register _ _ _ (Quiz.Answer "br" "Brasil")) as [s1|] eqn:E1; [|done].
    cbn [mbind option_bind] in E.
    destruct (Quiz.register _ _ s1 Quiz.Skip) as [s2|] eqn:E2; [|done].
    injection E as <-.
    eapply Quiz.reach_register; [|exact E2].
    eapply Quiz.reach_register; [apply Quiz.reach_new|exact E1]. }
  destruct (quiz_records_invariant _ _ _ _ _ Hr) as (_ & _ & _ & Hl & _ & Hs & Hp & _).
  assert (Quiz.round_index s = 2) as Hi.
  { vm_compute in E. by injection E as <-. }
  rewrite Hi in Hl, Hp. split_and!; [done|lia|exact Hs|exact Hp].
Defined.

(** The example quiz takes any three inputs without raising. *)
Lemma quiz_never_raises_witness :
  ∃ s', Quiz.run Quiz.example_countries Quiz.example_capitals
          (Quiz._new_state Quiz.example_config Quiz.example_order)
          [Quiz.Answer "xx" "?"; Quiz.Skip; Quiz.Answer "jp" "Japão"] = Some s' ∧
        Quiz.reachable Quiz.example_countries Quiz.example_capitals
          Quiz.example_config Quiz.example_order s'.
Proof.
  apply quiz_never_raises; [apply example_known|apply Quiz.reach_new].
Defined.

(** Three skips end the example quiz with no points. *)
Lemma skips_end_quiz_witness :
  ∃ s', Quiz.run Quiz.example_countries Quiz.example_capitals
          (Quiz._new_state Quiz.example_config Quiz.example_order)
          [Quiz.Skip; Quiz.Skip; Quiz.Skip] = Some s' ∧
        Quiz._current_code s' = Some None ∧
        Quiz.score_p1 s' = 0 ∧ Quiz.score_p2 s' = 0.
Proof.
  destruct (skips_end_quiz Quiz.example_countries Quiz.example_capitals
              Quiz.example_config Quiz.example_order
              (Quiz._new_state Quiz.example_config Quiz.example_order))
    as (s' & Hrun & Hcur & _ & H1 & H2);
    [apply example_known|apply Quiz.reach_new|].
  exists s'. split_and!; [exact Hrun|exact Hcur|exact H1|exact H2].
Defined.

(** ** The order of the cells on the page *)

(** X29. Whatever the role, [_checkers_cell_order] lists each of the 64
    cells exactly once.  For green the board is turned round: the cell at
    place [k] is [63 - k], that is row [7 - r] and column [7 - c] for the
    cell that blue sees at that place. *)
Theorem cell_order_turns_board role :
  _checkers_cell_order role ≡ₚ seqZ 0 64 ∧
  ∀ k, 0 ≤ k < 64 →
    _checkers_cell_order "g" !! Z.to_nat k = Some (63 - k) ∧
    (role ≠ "g" → _checkers_cell_order role !! Z.to_nat k = Some k) ∧
    (63 - k) `div` 8 = 7 - k `div` 8 ∧ (63 - k) `mod` 8 = 7 - k `mod` 8.
Proof.
  split.
  - unfold _checkers_cell_order. case_bool_decide; [|done].
    change ((λ k : Z, 63 - k) <$> seqZ 0 64) with (reverse (seqZ 0 64)).
    apply reverse_Permutation.
  - intros k Hk. split_and!.
    + unfold _checkers_cell_order. rewrite bool_decide_eq_true_2 by done.
      rewrite list_lookup_fmap, lookup_seqZ_lt by lia. simpl. f_equal. lia.
    + intros Hrole. unfold _checkers_cell_order.
      rewrite bool_decide_eq_false_2 by done.
      rewrite lookup_seqZ_lt by lia. f_equal. lia.
    + replace (63 - k) with (7 - k `mod` 8 + (7 - k `div` 8) * 8)
        by (pose proof (Z.div_mod k 8); lia).
      rewrite Z.div_add by lia. rewrite Z.div_small; [lia|].
      pose proof (Z.mod_pos_bound k 8). lia.
    + replace (63 - k) with (7 - k `mod` 8 + (7 - k `div` 8) * 8)
        by (pose proof (Z.div_mod k 8); lia).
      rewrite Z.mod_add by lia. apply Z.mod_small.
      pose proof (Z.mod_pos_bound k 8). lia.
Qed.

(** Green finds cell 63, blue's far corner, at the first place. *)
Lemma cell_order_turns_board_witness :
  _checkers_cell_order "g" !! 0%nat = Some 63.
Proof.
  destruct (cell_order_turns_board "g") as [_ H].
  destruct (H 0) as [Hg _]; [lia|]. exact Hg.
Defined.
